(** * Bloom-filter template protection for iris-codes

    A shallow embedding of [BF_extraction_iriscodes.py] and the properties
    of its block-wise encoding pipeline: the row-group permutation
    [add_unlinkability], the baseline encoder [extract_BFs_from_iriscode]
    and the fusion encoder [extract_BFs_from_iriscode_XOR].

    Conventions of the embedding.
    - A two-dimensional numpy integer array is the list of its rows; a
      one-dimensional one is a list.  Array entries are [Z].
    - A Python exception is [None]; a computation that may raise lives in
      the [option] monad and an exception aborts everything after it.
    - The script divides integers with [/] ([N_BF_X / 2]); this is the
      floor division of the Python 2 the script was written for, and it is
      embedded as division on [nat]. *)

From Stdlib Require Import ZArith String Ascii DecimalString Lia.
From stdpp Require Import base option list.

Local Open Scope nat_scope.

(** ** Parameters of Bloom filter extraction *)

Definition N_BITS_BF : nat := 10.
Definition N_WORDS_BF : nat := 32.
Definition N_BF_X : nat := 512 / N_WORDS_BF.
Definition N_BF_Y : nat := 20 / N_BITS_BF.
Definition N_BLOCKS : nat := N_BF_X * N_BF_Y.
Definition BF_SIZE : nat := 2 ^ N_BITS_BF.

(** ** The numpy operations the script uses *)

Module Np.

Abbreviation matrix := (list (list Z)).

(** [numpy.zeros(shape=[n])] and [numpy.zeros(shape=[r, c])].  The
    one-dimensional Bloom vector is a float array in the script; it only
    ever holds 0.0 and 1.0, which the copy into the integer template
    turns into 0 and 1, so it is embedded with integer entries. *)
Definition zeros (n : nat) : list Z := replicate n 0%Z.
Definition zeros2 (r c : nat) : matrix := replicate r (zeros c).

(** [a.shape] of a two-dimensional array. *)
Definition nrows (m : matrix) : nat := length m.
Definition ncols (m : matrix) : nat :=
  match m with [] => 0 | row :: _ => length row end.

(** [l[lo:hi]] for non-negative bounds: out-of-range bounds are clamped. *)
Definition slice {A} (lo hi : nat) (l : list A) : list A :=
  take (hi - lo) (drop lo l).

(** [a[r0:r1, c0:c1]]. *)
Definition slice2 (r0 r1 c0 c1 : nat) (m : matrix) : matrix :=
  slice c0 c1 <$> slice r0 r1 m.

(** Row-major cutting of a flat buffer into [r] rows of [c] entries. *)
Fixpoint chunks {A} (r c : nat) (l : list A) : list (list A) :=
  match r with
  | 0 => []
  | S r' => take c l :: chunks r' c (drop c l)
  end.

(** [numpy.reshape(a, [r, c])]: the entries in row-major order, cut into
    [r] rows of [c]; raises when the number of entries is not [r * c]. *)
Definition reshape (m : matrix) (r c : nat) : option matrix :=
  if decide (length (concat m) = r * c)
  then Some (chunks r c (concat m))
  else None.

(** An integer used as an index on an axis of length [n]: negative
    indices count from the end, anything outside [-n, n) raises. *)
Definition index (n : nat) (i : Z) : option nat :=
  if decide (0 ≤ i < Z.of_nat n)%Z then Some (Z.to_nat i)
  else if decide (- Z.of_nat n ≤ i < 0)%Z then Some (Z.to_nat (i + Z.of_nat n))
  else None.

(** [a[idx, :]] with an integer index array [idx]: the rows of [a] at
    the positions [idx], in that order. *)
Definition take_rows (m : matrix) (idx : list Z) : option matrix :=
  mapM (λ i, n ← index (length m) i; m !! n) idx.

(** [a[:, w]] for a non-negative [w]. *)
Definition column (m : matrix) (w : nat) : option (list Z) :=
  mapM (λ row : list Z, row !! w) m.

(** Overwrite [length new] entries of [l] from position [lo] on. *)
Definition splice {A} (lo : nat) (new l : list A) : list A :=
  take lo l ++ new ++ drop (lo + length new) l.

(** [a[r0:r1, c0:c1] = v].  The value must have the shape of the target
    slice (the values assigned in the script have no axis of length one,
    so broadcasting never applies); otherwise numpy raises. *)
Definition assign_slice (m : matrix) (r0 r1 c0 c1 : nat) (v : matrix)
  : option matrix :=
  if decide (length <$> slice2 r0 r1 c0 c1 m = length <$> v)
  then Some (splice r0 (zip_with (splice c0) v (slice r0 r1 m)) m)
  else None.

(** [a[i] = x] on a one-dimensional array. *)
Definition setitem (a : list Z) (i : Z) (x : Z) : option (list Z) :=
  n ← index (length a) i; Some (<[n := x]> a).

(** [a[i, :] = row] for a non-negative [i]. *)
Definition set_row (m : matrix) (i : nat) (row : list Z) : option matrix :=
  old ← m !! i;
  if decide (length old = length row) then Some (<[i := row]> m) else None.

End Np.

Import Np.

(** ** Python builtins *)

(** [for a in l: body], threading the loop state; an exception in the body
    ends the loop. *)
Fixpoint for_each {A S} (l : list A) (body : A → S → option S) (s : S)
  : option S :=
  match l with
  | [] => Some s
  | a :: l' => s' ← body a s; for_each l' body s'
  end.

(** [str(a)] of an integer. *)
Definition str (a : Z) : string := NilZero.string_of_int (Z.to_int a).

(** [''.join(l)]. *)
Definition join (l : list string) : string := String.concat "" l.

Fixpoint binary_digits (s : string) (acc : Z) : option Z :=
  match s with
  | EmptyString => Some acc
  | String c s' =>
      if Ascii.eqb c "0" then binary_digits s' (2 * acc)%Z
      else if Ascii.eqb c "1" then binary_digits s' (2 * acc + 1)%Z
      else None
  end.

(** [int(s, 2)] on the strings the script builds: an optional [0b] prefix
    followed by at least one binary digit; anything else raises.  (Signs,
    surrounding blanks and digit separators cannot occur: the argument is
    ['0b'] followed by decimal renderings of integers.) *)
Definition int_base2 (s : string) : option Z :=
  let digits :=
    match s with
    | String "0" (String "b" rest) => rest
    | _ => s
    end in
  match digits with
  | EmptyString => None
  | _ => binary_digits digits 0
  end.

(** ** The encoders *)

(** Lines 93 and 118: [int('0b' + ''.join([str(a) for a in hist]), 2)]. *)
Definition location_of (hist : list Z) : option Z :=
  int_base2 ("0b" ++ join (str <$> hist)).

(** The body of the block loop of [extract_BFs_from_iriscode] (lines 83 and
    91-94): the Bloom vector of one block. *)
Definition encode_block (new_hists : matrix) : option (list Z) :=
  for_each (seq 0 N_WORDS_BF)
    (λ w bf,
      hist ← column new_hists w;
      location ← location_of hist;
      setitem bf location 1%Z)
    (zeros BF_SIZE).

(** The body of the block loop of [extract_BFs_from_iriscode_XOR] (lines
    108 and 116-120). *)
Definition encode_block_XOR (keys : list Z) (new_hists : matrix)
  : option (list Z) :=
  for_each (seq 0 N_WORDS_BF)
    (λ w bf,
      hist ← column new_hists w;
      location ← location_of hist;
      for_each keys (λ k bf, setitem bf (Z.lxor location k) 1%Z) bf)
    (zeros BF_SIZE).

(** The two nested loops over the block grid, shared by both encoders; the
    state is the pair [(template, index)]. *)
Definition extract_with (encode : matrix → option (list Z)) (feat : matrix)
  : option matrix :=
  st ← for_each (seq 0 N_BF_X)
    (λ x st,
      for_each (seq 0 N_BF_Y)
        (λ y '(template, index),
          let ini_x := x * N_WORDS_BF in
          let fin_x := (x + 1) * N_WORDS_BF in
          let ini_y := y * N_BITS_BF in
          let fin_y := (y + 1) * N_BITS_BF in
          let new_hists := slice2 ini_y fin_y ini_x fin_x feat in
          bf ← encode new_hists;
          template' ← set_row template index bf;
          Some (template', index + 1))
        st)
    (zeros2 N_BLOCKS BF_SIZE, 0);
  Some (fst st).

Definition extract_BFs_from_iriscode (feat : matrix) : option matrix :=
  extract_with encode_block feat.

Definition extract_BFs_from_iriscode_XOR (feat : matrix) (keys : list Z)
  : option matrix :=
  extract_with (encode_block_XOR keys) feat.

(** ** The unlinkability permutation *)

(** One of the four assignments of lines 68-71:
    [perm_feat[r0:r1, c0:c1] =
       numpy.reshape(featsAux[keyPERM[j, :], :],
                     [N_BITS_BF, (N_BF_X / 2) * N_WORDS_BF])]. *)
Definition permute_region (perm_feat featsAux keyPERM : matrix) (j : nat)
    (r0 r1 c0 c1 : nat) : option matrix :=
  key_j ← keyPERM !! j;
  rows ← take_rows featsAux key_j;
  v ← reshape rows N_BITS_BF ((N_BF_X / 2) * N_WORDS_BF);
  assign_slice perm_feat r0 r1 c0 c1 v.

(** [add_unlinkability(features, keyPERM)].  The function sizes its result
    with [feat.shape], where [feat] is the module-level variable holding
    the iris-code just loaded (line 59 does not use the parameter
    [features]); the global is the first argument here.  In the script
    every call passes that same [feat] as [features]. *)
Definition add_unlinkability (feat features keyPERM : matrix) : option matrix :=
  let perm_feat := zeros2 (nrows feat) (ncols feat) in
  featsAux1 ← reshape
    (slice2 0 N_BITS_BF 0 ((N_BF_X / 2) * N_WORDS_BF) features)
    (N_BITS_BF * N_BF_X / 2) N_WORDS_BF;
  featsAux2 ← reshape
    (slice2 0 N_BITS_BF ((N_BF_X / 2) * N_WORDS_BF) (N_BF_X * N_WORDS_BF) features)
    (N_BITS_BF * N_BF_X / 2) N_WORDS_BF;
  featsAux3 ← reshape
    (slice2 N_BITS_BF (2 * N_BITS_BF) 0 ((N_BF_X / 2) * N_WORDS_BF) features)
    (N_BITS_BF * N_BF_X / 2) N_WORDS_BF;
  featsAux4 ← reshape
    (slice2 N_BITS_BF (2 * N_BITS_BF) ((N_BF_X / 2) * N_WORDS_BF) (N_BF_X * N_WORDS_BF) features)
    (N_BITS_BF * N_BF_X / 2) N_WORDS_BF;
  perm_feat ← permute_region perm_feat featsAux1 keyPERM 0
    0 N_BITS_BF 0 ((N_BF_X / 2) * N_WORDS_BF);
  perm_feat ← permute_region perm_feat featsAux2 keyPERM 2
    0 N_BITS_BF ((N_BF_X / 2) * N_WORDS_BF) (N_BF_X * N_WORDS_BF);
  perm_feat ← permute_region perm_feat featsAux3 keyPERM 2
    N_BITS_BF (2 * N_BITS_BF) 0 ((N_BF_X / 2) * N_WORDS_BF);
  perm_feat ← permute_region perm_feat featsAux4 keyPERM 3
    N_BITS_BF (2 * N_BITS_BF) ((N_BF_X / 2) * N_WORDS_BF) (N_BF_X * N_WORDS_BF);
  Some perm_feat.

(** ** Template extraction: loading a sample and the main loop (lines 137-166) *)

(** [line.rstrip()]: trailing whitespace is removed; the whitespace
    characters of a byte string are space, tab, line feed, vertical tab,
    form feed and carriage return. *)
Definition is_space (c : ascii) : bool :=
  let n := nat_of_ascii c in (n =? 32) || ((9 <=? n) && (n <=? 13)).

Fixpoint rstrip (s : string) : string :=
  match s with
  | EmptyString => EmptyString
  | String c s' =>
      match rstrip s' with
      | EmptyString => if is_space c then EmptyString else String c EmptyString
      | t => String c t
      end
  end.

(** [int(c)] of a one-character string: a decimal digit gives its value,
    every other character raises [ValueError]. *)
Definition int_char (c : ascii) : option Z :=
  let n := nat_of_ascii c in
  if (48 <=? n) && (n <=? 57) then Some (Z.of_nat n - 48)%Z else None.

(** [list(map(int, list(line.rstrip())))]. *)
Definition parse_line (line : string) : option (list Z) :=
  mapM int_char (list_ascii_of_string (rstrip line)).

(** [numpy.asarray] of a list of lists of integers.  Rows of one common
    length give a two-dimensional array.  No rows give an empty
    one-dimensional array, and rows of different lengths give a
    one-dimensional array of row objects (or, in later numpy versions, an
    exception at once); in either case the first two-dimensional slice taken
    by [add_unlinkability] (line 62) raises. *)
Inductive ndarray :=
  | Array2 (m : matrix)
  | Array1 (n : nat).

Definition asarray (rows : list (list Z)) : ndarray :=
  match rows with
  | [] => Array1 0
  | r :: rs =>
      if forallb (λ r', length r' =? length r) rs then Array2 rows
      else Array1 (length rows)
  end.

(** Line 144 (and 159): the array of a sample, from the result of
    [f.readlines()]. *)
Definition load (lines : list string) : option ndarray :=
  rows ← mapM parse_line lines; Some (asarray rows).

(** Lines 144-150 (and 159-165): the template of one sample.  The global
    [feat] read by [add_unlinkability] is the array just loaded. *)
Definition process_sample (extract : matrix → option matrix) (key : matrix)
    (lines : list string) : option matrix :=
  a ← load lines;
  match a with
  | Array2 feat => featUnlink ← add_unlinkability feat feat key; extract featUnlink
  | Array1 _ => None
  end.

(** [filename[0:-4]]. *)
Definition stem (filename : string) : string :=
  substring 0 (String.length filename - 4) filename.

(** What the script does to the outside: the lines it prints and the
    arrays it saves, in order, each under its path. *)
Record world := World {
  stdout : list string;
  saved : list (string * matrix)
}.

Definition print (s : string) (w : world) : world :=
  World (stdout w ++ [s]) (saved w).

Definition savetxt (path : string) (a : matrix) (w : world) : world :=
  World (stdout w) (saved w ++ [(path, a)]).

(** How a run ends: the loop ran through, or an exception, which nothing
    catches, ended the program. *)
Inductive outcome := Finished | Raised.

(** The loop over the files of [DBdir]: each file is given by its name and
    the lines read from it. *)
Fixpoint extract_all (extract : matrix → option matrix) (key : matrix)
    (DB_BFtemplates : string) (files : list (string * list string))
    (w : world) : world * outcome :=
  match files with
  | [] => (w, Finished)
  | (filename, lines) :: files' =>
      let w := print (stem filename) w in
      match process_sample extract key lines with
      | None => (w, Raised)
      | Some bfs =>
          extract_all extract key DB_BFtemplates files'
            (savetxt (DB_BFtemplates ++ stem filename ++ "_BFtemplate.txt")
               bfs w)
      end
  end.

(** [range(n)]. *)
Definition range (n : nat) : list Z := Z.of_nat <$> seq 0 n.

(** [random.sample(population, k)]: [k] elements of the population, drawn
    without replacement.  What the random generator draws is the argument
    [rnd]: draw number [i] takes the element at position [rnd i], reduced
    to the size of what is left of the population, and removes it.  The
    call raises [ValueError] unless [0 <= k <= len(population)]. *)
Fixpoint draw (pool : list Z) (k : nat) (rnd : nat → nat) : list Z :=
  match k with
  | 0 => []
  | S k' =>
      let j := rnd 0 mod length pool in
      match pool !! j with
      | Some x => x :: draw (delete j pool) k' (λ i, rnd (S i))
      | None => []
      end
  end.

Definition sample (population : list Z) (k : Z) (rnd : nat → nat)
  : option (list Z) :=
  if decide (0 ≤ k ≤ Z.of_nat (length population))%Z
  then Some (draw population (Z.to_nat k) rnd)
  else None.

(** Lines 135-166.  The permutation key of lines 131-133 and the draws of
    the random generator for line 138 are arguments.  An exception at line
    138 ends the run after the first line is printed and before any file is
    read. *)
Definition main (nXORKeys : Z) (rnd : nat → nat) (key : matrix)
    (DB_BFtemplates : string) (files : list (string * list string))
  : world * outcome :=
  let w := print "Extracting BF templates for the DB..." (World [] []) in
  if decide (nXORKeys = 0%Z) then
    extract_all extract_BFs_from_iriscode key DB_BFtemplates files w
  else
    match sample (range BF_SIZE) nXORKeys rnd with
    | None => (w, Raised)
    | Some xorKeys =>
        extract_all
          (λ featUnlink, extract_BFs_from_iriscode_XOR featUnlink xorKeys)
          key DB_BFtemplates files w
    end.

(** ** Specification-side notions *)

(** A column read top-to-bottom as a binary number, most significant bit
    first. *)
Definition loc (hist : list Z) : Z :=
  fold_left (λ acc b, 2 * acc + b)%Z hist 0%Z.

Definition bit (b : Z) : Prop := b = 0%Z ∨ b = 1%Z.

(** A block: [N_BITS_BF] rows of [N_WORDS_BF] entries, each 0 or 1. *)
Definition is_block (m : matrix) : Prop :=
  length m = N_BITS_BF ∧
  Forall (λ row, length row = N_WORDS_BF ∧ Forall bit row) m.

(** The number of 1-bits of a Bloom vector. *)
Definition count_ones (bf : list Z) : nat :=
  length (filter (λ b, b = 1%Z) bf).

(** [marked n bf S]: [bf] is a 0/1 vector of length [n] whose 1-bits are
    exactly the positions in [S]. *)
Definition marked (n : nat) (bf : list Z) (S : nat → Prop) : Prop :=
  length bf = n ∧ Forall bit bf ∧ ∀ i, i < n → (bf !! i = Some 1%Z ↔ S i).

(** The block at grid position [(x, y)] of a matrix. *)
Definition block_at (feat : matrix) (x y : nat) : matrix :=
  slice2 (y * N_BITS_BF) ((y + 1) * N_BITS_BF)
         (x * N_WORDS_BF) ((x + 1) * N_WORDS_BF) feat.

(** The grid positions in the order the encoders visit them: [x] outer,
    [y] inner. *)
Definition grid : list (nat * nat) :=
  x ← seq 0 N_BF_X; y ← seq 0 N_BF_Y; [(x, y)].

(** A binary matrix of [r] rows and [c] columns. *)
Definition is_matrix (r c : nat) (m : matrix) : Prop :=
  length m = r ∧ Forall (λ row, length row = c ∧ Forall bit row) m.

(** One iteration of the block loop of the encoders, on the state
    [(template, index)], and the template row it stores. *)
Definition block_step (encode : matrix → option (list Z)) (feat : matrix)
    (p : nat * nat) (st : matrix * nat) : option (matrix * nat) :=
  bf ← encode (block_at feat p.1 p.2);
  template' ← set_row st.1 st.2 bf;
  Some (template', st.2 + 1).

Definition block_row (encode : matrix → option (list Z)) (feat : matrix)
    (p : nat * nat) : option (list Z) :=
  bf ← encode (block_at feat p.1 p.2);
  if decide (length bf = BF_SIZE) then Some bf else None.

#[global] Instance bit_dec b : Decision (bit b).
Proof. unfold bit. apply _. Defined.

#[global] Instance is_block_dec m : Decision (is_block m).
Proof. unfold is_block. apply _. Defined.

#[global] Instance is_matrix_dec r c m : Decision (is_matrix r c m).
Proof. unfold is_matrix. apply _. Defined.

(** Keys of the fusion encoder drawn from [range(BF_SIZE)]. *)
Definition keys_in_range (keys : list Z) : Prop :=
  Forall (λ k, 0 ≤ k < Z.of_nat BF_SIZE)%Z keys.

#[global] Instance keys_in_range_dec keys : Decision (keys_in_range keys).
Proof. unfold keys_in_range. apply _. Defined.


(** ** Quadrants *)

(** A matrix of [h] rows and [w] columns, whatever its entries. *)
Definition rect (h w : nat) (m : matrix) : Prop :=
  length m = h ∧ Forall (λ row, length row = w) m.

#[global] Instance rect_dec h w m : Decision (rect h w m).
Proof. unfold rect. apply _. Defined.

(** Two matrices side by side, and four quadrants put together:
    [quad A B C D] has [A] top left, [B] top right, [C] bottom left and
    [D] bottom right. *)
Definition hcat (A B : matrix) : matrix := zip_with app A B.
Definition quad (A B C D : matrix) : matrix := hcat A B ++ hcat C D.

(** What lines 62-71 do to one quadrant under the key row [k]: cut it into
    row groups of [N_WORDS_BF] entries, reorder the groups, and put the
    result back into the quadrant's shape. *)
Definition region_perm (k : list Z) (Q : matrix) : option matrix :=
  aux ← reshape Q (N_BITS_BF * N_BF_X / 2) N_WORDS_BF;
  rows ← take_rows aux k;
  reshape rows N_BITS_BF ((N_BF_X / 2) * N_WORDS_BF).

(** ** Permutation keys *)

(** A bijection over [0, n), as [numpy.random.permutation(n)] returns it:
    [n] indices of the range, none repeated (so none missing). *)
Definition is_perm (n : nat) (k : list Z) : Prop :=
  length k = n ∧ NoDup k ∧ Forall (λ i, 0 ≤ i < Z.of_nat n)%Z k.

#[global] Instance is_perm_dec n k : Decision (is_perm n k).
Proof. unfold is_perm. apply _. Defined.

(** The key material of lines 131-133: four permutations of the row groups
    of a quadrant. *)
Definition valid_key (keyPERM : matrix) : Prop :=
  length keyPERM = 4 ∧ Forall (is_perm (N_BITS_BF * N_BF_X / 2)) keyPERM.

#[global] Instance valid_key_dec K : Decision (valid_key K).
Proof. unfold valid_key. apply _. Defined.

(** A key row [add_unlinkability] can index the [n] row groups of a
    quadrant with: [n] indices, each within the bounds of numpy indexing. *)
Definition usable_row (n : nat) (k : list Z) : Prop :=
  length k = n ∧ Forall (λ i, - Z.of_nat n ≤ i < Z.of_nat n)%Z k.

#[global] Instance usable_row_dec n k : Decision (usable_row n k).
Proof. unfold usable_row. apply _. Defined.

(** The inverse of a permutation: position [j] holds the place of [j] in
    [k]. *)
Definition inverse_perm (k : list Z) : list Z :=
  (λ j, match list_find (λ i, i = Z.of_nat j) k with
        | Some (p, _) => Z.of_nat p
        | None => 0%Z
        end) <$> seq 0 (length k).

Definition inverse_key (keyPERM : matrix) : matrix := inverse_perm <$> keyPERM.

(** ** Samples as text *)

(** The characters of a line that the loader converts. *)
Definition chars (line : string) : list ascii :=
  list_ascii_of_string (rstrip line).

(** A string of whitespace. *)
Definition spaces (t : string) : Prop :=
  Forall (λ c, is_space c = true) (list_ascii_of_string t).

(** An array entry as the loader produces it: the value of a decimal
    digit. *)
Definition digit (a : Z) : Prop := (0 ≤ a ≤ 9)%Z.

Definition digit_char (c : ascii) : Prop :=
  48 ≤ nat_of_ascii c ≤ 57.

Definition binary_char (c : ascii) : Prop :=
  c = "0"%char ∨ c = "1"%char.

#[global] Instance ascii_eq_dec : EqDecision ascii := Ascii.ascii_dec.

#[global] Instance digit_dec a : Decision (digit a).
Proof. unfold digit. apply _. Defined.

#[global] Instance digit_char_dec c : Decision (digit_char c).
Proof. unfold digit_char. apply _. Defined.

#[global] Instance binary_char_dec c : Decision (binary_char c).
Proof. unfold binary_char. apply _. Defined.

(** An encoder that reads every column of its block as a binary number. *)
Definition reads_columns (encode : matrix → option (list Z)) : Prop :=
  ∀ block bf w,
    encode block = Some bf → w < N_WORDS_BF →
    ∃ hist, column block w = Some hist ∧ is_Some (location_of hist).

(** An encoder that returns a Bloom vector for every binary block. *)
Definition total_on_blocks (encode : matrix → option (list Z)) : Prop :=
  ∀ block, is_block block →
    ∃ bf, encode block = Some bf ∧ length bf = BF_SIZE.

(** The array of a sample, character by character. *)
Definition parsed (lines : list string) (M : matrix) : Prop :=
  Forall2 (Forall2 (λ c a, int_char c = Some a)) (chars <$> lines) M.

(** The samples the script turns into a template: at least 20 lines, all
    of one length of at least 512 characters once trailing whitespace is
    removed, decimal digits only, and only 0 and 1 within the first 20
    lines and 512 columns. *)
Definition accepted (lines : list string) : Prop :=
  ∃ n' e,
    length lines = 20 + n'
    ∧ Forall (λ line, length (chars line) = 512 + e) lines
    ∧ Forall (λ line, Forall digit_char (chars line)) lines
    ∧ Forall (λ line, Forall binary_char (take 512 (chars line)))
        (take 20 lines).

(** ** Runs of the main loop *)

(** The XOR keys of a run (lines 137-138): none in baseline mode, the
    sample drawn otherwise; [None] when drawing raises. *)
Definition run_keys (nXORKeys : Z) (rnd : nat → nat) : option (list Z) :=
  if decide (nXORKeys = 0%Z) then Some []
  else sample (range BF_SIZE) nXORKeys rnd.

(** The encoder a run uses (lines 150 and 165). *)
Definition extractor (nXORKeys : Z) (xorKeys : list Z)
  : matrix → option matrix :=
  if decide (nXORKeys = 0%Z) then extract_BFs_from_iriscode
  else λ featUnlink, extract_BFs_from_iriscode_XOR featUnlink xorKeys.

(** The first line a run prints (line 135). *)
Definition banner : string := "Extracting BF templates for the DB...".

(** The path a template is saved under (lines 151 and 166). *)
Definition out_path (DB_BFtemplates filename : string) : string :=
  (DB_BFtemplates ++ stem filename ++ "_BFtemplate.txt")%string.

(** The templates of the files that have one, each under its path. *)
Definition outputs (extract : matrix → option matrix) (key : matrix)
    (DB_BFtemplates : string) (files : list (string * list string))
  : list (string * matrix) :=
  omap (λ f, bfs ← process_sample extract key f.2;
             Some (out_path DB_BFtemplates f.1, bfs)) files.

(** ** Sample data *)

Module Sample.

(** A block all of whose entries are 1. *)
Definition ones_block : matrix :=
  replicate N_BITS_BF (replicate N_WORDS_BF 1%Z).

(** The all-zero iris-code of the reference shape. *)
Definition zero_code : matrix := zeros2 20 512.

(** An iris-code with stripes: entry [(i, j)] is 1 when [j] is a multiple
    of [i + 2]. *)
Definition striped_code : matrix :=
  (λ i, (λ j, if (j mod (i + 2) =? 0)%Z then 1 else 0)%Z
          <$> seqZ 0 512) <$> seqZ 0 20.

(** Two permutations of the 80 row groups of a quadrant: the identity
    and the reversal. *)
Definition id_perm : list Z := seqZ 0 80.
Definition rev_perm : list Z := reverse (seqZ 0 80).

(** Key materials. *)
Definition key : matrix := [rev_perm; id_perm; rev_perm; id_perm].
Definition key_id : matrix := [id_perm; id_perm; id_perm; id_perm].
Definition key_row2 : matrix := [id_perm; id_perm; rev_perm; id_perm].

(** A sample of 20 lines of 513 characters each. *)
Definition long_line : string :=
  (string_of_list_ascii (replicate 513 "0"%char)
   ++ String (ascii_of_nat 10) EmptyString)%string.
Definition long_sample : list string := replicate 20 long_line.

(** Draws of the random generator: always position 5. *)
Definition fives : nat → nat := λ _, 5.

(** A sample of 21 lines of 513 characters each, with the digit 9 in the
    last column. *)
Definition other_line : string :=
  string_of_list_ascii (replicate 512 "0"%char ++ ["9"%char]).
Definition other_sample : list string := replicate 21 other_line.

(** A line the loader cannot convert. *)
Definition bad_sample : list string := ["01x"%string].

(** The striped iris-code after the permutation with [key]. *)
Definition unlinked : matrix :=
  default [] (add_unlinkability striped_code striped_code key).

(** The striped iris-code with one more column and one more row. *)
Definition wide_code : matrix :=
  hcat striped_code (replicate 20 [7%Z]) ++ [replicate 513 3%Z].

(** The striped iris-code with the digit 7 all along row 3. *)
Definition digit_code : matrix := <[3 := replicate 512 7%Z]> striped_code.

(** A key row that is no permutation: 80 times the last row group, by
    its negative index. *)
Definition last_row : list Z := replicate 80 (-1)%Z.

End Sample.

(** * Properties *)

(** ** Reading a column as a number *)

Section Location.

Lemma join_cons s l : join (s :: l) = (s ++ join l)%string.
Proof.
  unfold join. destruct l as [|t l]; simpl.
  - induction s as [|c s IH]; simpl; [done | by rewrite <- IH].
  - done.
Qed.

Lemma binary_digits_join hist acc :
  Forall bit hist →
  binary_digits (join (str <$> hist)) acc
  = Some (fold_left (λ a b, 2 * a + b)%Z hist acc).
Proof.
  intros Hb. revert acc.
  induction Hb as [|b hist [-> | ->] _ IH]; intros acc.
  - done.
  - rewrite fmap_cons, join_cons. simpl. rewrite IH.
    do 2 f_equal. lia.
  - rewrite fmap_cons, join_cons. simpl. by rewrite IH.
Qed.

Lemma location_of_bits hist :
  Forall bit hist → hist ≠ [] → location_of hist = Some (loc hist).
Proof.
  intros Hb Hne. unfold location_of, int_base2, loc.
  change ("0b" ++ ?t)%string with (String "0" (String "b" t)).
  cbv iota beta zeta.
  generalize (binary_digits_join hist 0 Hb).
  destruct hist as [|b hist]; [done|].
  rewrite fmap_cons, join_cons.
  apply Forall_cons in Hb as [[-> | ->] _]; simpl; auto.
Qed.

Lemma fold_bits_bound hist acc :
  Forall bit hist → (0 ≤ acc)%Z →
  (acc * 2 ^ Z.of_nat (length hist)
     ≤ fold_left (λ a b, 2 * a + b) hist acc
     < (acc + 1) * 2 ^ Z.of_nat (length hist))%Z.
Proof.
  intros Hb. revert acc.
  induction Hb as [|b hist Hbit _ IH]; intros acc Hacc.
  - simpl. lia.
  - cbn [fold_left length]. rewrite Nat2Z.inj_succ, Z.pow_succ_r by lia.
    destruct (IH (2 * acc + b)%Z) as [H1 H2]; [destruct Hbit; lia|].
    destruct Hbit as [-> | ->]; nia.
Qed.

Lemma loc_bound hist :
  Forall bit hist → (0 ≤ loc hist < 2 ^ Z.of_nat (length hist))%Z.
Proof.
  intros Hb. pose proof (fold_bits_bound hist 0 Hb). unfold loc. lia.
Qed.

Lemma loc_ones n : loc (replicate n 1%Z) = (2 ^ Z.of_nat n - 1)%Z.
Proof.
  unfold loc.
  cut (∀ acc, fold_left (λ a b, 2 * a + b)%Z (replicate n 1%Z) acc
              = ((acc + 1) * 2 ^ Z.of_nat n - 1)%Z).
  { intros ->. lia. }
  induction n as [|n IH]; intros acc.
  - simpl. lia.
  - cbn [replicate fold_left]. rewrite IH, Nat2Z.inj_succ, Z.pow_succ_r by lia.
    lia.
Qed.

Lemma loc_zeros n : loc (replicate n 0%Z) = 0%Z.
Proof.
  unfold loc. induction n as [|n IH]; [done|]. by cbn [replicate fold_left].
Qed.

End Location.

(** ** Bloom vectors as marked sets *)

Section Bloom.

Lemma index_in_range n i :
  (0 ≤ i < Z.of_nat n)%Z → index n i = Some (Z.to_nat i).
Proof. intros H. unfold index. by rewrite decide_True. Qed.

Lemma index_Some n i j : index n i = Some j → j < n.
Proof.
  unfold index. repeat case_decide; intros; simplify_eq; lia.
Qed.

Lemma setitem_length a i x a' : setitem a i x = Some a' → length a' = length a.
Proof.
  unfold setitem. destruct (index _ _); intros; simplify_eq/=.
  by rewrite length_insert.
Qed.

Lemma zeros_marked n : marked n (zeros n) (λ _, False).
Proof.
  unfold zeros. split_and!.
  - by rewrite length_replicate.
  - apply Forall_replicate. by left.
  - intros i Hi. rewrite lookup_replicate_2 by done. split; [done|tauto].
Qed.

Lemma marked_ext n bf (S S' : nat → Prop) :
  marked n bf S → (∀ i, i < n → S i ↔ S' i) → marked n bf S'.
Proof.
  intros (Hlen & Hbit & HS) Heq. split_and!; [done..|].
  intros i Hi. rewrite HS by done. auto.
Qed.

Lemma setitem_marked n bf S l :
  marked n bf S → (0 ≤ l < Z.of_nat n)%Z →
  ∃ bf', setitem bf l 1%Z = Some bf'
         ∧ marked n bf' (λ i, S i ∨ Z.of_nat i = l).
Proof.
  intros (Hlen & Hbit & HS) Hl. unfold setitem.
  rewrite Hlen, index_in_range by done. simpl.
  eexists; split; [done|]. split_and!.
  - by rewrite length_insert.
  - apply Forall_insert; [done | by right].
  - intros i Hi. destruct (decide (i = Z.to_nat l)) as [-> | Hne].
    + rewrite list_lookup_insert_eq by lia. split; [|done].
      intros _. right. lia.
    + rewrite list_lookup_insert_ne by done. rewrite HS by done.
      split; [tauto|]. intros [? | ?]; [done | lia].
Qed.

(** A loop each of whose iterations marks the positions [T w] marks, in
    all, the positions of all its iterations. *)
Lemma for_each_marked {A} n (ws : list A) body (T : A → nat → Prop) bf S :
  marked n bf S →
  (∀ w bf S, w ∈ ws → marked n bf S →
     ∃ bf', body w bf = Some bf' ∧ marked n bf' (λ i, S i ∨ T w i)) →
  ∃ bf', for_each ws body bf = Some bf'
         ∧ marked n bf' (λ i, S i ∨ ∃ w, w ∈ ws ∧ T w i).
Proof.
  revert bf S. induction ws as [|w ws IH]; intros bf S Hm Hbody.
  - exists bf. split; [done|]. eapply marked_ext; [done|].
    intros i _. split; [tauto|]. intros [? | (w & Hw & _)]; [done|].
    by apply elem_of_nil in Hw.
  - destruct (Hbody w bf S) as (bf1 & Hb1 & Hm1); [left | done |].
    destruct (IH bf1 _ Hm1) as (bf2 & Hb2 & Hm2).
    { intros w' bf' S' Hw'. apply Hbody. by right. }
    exists bf2. simpl. rewrite Hb1. simpl. split; [done|].
    eapply marked_ext; [done|]. intros i _. split.
    + intros [[? | ?] | (w' & Hw' & ?)]; [tauto | right | right].
      * exists w. split; [left | done].
      * exists w'. split; [by right | done].
    + intros [? | (w' & Hw' & ?)]; [tauto|].
      apply elem_of_cons in Hw' as [-> | Hw']; [tauto|].
      right. by exists w'.
Qed.

Lemma lxor_bound a b n :
  (0 ≤ n)%Z → (0 ≤ a < 2 ^ n)%Z → (0 ≤ b < 2 ^ n)%Z →
  (0 ≤ Z.lxor a b < 2 ^ n)%Z.
Proof.
  intros Hn Ha Hb.
  assert (0 ≤ Z.lxor a b)%Z as Hnn by (apply Z.lxor_nonneg; lia).
  split; [done|].
  destruct (decide (Z.lxor a b = 0%Z)) as [-> | Hne]; [lia|].
  apply Z.log2_lt_pow2; [lia|].
  pose proof (Z.log2_lxor a b) as Hlog.
  assert (∀ c, (0 ≤ c < 2 ^ n)%Z → (0 < n)%Z → (Z.log2 c < n)%Z) as Hc.
  { intros c Hcr Hpos. destruct (decide (c = 0%Z)) as [-> | ?].
    - by simpl.
    - apply Z.log2_lt_pow2; lia. }
  destruct (decide (n = 0%Z)) as [-> | Hn0].
  - assert (a = 0%Z) as -> by (simpl in *; lia).
    assert (b = 0%Z) as -> by (simpl in *; lia). done.
  - pose proof (Hc a Ha). pose proof (Hc b Hb). lia.
Qed.

Lemma column_rect m w c :
  Forall (λ row, length row = c ∧ Forall bit row) m → w < c →
  ∃ hist, column m w = Some hist ∧ length hist = length m ∧ Forall bit hist.
Proof.
  intros Hm Hw. unfold column.
  induction Hm as [|row m [Hlen Hrow] _ (hist & Hh & Hl & Hb)].
  - by exists [].
  - destruct (lookup_lt_is_Some_2 row w) as [x Hx]; [lia|].
    exists (x :: hist). cbn. rewrite Hx. cbn. rewrite Hh. cbn.
    split_and!; [done | by rewrite Hl |].
    constructor; [|done]. exact (Forall_lookup_1 _ _ _ _ Hrow Hx).
Qed.

Lemma column_block block w :
  is_block block → w < N_WORDS_BF →
  ∃ hist, column block w = Some hist
          ∧ length hist = N_BITS_BF ∧ Forall bit hist.
Proof.
  intros [Hlen Hrows] Hw.
  destruct (column_rect block w N_WORDS_BF Hrows Hw) as (hist & ? & ? & ?).
  exists hist. split_and!; [done | congruence | done].
Qed.

Lemma bf_size_pow : Z.of_nat BF_SIZE = (2 ^ Z.of_nat N_BITS_BF)%Z.
Proof. reflexivity. Qed.

(** The location of a column of a block, and its range. *)
Lemma location_block block w :
  is_block block → w < N_WORDS_BF →
  ∃ hist, column block w = Some hist
          ∧ location_of hist = Some (loc hist)
          ∧ (0 ≤ loc hist < Z.of_nat BF_SIZE)%Z.
Proof.
  intros Hblock Hw.
  destruct (column_block block w Hblock Hw) as (hist & Hcol & Hlen & Hbits).
  exists hist. split; [done | split].
  - apply location_of_bits; [done|]. intros ->. discriminate Hlen.
  - rewrite bf_size_pow, <- Hlen. by apply loc_bound.
Qed.

End Bloom.

(** ** The Bloom vector of one block *)

Section Encoders.

Lemma encode_block_marked block :
  is_block block →
  ∃ bf, encode_block block = Some bf
        ∧ marked BF_SIZE bf
            (λ i, ∃ w hist, w < N_WORDS_BF ∧ column block w = Some hist
                            ∧ loc hist = Z.of_nat i).
Proof.
  intros Hblock. unfold encode_block.
  destruct (for_each_marked BF_SIZE (seq 0 N_WORDS_BF)
    (λ w bf, hist ← column block w; location ← location_of hist;
             setitem bf location 1%Z)
    (λ w i, ∃ hist, column block w = Some hist ∧ loc hist = Z.of_nat i)
    (zeros BF_SIZE) (λ _, False)) as (bf & Hbf & Hm).
  - apply zeros_marked.
  - intros w bf S Hw Hm. apply elem_of_seq in Hw.
    destruct (location_block block w) as (hist & Hcol & Hloc & Hr);
      [done | lia |].
    destruct (setitem_marked _ _ _ _ Hm Hr) as (bf' & Hset & Hm').
    exists bf'. rewrite Hcol. cbn. rewrite Hloc. cbn. split; [done|].
    eapply marked_ext; [done|]. intros i _. split.
    + intros [? | ?]; [tauto|]. right. by exists hist.
    + intros [? | (hist' & ? & ?)]; [tauto|]. right. congruence.
  - exists bf. split; [done|]. eapply marked_ext; [done|].
    intros i _. split.
    + intros [[] | (w & Hw & hist & ? & ?)].
      apply elem_of_seq in Hw. exists w, hist. split_and!; [lia | done..].
    + intros (w & hist & ? & ? & ?). right. exists w.
      split; [apply elem_of_seq; lia | by exists hist].
Qed.

Lemma encode_block_XOR_marked keys block :
  is_block block →
  Forall (λ k, 0 ≤ k < Z.of_nat BF_SIZE)%Z keys →
  ∃ bf, encode_block_XOR keys block = Some bf
        ∧ marked BF_SIZE bf
            (λ i, ∃ w hist k, w < N_WORDS_BF ∧ column block w = Some hist
                              ∧ k ∈ keys
                              ∧ Z.lxor (loc hist) k = Z.of_nat i).
Proof.
  intros Hblock Hkeys. unfold encode_block_XOR.
  destruct (for_each_marked BF_SIZE (seq 0 N_WORDS_BF)
    (λ w bf, hist ← column block w; location ← location_of hist;
             for_each keys (λ k bf, setitem bf (Z.lxor location k) 1%Z) bf)
    (λ w i, ∃ hist k, column block w = Some hist ∧ k ∈ keys
                      ∧ Z.lxor (loc hist) k = Z.of_nat i)
    (zeros BF_SIZE) (λ _, False)) as (bf & Hbf & Hm).
  - apply zeros_marked.
  - intros w bf S Hw Hm. apply elem_of_seq in Hw.
    destruct (location_block block w) as (hist & Hcol & Hloc & Hr);
      [done | lia |].
    rewrite Hcol. cbn. rewrite Hloc. cbn.
    destruct (for_each_marked BF_SIZE keys
      (λ k bf, setitem bf (Z.lxor (loc hist) k) 1%Z)
      (λ k i, Z.of_nat i = Z.lxor (loc hist) k) bf S Hm)
      as (bf' & Hbf' & Hm').
    { intros k bf0 S0 Hk Hm0. apply setitem_marked; [done|].
      rewrite Forall_forall in Hkeys. specialize (Hkeys k Hk).
      rewrite bf_size_pow in *. apply lxor_bound; lia. }
    exists bf'. split; [done|]. eapply marked_ext; [done|].
    intros i _. split.
    + intros [? | (k & ? & ?)]; [tauto|]. right. by exists hist, k.
    + intros [? | (hist' & k & ? & ? & ?)]; [tauto|]. right.
      exists k. split; [done|]. congruence.
  - exists bf. split; [done|]. eapply marked_ext; [done|].
    intros i _. split.
    + intros [[] | (w & Hw & hist & k & ? & ? & ?)].
      apply elem_of_seq in Hw. exists w, hist, k.
      split_and!; [lia | done..].
    + intros (w & hist & k & ? & ? & ? & ?). right. exists w.
      split; [apply elem_of_seq; lia | by exists hist, k].
Qed.

(** Setting one entry to 1 adds at most one 1-bit. *)
Lemma count_ones_insert bf n :
  count_ones (<[n := 1%Z]> bf) ≤ S (count_ones bf).
Proof.
  unfold count_ones. revert n.
  induction bf as [|b bf IH]; intros n; [simpl; lia|].
  destruct n as [|n]; simpl.
  - rewrite !filter_cons. repeat case_decide; simpl; lia.
  - specialize (IH n). rewrite !filter_cons.
    case_decide; simpl; lia.
Qed.

Lemma count_ones_zeros n : count_ones (zeros n) = 0.
Proof.
  unfold count_ones, zeros. induction n as [|n IH]; [done|].
  cbn [replicate]. rewrite filter_cons. by case_decide.
Qed.

Lemma count_ones_loop ws block bf bf' :
  for_each ws
    (λ w bf, hist ← column block w; location ← location_of hist;
             setitem bf location 1%Z) bf = Some bf' →
  count_ones bf' ≤ count_ones bf + length ws.
Proof.
  revert bf. induction ws as [|w ws IH]; intros bf H; simplify_eq/=; [lia|].
  destruct (column block w) as [hist|]; simplify_eq/=.
  destruct (location_of hist) as [l|]; simplify_eq/=.
  unfold setitem in H. destruct (index _ l) as [n|]; simplify_eq/=.
  apply IH in H. pose proof (count_ones_insert bf n). lia.
Qed.

(** The baseline encoder and the fusion encoder with the single key 0
    do the same on every block, exceptions included. *)
Lemma encode_block_XOR_zero block :
  encode_block_XOR [0%Z] block = encode_block block.
Proof.
  unfold encode_block_XOR, encode_block. generalize (zeros BF_SIZE).
  induction (seq 0 N_WORDS_BF) as [|w ws IH]; intros bf; [done|].
  cbn [for_each]. destruct (column block w) as [hist|]; [|done].
  cbn. destruct (location_of hist) as [l|]; [|done].
  cbn. rewrite Z.lxor_0_r.
  destruct (setitem bf l 1) as [bf1|]; [|done]. cbn. apply IH.
Qed.

End Encoders.

(** ** The loops over the block grid *)

Section Extract.

Lemma for_each_app {A S} (l1 l2 : list A) (body : A → S → option S) s :
  for_each (l1 ++ l2) body s = s' ← for_each l1 body s; for_each l2 body s'.
Proof.
  revert s. induction l1 as [|a l1 IH]; intros s; [done|].
  cbn. destruct (body a s) as [s1|]; [|done]. cbn. apply IH.
Qed.

Lemma for_each_ext {A S} (l : list A) (f g : A → S → option S) s :
  (∀ a s, f a s = g a s) → for_each l f s = for_each l g s.
Proof.
  intros Hfg. revert s. induction l as [|a l IH]; intros s; [done|].
  cbn. rewrite Hfg. destruct (g a s) as [s1|]; [|done]. cbn. apply IH.
Qed.

Lemma for_each_nested {A B S} (xs : list A) (ys : list B)
    (body : A → B → S → option S) s :
  for_each xs (λ x st, for_each ys (body x) st) s
  = for_each (x ← xs; y ← ys; [(x, y)]) (λ p st, body p.1 p.2 st) s.
Proof.
  revert s. induction xs as [|x xs IH]; intros s; [done|].
  cbn [for_each]. rewrite bind_cons, for_each_app.
  assert (∀ s, for_each ys (body x) s
               = for_each (y ← ys; [(x, y)]) (λ p st, body p.1 p.2 st) s)
    as ->.
  { clear. induction ys as [|y ys IHy]; intros s; [done|].
    cbn. destruct (body x y s) as [s1|]; [|done]. cbn. apply IHy. }
  destruct (for_each _ _ s) as [s1|]; [|done]. cbn. apply IH.
Qed.

Lemma splice_insert {A} i (x : A) xs l :
  i < length l → splice (i + 1) xs (<[i := x]> l) = splice i (x :: xs) l.
Proof.
  intros Hi. unfold splice. rewrite insert_take_drop by done.
  assert (length (take i l) = i) as Hti by (rewrite length_take; lia).
  rewrite take_app_ge, drop_app_ge by lia. rewrite Hti.
  replace (i + 1 - i) with 1 by lia.
  replace (i + 1 + length xs - i) with (S (length xs)) by lia.
  cbn [take drop length]. rewrite take_0, drop_drop.
  rewrite <- app_assoc. cbn [app].
  replace (S i + length xs) with (i + S (length xs)) by lia. done.
Qed.

Lemma splice_all {A} (xs l : list A) :
  length l = length xs → splice 0 xs l = xs.
Proof.
  intros Hl. unfold splice. rewrite take_0, drop_ge by (cbn; lia).
  cbn [app]. apply app_nil_r.
Qed.

Context (encode : matrix → option (list Z)) (feat : matrix).

Lemma block_step_eq p template index :
  Forall (λ r, length r = BF_SIZE) template →
  index < length template →
  block_step encode feat p (template, index)
  = bf ← block_row encode feat p; Some (<[index := bf]> template, index + 1).
Proof.
  intros Hrows Hlen. unfold block_step, block_row.
  destruct (encode _) as [bf|]; [|done].
  destruct (lookup_lt_is_Some_2 template index) as [old Hold]; [lia|].
  pose proof (Forall_lookup_1 _ _ _ _ Hrows Hold) as Hlo.
  unfold set_row. cbn [fst snd mbind option_bind]. rewrite Hold.
  cbn [mbind option_bind]. rewrite Hlo.
  destruct (decide (BF_SIZE = length bf)), (decide (length bf = BF_SIZE));
    done.
Qed.

Lemma extract_loop ps template index :
  Forall (λ r, length r = BF_SIZE) template →
  index + length ps ≤ length template →
  for_each ps (block_step encode feat) (template, index)
  = bfs ← mapM (block_row encode feat) ps;
    Some (splice index bfs template, index + length ps).
Proof.
  revert template index.
  induction ps as [|p ps IH]; intros template index Hrows Hlen.
  - cbn. unfold splice. cbn. rewrite Nat.add_0_r, take_drop. done.
  - cbn [length] in Hlen.
    change (for_each (p :: ps) ?f ?s) with (s' ← f p s; for_each ps f s').
    change (mapM ?f (p :: ps))
      with (y ← f p; k ← mapM f ps; Some (y :: k)).
    rewrite block_step_eq by (done || lia).
    destruct (block_row encode feat p) as [bf|] eqn:Hrow; [|done].
    cbn [mbind option_bind]. rewrite IH.
    + destruct (mapM (block_row encode feat) ps) as [bfs|]; [|done].
      cbn [mbind option_bind length].
      rewrite splice_insert by lia. do 2 f_equal. lia.
    + apply Forall_insert; [done|]. unfold block_row in Hrow.
      destruct (encode _); [|done]. cbn in Hrow. by case_decide; simplify_eq.
    + rewrite length_insert. lia.
Qed.

Lemma grid_length : length grid = N_BLOCKS.
Proof. reflexivity. Qed.

(** The template is the list of the blocks' Bloom vectors, in grid
    order; an exception in any block is an exception of the whole. *)
Lemma extract_with_rows :
  extract_with encode feat = mapM (block_row encode feat) grid.
Proof.
  unfold extract_with. rewrite for_each_nested.
  rewrite (for_each_ext _ _ (block_step encode feat))
    by (by intros [x y] [t i]).
  fold grid. rewrite extract_loop.
  - destruct (mapM (block_row encode feat) grid) as [bfs|] eqn:Hbfs;
      [|done]. cbn [mbind option_bind fst].
    f_equal. apply length_mapM in Hbfs. rewrite grid_length in Hbfs.
    apply splice_all. unfold zeros2. by rewrite length_replicate.
  - apply Forall_replicate. unfold zeros. by rewrite length_replicate.
  - unfold zeros2. rewrite length_replicate, grid_length. lia.
Qed.

End Extract.

Section Template.

Lemma grid_lookup x y :
  x < N_BF_X → y < N_BF_Y → grid !! (x * N_BF_Y + y) = Some (x, y).
Proof.
  intros Hx Hy.
  assert (Forall (λ x, Forall (λ y, grid !! (x * N_BF_Y + y) = Some (x, y))
                         (seq 0 N_BF_Y)) (seq 0 N_BF_X)) as H.
  { apply (bool_decide_unpack _). by vm_compute. }
  rewrite Forall_forall in H. specialize (H x).
  rewrite Forall_forall in H. apply H; apply elem_of_seq; lia.
Qed.

Lemma grid_bounds p : p ∈ grid → p.1 < N_BF_X ∧ p.2 < N_BF_Y.
Proof.
  assert (Forall (λ p, p.1 < N_BF_X ∧ p.2 < N_BF_Y) grid) as H.
  { apply (bool_decide_unpack _). by vm_compute. }
  rewrite Forall_forall in H. apply H.
Qed.

(** A loop keeps what each of its iterations keeps. *)
Lemma for_each_inv {A S} (P : S → Prop) (l : list A) body s s' :
  (∀ a s s', body a s = Some s' → P s → P s') →
  P s → for_each l body s = Some s' → P s'.
Proof.
  intros Hbody. revert s. induction l as [|a l IH]; intros s Hs H.
  - by simplify_eq/=.
  - cbn in H. destruct (body a s) as [s1|] eqn:Ha; [|done].
    cbn in H. eauto.
Qed.

Lemma setitem_bits bf l bf' :
  setitem bf l 1%Z = Some bf' →
  length bf = BF_SIZE ∧ Forall bit bf → length bf' = BF_SIZE ∧ Forall bit bf'.
Proof.
  unfold setitem. intros H [Hlen Hbits].
  destruct (index _ l) as [n|]; simplify_eq/=.
  split; [by rewrite length_insert|].
  apply Forall_insert; [done | by right].
Qed.

Lemma zeros_bits : length (zeros BF_SIZE) = BF_SIZE ∧ Forall bit (zeros BF_SIZE).
Proof.
  unfold zeros. split; [by rewrite length_replicate|].
  apply Forall_replicate. by left.
Qed.

(** Whatever the block and the keys, a Bloom vector that is returned has
    [BF_SIZE] entries, each 0 or 1. *)
Lemma encode_block_bits block bf :
  encode_block block = Some bf → length bf = BF_SIZE ∧ Forall bit bf.
Proof.
  unfold encode_block.
  apply (for_each_inv (λ bf, length bf = BF_SIZE ∧ Forall bit bf));
    [|apply zeros_bits].
  intros w s s' H Hs. destruct (column block w); simplify_eq/=.
  destruct (location_of _); simplify_eq/=. by eapply setitem_bits.
Qed.

Lemma encode_block_XOR_bits keys block bf :
  encode_block_XOR keys block = Some bf → length bf = BF_SIZE ∧ Forall bit bf.
Proof.
  unfold encode_block_XOR.
  apply (for_each_inv (λ bf, length bf = BF_SIZE ∧ Forall bit bf));
    [|apply zeros_bits].
  intros w s s' H Hs. destruct (column block w); simplify_eq/=.
  destruct (location_of _); simplify_eq/=.
  eapply (for_each_inv (λ bf, length bf = BF_SIZE ∧ Forall bit bf));
    [| exact Hs | exact H].
  intros k s1 s2 H1 Hs1. cbv beta in H1. by eapply setitem_bits.
Qed.

Lemma block_at_is_block feat x y :
  is_matrix (N_BF_Y * N_BITS_BF) (N_BF_X * N_WORDS_BF) feat →
  x < N_BF_X → y < N_BF_Y → is_block (block_at feat x y).
Proof.
  intros [Hlen Hrows] Hx Hy. unfold block_at, slice2, slice, is_block.
  change N_BF_X with 16 in *. change N_BF_Y with 2 in *.
  change N_BITS_BF with 10 in *. change N_WORDS_BF with 32 in *.
  split.
  - rewrite length_fmap, length_take, length_drop. lia.
  - apply Forall_fmap, Forall_take, Forall_drop.
    eapply Forall_impl; [done|]. intros row [Hr Hb]. cbn. split.
    + rewrite length_take, length_drop. lia.
    + by apply Forall_take, Forall_drop.
Qed.

Context (encode : matrix → option (list Z)) (feat : matrix).

Lemma extract_with_lookup t x y :
  extract_with encode feat = Some t → x < N_BF_X → y < N_BF_Y →
  ∃ bf, t !! (x * N_BF_Y + y) = Some bf
        ∧ encode (block_at feat x y) = Some bf ∧ length bf = BF_SIZE.
Proof.
  rewrite extract_with_rows. intros Ht Hx Hy.
  apply mapM_Some_1 in Ht.
  destruct (Forall2_lookup_l _ _ _ _ _ Ht (grid_lookup x y Hx Hy))
    as (bf & Hbf & Hrow).
  exists bf. split; [done|]. unfold block_row in Hrow. cbn in Hrow.
  destruct (encode _) as [bf'|]; [|done]. cbn in Hrow.
  case_decide; by simplify_eq.
Qed.

Lemma extract_with_length t :
  extract_with encode feat = Some t → length t = N_BLOCKS.
Proof.
  rewrite extract_with_rows. intros Ht. apply length_mapM in Ht.
  by rewrite <- Ht, grid_length.
Qed.

Lemma extract_with_rows_inv (P : list Z → Prop) t :
  extract_with encode feat = Some t →
  (∀ block bf, encode block = Some bf → P bf) →
  Forall (λ row, length row = BF_SIZE ∧ P row) t.
Proof.
  rewrite extract_with_rows. intros Ht HP. apply mapM_Some_1 in Ht.
  induction Ht as [|p bf ps t Hrow _ IH]; constructor; [|done].
  unfold block_row in Hrow. destruct (encode _) as [bf'|] eqn:He; [|done].
  cbn in Hrow. case_decide; simplify_eq. eauto.
Qed.

Lemma extract_with_total :
  (∀ x y, x < N_BF_X → y < N_BF_Y →
     ∃ bf, encode (block_at feat x y) = Some bf ∧ length bf = BF_SIZE) →
  is_Some (extract_with encode feat).
Proof.
  intros Henc. rewrite extract_with_rows. apply mapM_is_Some_2.
  apply Forall_forall. intros p Hp. apply grid_bounds in Hp as [Hx Hy].
  destruct (Henc _ _ Hx Hy) as (bf & Hbf & Hlen).
  exists bf. unfold block_row. rewrite Hbf. cbn. by rewrite decide_True.
Qed.

End Template.

Lemma extract_with_ext (f g : matrix → option (list Z)) feat :
  (∀ block, f block = g block) → extract_with f feat = extract_with g feat.
Proof.
  intros Hfg. rewrite !extract_with_rows. apply mapM_ext. intros p.
  unfold block_row. by rewrite Hfg.
Qed.

(** ** Matrices as four quadrants *)

Section Quad.

Context (h w : nat).

Lemma rect_lengths m : rect h w m → length <$> m = replicate h w.
Proof.
  intros [<- Hrows]. induction Hrows as [|r m Hr _ IH]; [done|].
  cbn. by rewrite Hr, IH.
Qed.

Lemma hcat_length A B : rect h w A → rect h w B → length (hcat A B) = h.
Proof.
  intros [HA _] [HB _]. unfold hcat. rewrite length_zip_with. lia.
Qed.

Lemma slice_hcat_l A B :
  rect h w A → rect h w B → slice 0 w <$> hcat A B = A.
Proof.
  intros [HA HAr] [HB _]. rewrite <- HB in HA. clear HB. unfold hcat.
  revert B HA. induction HAr as [|a A Ha _ IH]; intros [|b B] HB;
    cbn in *; try done.
  f_equal; [|apply IH; lia]. unfold slice.
  rewrite Nat.sub_0_r, drop_0. by apply take_app_length'.
Qed.

Lemma slice_hcat_r A B :
  rect h w A → rect h w B → slice w (w + w) <$> hcat A B = B.
Proof.
  intros [HA HAr] [HB HBr]. rewrite <- HB in HA. clear HB. unfold hcat.
  revert B HA HBr. induction HAr as [|a A Ha _ IH]; intros [|b B] HB HBr;
    cbn in *; try done.
  apply Forall_cons in HBr as [Hb HBr].
  f_equal; [|apply IH; [lia | done]]. unfold slice.
  replace (w + w - w) with w by lia.
  rewrite drop_app_length' by done. by apply take_ge; lia.
Qed.

Lemma splice_hcat_l V A B :
  rect h w V → rect h w A → rect h w B →
  zip_with (splice 0) V (hcat A B) = hcat V B.
Proof.
  intros [HV HVr] [HA HAr] [HB _]. rewrite <- HV in HA, HB. clear HV.
  unfold hcat. revert A B HA HAr HB.
  induction HVr as [|v V Hv _ IH]; intros [|a A] [|b B] HA HAr HB;
    cbn in *; try done.
  apply Forall_cons in HAr as [Ha HAr].
  f_equal; [|apply IH; [lia | done | lia]]. unfold splice.
  rewrite take_0, Hv, drop_app_length' by done. done.
Qed.

Lemma splice_hcat_r V A B :
  rect h w V → rect h w A → rect h w B →
  zip_with (splice w) V (hcat A B) = hcat A V.
Proof.
  intros [HV HVr] [HA HAr] [HB HBr]. rewrite <- HV in HA, HB. clear HV.
  unfold hcat. revert A B HA HAr HB HBr.
  induction HVr as [|v V Hv _ IH]; intros [|a A] [|b B] HA HAr HB HBr;
    cbn in *; try done.
  apply Forall_cons in HAr as [Ha HAr]. apply Forall_cons in HBr as [Hb HBr].
  f_equal; [|apply IH; [lia | done | lia | done]]. unfold splice.
  rewrite take_app_length' by done.
  rewrite drop_ge by (rewrite length_app; lia). by rewrite app_nil_r.
Qed.

Lemma hcat_rect_lengths A B :
  rect h w A → rect h w B → length <$> hcat A B = replicate h (w + w).
Proof.
  intros [HA HAr] [HB HBr]. rewrite <- HA in HB |- *. clear HA. unfold hcat.
  revert B HB HBr. induction HAr as [|a A Ha _ IH]; intros [|b B] HB HBr;
    cbn in *; try done.
  apply Forall_cons in HBr as [Hb HBr].
  rewrite length_app, Ha, Hb. f_equal. apply IH; [lia | done].
Qed.

Context (A B C D : matrix).
Context (HA : rect h w A) (HB : rect h w B).
Context (HC : rect h w C) (HD : rect h w D).

Lemma slice_top : slice 0 h (quad A B C D) = hcat A B.
Proof.
  unfold quad, slice. rewrite Nat.sub_0_r, drop_0.
  apply take_app_length'. by rewrite hcat_length.
Qed.

Lemma slice_bottom : slice h (h + h) (quad A B C D) = hcat C D.
Proof.
  unfold quad, slice. replace (h + h - h) with h by lia.
  rewrite drop_app_length' by (by rewrite hcat_length).
  apply take_ge. by rewrite hcat_length.
Qed.

Lemma slice2_quad_1 : slice2 0 h 0 w (quad A B C D) = A.
Proof. unfold slice2. rewrite slice_top. by apply slice_hcat_l. Qed.

Lemma slice2_quad_2 : slice2 0 h w (w + w) (quad A B C D) = B.
Proof. unfold slice2. rewrite slice_top. by apply slice_hcat_r. Qed.

Lemma slice2_quad_3 : slice2 h (h + h) 0 w (quad A B C D) = C.
Proof. unfold slice2. rewrite slice_bottom. by apply slice_hcat_l. Qed.

Lemma slice2_quad_4 : slice2 h (h + h) w (w + w) (quad A B C D) = D.
Proof. unfold slice2. rewrite slice_bottom. by apply slice_hcat_r. Qed.

Lemma quad_rect : rect (h + h) (w + w) (quad A B C D).
Proof.
  assert (∀ X Y, rect h w X → rect h w Y →
                 Forall (λ row, length row = w + w) (hcat X Y)) as Hrows.
  { intros X Y HX HY. pose proof (hcat_rect_lengths X Y HX HY) as Hl.
    apply Forall_forall. intros row Hrow.
    apply (list_elem_of_fmap_2 length) in Hrow. rewrite Hl in Hrow.
    by apply elem_of_replicate in Hrow as [? _]. }
  split.
  - unfold quad. rewrite length_app, !hcat_length; done.
  - unfold quad. apply Forall_app; split; by apply Hrows.
Qed.

Context (V : matrix) (HV : rect h w V).

Lemma splice_top X : length X = h → splice 0 X (quad A B C D) = X ++ hcat C D.
Proof.
  intros HX. unfold splice, quad. rewrite take_0, HX.
  rewrite drop_app_length' by (by rewrite hcat_length). done.
Qed.

Lemma splice_bottom X :
  length X = h → splice h X (quad A B C D) = hcat A B ++ X.
Proof.
  intros HX. unfold splice, quad.
  rewrite take_app_length' by (by rewrite hcat_length).
  rewrite drop_ge, app_nil_r; [done|].
  rewrite length_app, !hcat_length; done || lia.
Qed.

Lemma assign_quad_1 :
  assign_slice (quad A B C D) 0 h 0 w V = Some (quad V B C D).
Proof.
  unfold assign_slice.
  rewrite slice2_quad_1, !rect_lengths, decide_True by done.
  rewrite slice_top, splice_hcat_l by done.
  rewrite splice_top by (by rewrite hcat_length). done.
Qed.

Lemma assign_quad_2 :
  assign_slice (quad A B C D) 0 h w (w + w) V = Some (quad A V C D).
Proof.
  unfold assign_slice.
  rewrite slice2_quad_2, !rect_lengths, decide_True by done.
  rewrite slice_top, splice_hcat_r by done.
  rewrite splice_top by (by rewrite hcat_length). done.
Qed.

Lemma assign_quad_3 :
  assign_slice (quad A B C D) h (h + h) 0 w V = Some (quad A B V D).
Proof.
  unfold assign_slice.
  rewrite slice2_quad_3, !rect_lengths, decide_True by done.
  rewrite slice_bottom, splice_hcat_l by done.
  rewrite splice_bottom by (by rewrite hcat_length). done.
Qed.

Lemma assign_quad_4 :
  assign_slice (quad A B C D) h (h + h) w (w + w) V = Some (quad A B C V).
Proof.
  unfold assign_slice.
  rewrite slice2_quad_4, !rect_lengths, decide_True by done.
  rewrite slice_bottom, splice_hcat_r by done.
  rewrite splice_bottom by (by rewrite hcat_length). done.
Qed.

End Quad.

Section Quadrants.

Context (h w : nat).

(** A matrix of [h + h] rows and [w + w] columns is made of its four quadrants. *)
Lemma quad_of_slices m :
  rect (h + h) (w + w) m →
  m = quad (slice2 0 h 0 w m) (slice2 0 h w (w + w) m)
           (slice2 h (h + h) 0 w m) (slice2 h (h + h) w (w + w) m)
  ∧ rect h w (slice2 0 h 0 w m)
  ∧ rect h w (slice2 0 h w (w + w) m)
  ∧ rect h w (slice2 h (h + h) 0 w m)
  ∧ rect h w (slice2 h (h + h) w (w + w) m).
Proof.
  intros [Hlen Hrows].
  assert (∀ r0 r1 c0 c1, r1 - r0 = h → r1 ≤ h + h → c1 - c0 = w →
            c1 ≤ w + w → rect h w (slice2 r0 r1 c0 c1 m)) as Hrect.
  { intros r0 r1 c0 c1 Hr Hr1 Hc Hc1. unfold slice2, slice. split.
    - rewrite length_fmap, length_take, length_drop. lia.
    - apply Forall_fmap, Forall_take, Forall_drop.
      eapply Forall_impl; [done|]. intros row Hrow. cbv beta in Hrow. cbn.
      rewrite length_take, length_drop. lia. }
  split; [|split_and!; apply Hrect; lia].
  unfold quad, hcat, slice2, slice.
  rewrite !zip_with_fmap_l, !zip_with_fmap_r, !zip_with_diag.
  rewrite !Nat.sub_0_r, !drop_0.
  replace (h + h - h) with h by lia.
  replace (w + w - w) with w by lia.
  rewrite <- (take_drop h m) at 1. f_equal.
  - rewrite <- list_fmap_id at 1. apply Forall_fmap_ext_1.
    apply Forall_take. eapply Forall_impl; [done|]. intros row Hrow. cbv beta in Hrow. cbn.
    rewrite <- (take_drop w row) at 1. f_equal.
    symmetry. apply take_ge. rewrite length_drop. lia.
  - rewrite (take_ge (drop h m)) by (rewrite length_drop; lia).
    rewrite <- list_fmap_id at 1. apply Forall_fmap_ext_1.
    apply Forall_drop. eapply Forall_impl; [done|]. intros row Hrow. cbv beta in Hrow. cbn.
    rewrite <- (take_drop w row) at 1. f_equal.
    symmetry. apply take_ge. rewrite length_drop. lia.
Qed.

End Quadrants.

(** ** Reshaping and reordering rows *)

Section Reshape.

Lemma chunks_length {A} r c (l : list A) : length (chunks r c l) = r.
Proof. revert l. induction r as [|r IH]; intros l; cbn; [done|]. by rewrite IH. Qed.

Lemma chunks_rows {A} r c (l : list A) :
  length l = r * c → Forall (λ row, length row = c) (chunks r c l).
Proof.
  revert l. induction r as [|r IH]; intros l Hl; cbn; [done|].
  constructor.
  - rewrite length_take. lia.
  - apply IH. rewrite length_drop. lia.
Qed.

Lemma chunks_rect r c (l : list Z) : length l = r * c → rect r c (chunks r c l).
Proof. intros Hl. split; [apply chunks_length | by apply chunks_rows]. Qed.

Lemma concat_chunks {A} r c (l : list A) :
  length l = r * c → concat (chunks r c l) = l.
Proof.
  revert l. induction r as [|r IH]; intros l Hl; cbn.
  - by destruct l.
  - rewrite IH by (rewrite length_drop; lia). apply take_drop.
Qed.

Lemma chunks_concat r c (R : matrix) : rect r c R → chunks r c (concat R) = R.
Proof.
  intros [<- Hrows]. induction Hrows as [|row R Hrow _ IH]; cbn; [done|].
  rewrite take_app_length', drop_app_length' by done. by rewrite IH.
Qed.

Lemma concat_length_rect r c (R : matrix) :
  rect r c R → length (concat R) = r * c.
Proof.
  intros [<- Hrows]. induction Hrows as [|row R Hrow _ IH]; cbn; [done|].
  rewrite length_app. lia.
Qed.

Lemma reshape_rect r c r' c' (R : matrix) :
  rect r c R → r * c = r' * c' →
  reshape R r' c' = Some (chunks r' c' (concat R)).
Proof.
  intros HR Heq. unfold reshape.
  rewrite decide_True; [done|]. by rewrite (concat_length_rect r c).
Qed.

Lemma reshape_Some m r c v :
  reshape m r c = Some v → rect r c v ∧ concat v = concat m.
Proof.
  unfold reshape. case_decide; intros; simplify_eq.
  split; [by apply chunks_rect | by apply concat_chunks].
Qed.

Lemma take_rows_length R k rows :
  take_rows R k = Some rows → length rows = length k.
Proof. intros H. by apply length_mapM in H. Qed.

Lemma take_rows_lookup R k rows p i :
  take_rows R k = Some rows → k !! p = Some i →
  ∃ n, index (length R) i = Some n ∧ rows !! p = R !! n ∧ is_Some (R !! n).
Proof.
  intros H Hp. apply mapM_Some_1 in H.
  destruct (Forall2_lookup_l _ _ _ _ _ H Hp) as (row & Hrow & Hi).
  destruct (index (length R) i) as [n|]; [|done].
  exists n. cbn in Hi. rewrite Hrow, Hi. eauto.
Qed.

Lemma take_rows_rows c R k rows :
  Forall (λ row, length row = c) R → take_rows R k = Some rows →
  Forall (λ row, length row = c) rows.
Proof.
  intros HR H. apply Forall_lookup. intros p row Hrow.
  destruct (lookup_lt_is_Some_2 k p) as [i Hi].
  { rewrite <- (take_rows_length _ _ _ H). by eapply lookup_lt_Some. }
  destruct (take_rows_lookup _ _ _ _ _ H Hi) as (n & _ & Heq & _).
  rewrite Hrow in Heq. symmetry in Heq.
  exact (Forall_lookup_1 _ _ _ _ HR Heq).
Qed.

Lemma take_rows_total R k :
  Forall (λ i, 0 ≤ i < Z.of_nat (length R))%Z k → is_Some (take_rows R k).
Proof.
  intros Hk. apply mapM_is_Some_2. eapply Forall_impl; [done|].
  intros i Hi. cbv beta in Hi. cbn. rewrite index_in_range by done. cbn.
  apply lookup_lt_is_Some_2. lia.
Qed.

Lemma take_rows_replicate n (row : list Z) k :
  Forall (λ i, 0 ≤ i < Z.of_nat n)%Z k →
  take_rows (replicate n row) k = Some (replicate (length k) row).
Proof.
  intros Hk. apply mapM_Some_2.
  induction Hk as [|i k Hi _ IH]; cbn [length replicate]; constructor;
    [|done].
  rewrite length_replicate, index_in_range by done. cbn.
  apply lookup_replicate_2. lia.
Qed.

End Reshape.

(** ** Permutations and their inverses *)

Section Perm.

Context (n : nat) (k : list Z) (Hk : is_perm n k).

Lemma is_perm_elem j : j < n → Z.of_nat j ∈ k.
Proof.
  destruct Hk as (Hlen & Hnd & Hr). intros Hj.
  assert (k ≡ₚ Z.of_nat <$> seq 0 n) as ->.
  { apply submseteq_length_Permutation.
    - apply NoDup_submseteq; [done|]. intros x Hx.
      rewrite Forall_forall in Hr. specialize (Hr x Hx).
      apply list_elem_of_fmap. exists (Z.to_nat x).
      split; [lia | apply elem_of_seq; lia].
    - rewrite length_fmap, length_seq. lia. }
  apply list_elem_of_fmap. exists j. split; [done | apply elem_of_seq; lia].
Qed.

Lemma inverse_perm_length : length (inverse_perm k) = n.
Proof.
  unfold inverse_perm. rewrite length_fmap, length_seq. apply Hk.
Qed.

(** Position [j] of the inverse holds a place [p] where [k] holds [j]. *)
Lemma inverse_perm_lookup j :
  j < n →
  ∃ p, inverse_perm k !! j = Some (Z.of_nat p)
       ∧ k !! p = Some (Z.of_nat j) ∧ p < n.
Proof.
  intros Hj. unfold inverse_perm.
  destruct (list_find_elem_of (λ i, i = Z.of_nat j) k (Z.of_nat j))
    as [[p x] Hfind]; [by apply is_perm_elem | done |].
  exists p. rewrite list_lookup_fmap, lookup_seq_lt by (destruct Hk; lia).
  cbn. rewrite Hfind. apply list_find_Some in Hfind as (Hp & -> & _).
  split_and!; [done..|]. apply lookup_lt_Some in Hp. destruct Hk; lia.
Qed.

(** Reordering rows by [k], then by the inverse of [k], restores them. *)
Lemma take_rows_inverse (R R1 : matrix) :
  length R = n → take_rows R k = Some R1 →
  take_rows R1 (inverse_perm k) = Some R.
Proof.
  intros HR H1. apply mapM_Some_2, Forall2_same_length_lookup_2.
  { rewrite inverse_perm_length. lia. }
  intros j i row Hi Hrow.
  assert (j < n) as Hj by (apply lookup_lt_Some in Hrow; lia).
  destruct (inverse_perm_lookup j Hj) as (p & Hp & Hkp & Hpn).
  rewrite Hp in Hi. injection Hi as <-.
  rewrite (take_rows_length _ _ _ H1).
  rewrite index_in_range by (destruct Hk; lia). cbn.
  rewrite Nat2Z.id.
  destruct (take_rows_lookup _ _ _ _ _ H1 Hkp) as (m & Hm & -> & _).
  rewrite index_in_range in Hm by lia. injection Hm as <-.
  by rewrite Nat2Z.id.
Qed.

End Perm.

(** ** The permutation of one quadrant, and of the four *)

Section Unlinkability.

(** The shape of a quadrant and of its row groups. *)
Local Abbreviation qh := N_BITS_BF (only parsing).
Local Abbreviation qw := (N_BF_X / 2 * N_WORDS_BF) (only parsing).
Local Abbreviation groups := (N_BITS_BF * N_BF_X / 2) (only parsing).

Lemma region_sizes : qh * qw = groups * N_WORDS_BF.
Proof. reflexivity. Qed.

Lemma region_perm_rect k Q Q' : region_perm k Q = Some Q' → rect qh qw Q'.
Proof.
  unfold region_perm. intros H.
  destruct (reshape Q _ _) as [aux|]; [|done]. cbn in H.
  destruct (take_rows aux k) as [rows|]; [|done]. cbn in H.
  by apply reshape_Some in H as [? _].
Qed.

Lemma region_perm_total k Q :
  rect qh qw Q → is_perm groups k → is_Some (region_perm k Q).
Proof.
  intros HQ (Hlen & _ & Hr). unfold region_perm.
  rewrite (reshape_rect qh qw) by done. cbn [mbind option_bind].
  destruct (take_rows_total (chunks groups N_WORDS_BF (concat Q)) k)
    as [rows Hrows].
  { by rewrite chunks_length. }
  rewrite Hrows. cbn [mbind option_bind].
  rewrite (reshape_rect groups N_WORDS_BF); [done| |done].
  split.
  - by rewrite (take_rows_length _ _ _ Hrows).
  - eapply take_rows_rows; [|done]. apply chunks_rows.
    by rewrite (concat_length_rect qh qw).
Qed.

(** Permuting a quadrant with a key row and then with the inverse of
    that row restores the quadrant. *)
Lemma region_perm_inverse k Q Q' :
  rect qh qw Q → is_perm groups k →
  region_perm k Q = Some Q' → region_perm (inverse_perm k) Q' = Some Q.
Proof.
  intros HQ Hk H. pose proof (region_perm_rect _ _ _ H) as HQ'.
  unfold region_perm in *.
  rewrite (reshape_rect qh qw) in H by done. cbn [mbind option_bind] in H.
  rewrite (reshape_rect qh qw) by done. cbn [mbind option_bind].
  destruct (take_rows _ k) as [rows|] eqn:Hrows; [|done].
  cbn [mbind option_bind] in H.
  assert (rect groups N_WORDS_BF rows) as Hrect.
  { split.
    - rewrite (take_rows_length _ _ _ Hrows). apply Hk.
    - eapply take_rows_rows; [|done]. apply chunks_rows.
      by rewrite (concat_length_rect qh qw). }
  apply reshape_Some in H as [_ Hcat].
  rewrite Hcat, chunks_concat by done.
  rewrite (take_rows_inverse groups k Hk
             (chunks groups N_WORDS_BF (concat Q)) rows);
    [|by rewrite chunks_length|done].
  cbn [mbind option_bind].
  assert (length (concat Q) = groups * N_WORDS_BF) as Hlen
    by (by rewrite (concat_length_rect qh qw)).
  rewrite (reshape_rect groups N_WORDS_BF qh qw);
    [|by apply chunks_rect | reflexivity].
  rewrite concat_chunks by done. by rewrite chunks_concat.
Qed.

(** The all-zero quadrant is left as it is by any key row of valid
    indices. *)
Lemma region_perm_zeros k :
  length k = groups → Forall (λ i, 0 ≤ i < Z.of_nat groups)%Z k →
  region_perm k (zeros2 qh qw) = Some (zeros2 qh qw).
Proof.
  intros Hlen Hk. unfold region_perm.
  assert (reshape (zeros2 qh qw) groups N_WORDS_BF
          = Some (replicate groups (zeros N_WORDS_BF))) as ->
    by (vm_compute; reflexivity).
  cbn [mbind option_bind]. rewrite take_rows_replicate by done.
  cbn [mbind option_bind]. rewrite Hlen. vm_compute. reflexivity.
Qed.

Lemma permute_region_eq P aux Q K j k r0 r1 c0 c1 :
  K !! j = Some k → reshape Q groups N_WORDS_BF = Some aux →
  permute_region P aux K j r0 r1 c0 c1
  = v ← region_perm k Q; assign_slice P r0 r1 c0 c1 v.
Proof.
  intros HK Haux. unfold permute_region, region_perm.
  rewrite HK, Haux. cbn [mbind option_bind].
  destruct (take_rows aux k) as [rows|]; [|done]. done.
Qed.

Lemma zeros2_quad :
  zeros2 20 512 = quad (zeros2 qh qw) (zeros2 qh qw) (zeros2 qh qw) (zeros2 qh qw).
Proof. vm_compute. reflexivity. Qed.

Lemma zeros2_rect : rect qh qw (zeros2 qh qw).
Proof. apply (bool_decide_unpack _). vm_compute. exact I. Qed.

(** [add_unlinkability] on a matrix given by its four quadrants: the
    quadrants are permuted one by one, with the key rows 0, 2, 2 and
    3. *)
Lemma add_unlinkability_quad feat A B C D K k0 k2 k3 :
  nrows feat = 20 → ncols feat = 512 →
  rect qh qw A → rect qh qw B → rect qh qw C → rect qh qw D →
  K !! 0 = Some k0 → K !! 2 = Some k2 → K !! 3 = Some k3 →
  add_unlinkability feat (quad A B C D) K
  = a ← region_perm k0 A; b ← region_perm k2 B;
    c ← region_perm k2 C; d ← region_perm k3 D;
    Some (quad a b c d).
Proof.
  intros Hr Hc HA HB HC HD H0 H2 H3. unfold add_unlinkability.
  rewrite Hr, Hc, zeros2_quad.
  change (N_BF_X * N_WORDS_BF) with (qw + qw).
  change (2 * N_BITS_BF) with (qh + qh).
  rewrite (slice2_quad_1 qh qw), (slice2_quad_2 qh qw),
    (slice2_quad_3 qh qw), (slice2_quad_4 qh qw) by done.
  rewrite !(reshape_rect qh qw) by done. cbn [mbind option_bind].
  rewrite (permute_region_eq _ _ A K 0 k0)
    by (done || by apply (reshape_rect qh qw)).
  destruct (region_perm k0 A) as [a|] eqn:Ha; [|done].
  cbn [mbind option_bind].
  rewrite (assign_quad_1 qh qw)
    by (apply zeros2_rect || by eapply region_perm_rect).
  cbn [mbind option_bind].
  rewrite (permute_region_eq _ _ B K 2 k2)
    by (done || by apply (reshape_rect qh qw)).
  destruct (region_perm k2 B) as [b|] eqn:Hb; [|done].
  cbn [mbind option_bind].
  rewrite (assign_quad_2 qh qw)
    by (apply zeros2_rect || by eapply region_perm_rect).
  cbn [mbind option_bind].
  rewrite (permute_region_eq _ _ C K 2 k2)
    by (done || by apply (reshape_rect qh qw)).
  destruct (region_perm k2 C) as [c|] eqn:Hc'; [|done].
  cbn [mbind option_bind].
  rewrite (assign_quad_3 qh qw)
    by (apply zeros2_rect || by eapply region_perm_rect).
  cbn [mbind option_bind].
  rewrite (permute_region_eq _ _ D K 3 k3)
    by (done || by apply (reshape_rect qh qw)).
  destruct (region_perm k3 D) as [d|] eqn:Hd; [|done].
  cbn [mbind option_bind].
  rewrite (assign_quad_4 qh qw)
    by (apply zeros2_rect || by eapply region_perm_rect).
  done.
Qed.

End Unlinkability.

(** ** The permutation and its inverse *)

Lemma valid_key_rows K :
  valid_key K →
  ∃ k0 k1 k2 k3, K = [k0; k1; k2; k3]
    ∧ is_perm (N_BITS_BF * N_BF_X / 2) k0 ∧ is_perm (N_BITS_BF * N_BF_X / 2) k1
    ∧ is_perm (N_BITS_BF * N_BF_X / 2) k2 ∧ is_perm (N_BITS_BF * N_BF_X / 2) k3.
Proof.
  intros [Hlen Hrows].
  destruct K as [|k0 [|k1 [|k2 [|k3 [|? ?]]]]]; try done.
  apply Forall_cons in Hrows as [? Hrows]. apply Forall_cons in Hrows as [? Hrows].
  apply Forall_cons in Hrows as [? Hrows]. apply Forall_cons in Hrows as [? _].
  by exists k0, k1, k2, k3.
Qed.

Lemma quad_split features :
  rect 20 512 features →
  ∃ A B C D, features = quad A B C D
    ∧ rect N_BITS_BF (N_BF_X / 2 * N_WORDS_BF) A
    ∧ rect N_BITS_BF (N_BF_X / 2 * N_WORDS_BF) B
    ∧ rect N_BITS_BF (N_BF_X / 2 * N_WORDS_BF) C
    ∧ rect N_BITS_BF (N_BF_X / 2 * N_WORDS_BF) D.
Proof.
  intros Hf.
  destruct (quad_of_slices N_BITS_BF (N_BF_X / 2 * N_WORDS_BF) features Hf)
    as (Hq & HA & HB & HC & HD).
  eexists _, _, _, _. split; [exact Hq|]. done.
Qed.

Lemma unlinkability_inverse_aux feat features K :
  nrows feat = 20 → ncols feat = 512 → rect 20 512 features → valid_key K →
  ∃ m, add_unlinkability feat features K = Some m
       ∧ rect 20 512 m
       ∧ add_unlinkability feat m (inverse_key K) = Some features.
Proof.
  intros Hr Hc Hf HK.
  destruct (valid_key_rows K HK) as (k0 & k1 & k2 & k3 & -> & H0 & _ & H2 & H3).
  destruct (quad_split features Hf) as (A & B & C & D & -> & HA & HB & HC & HD).
  rewrite (add_unlinkability_quad feat A B C D _ k0 k2 k3) by done.
  destruct (region_perm_total k0 A HA H0) as [a Ha].
  destruct (region_perm_total k2 B HB H2) as [b Hb].
  destruct (region_perm_total k2 C HC H2) as [c Hc'].
  destruct (region_perm_total k3 D HD H3) as [d Hd].
  rewrite Ha, Hb, Hc', Hd. cbn [mbind option_bind].
  exists (quad a b c d). split; [done|].
  pose proof (region_perm_rect _ _ _ Ha). pose proof (region_perm_rect _ _ _ Hb).
  pose proof (region_perm_rect _ _ _ Hc'). pose proof (region_perm_rect _ _ _ Hd).
  split; [by apply (quad_rect N_BITS_BF (N_BF_X / 2 * N_WORDS_BF))|].
  rewrite (add_unlinkability_quad feat a b c d _
             (inverse_perm k0) (inverse_perm k2) (inverse_perm k3)) by done.
  rewrite (region_perm_inverse k0 A a), (region_perm_inverse k2 B b),
    (region_perm_inverse k2 C c), (region_perm_inverse k3 D d) by done.
  done.
Qed.

(** ** Rows and columns beyond the region the script works on *)

Lemma slice_app_l {A} r0 r1 (l k : list A) :
  r1 ≤ length l → slice r0 r1 (l ++ k) = slice r0 r1 l.
Proof.
  intros Hr. unfold slice. rewrite drop_app, take_app_le; [done|].
  rewrite length_drop. lia.
Qed.

Lemma slice_hcat r0 r1 A B :
  slice r0 r1 (hcat A B) = hcat (slice r0 r1 A) (slice r0 r1 B).
Proof. unfold slice, hcat. by rewrite zip_with_drop, zip_with_take. Qed.

Lemma fmap_slice_hcat c0 c1 A B :
  Forall (λ row : list Z, c1 ≤ length row) A → length A = length B →
  slice c0 c1 <$> hcat A B = slice c0 c1 <$> A.
Proof.
  intros HA. revert B. induction HA as [|a A Ha _ IH]; intros [|b B] Hl;
    try done.
  cbn in Hl. cbn. f_equal; [|apply IH; lia].
  by apply slice_app_l.
Qed.

Lemma fmap_eq_Forall2 {A B C} (f : A → C) (g : B → C) l k :
  f <$> l = g <$> k → Forall2 (λ x y, f x = g y) l k.
Proof.
  revert k. induction l as [|x l IH]; intros [|y k] H; try done.
  injection H as Hx Hl. constructor; auto.
Qed.

Lemma hcat_app A1 A2 B1 B2 :
  length A1 = length B1 → hcat (A1 ++ A2) (B1 ++ B2) = hcat A1 B1 ++ hcat A2 B2.
Proof. intros. unfold hcat. by apply zip_with_app. Qed.

Section Frame.

Context (H W : nat) (m E Zr : matrix).
Context (Hm : rect H W m) (HE : length E = H).

Lemma hcat_frame_length : length (hcat m E) = H.
Proof. destruct Hm as [Hl _]. unfold hcat. rewrite length_zip_with. lia. Qed.

Lemma slice2_frame r0 r1 c0 c1 :
  r1 ≤ H → c1 ≤ W →
  slice2 r0 r1 c0 c1 (hcat m E ++ Zr) = slice2 r0 r1 c0 c1 m.
Proof.
  intros Hr Hc. unfold slice2.
  rewrite slice_app_l by (by rewrite hcat_frame_length).
  rewrite slice_hcat. destruct Hm as [Hl Hrows]. apply fmap_slice_hcat.
  - unfold slice. apply Forall_take, Forall_drop.
    eapply Forall_impl; [exact Hrows|]. intros row Hrow. cbv beta in Hrow. lia.
  - unfold slice. rewrite !length_take, !length_drop. lia.
Qed.

Lemma splice_row_frame c0 (vr ar er : list Z) :
  c0 + length vr ≤ length ar →
  splice c0 vr (ar ++ er) = splice c0 vr ar ++ er.
Proof.
  intros Hl. unfold splice.
  rewrite take_app_le, drop_app_le by lia. by rewrite <- !app_assoc.
Qed.

Lemma zip_splice_hcat c0 (v A B : matrix) :
  Forall2 (λ ar vr : list Z, c0 + length vr ≤ length ar) A v →
  length A = length B →
  zip_with (splice c0) v (hcat A B) = hcat (zip_with (splice c0) v A) B.
Proof.
  intros Hv. revert B. induction Hv as [|ar vr A v Hr _ IH]; intros [|er B] Hl;
    try done.
  cbn in Hl. cbn. f_equal; [by apply splice_row_frame|]. apply IH. lia.
Qed.

Lemma assign_shape r0 r1 c0 c1 (v : matrix) :
  r0 ≤ r1 → r1 ≤ H → c0 ≤ c1 → c1 ≤ W →
  length <$> slice2 r0 r1 c0 c1 m = length <$> v →
  length v = r1 - r0
  ∧ Forall2 (λ ar vr : list Z, length ar = W ∧ length vr = c1 - c0)
      (slice r0 r1 m) v.
Proof.
  clear HE. intros Hr0 Hr1 Hc0 Hc1 Hs. destruct Hm as [Hl Hrows]. split.
  - apply (f_equal length) in Hs. rewrite !length_fmap in Hs.
    rewrite <- Hs. unfold slice2, slice.
    rewrite length_fmap, length_take, length_drop. lia.
  - unfold slice2 in Hs. rewrite <- list_fmap_compose in Hs.
    apply fmap_eq_Forall2 in Hs.
    assert (Forall (λ row, length row = W) (slice r0 r1 m)) as Hsl
      by (unfold slice; by apply Forall_take, Forall_drop).
    revert Hsl. induction Hs as [|ar vr A v' Hr _ IH]; intros Hsl; [done|].
    apply Forall_cons in Hsl as [Ha Hsl]. constructor; [|by apply IH].
    split; [done|]. cbn in Hr. rewrite <- Hr. unfold slice.
    rewrite length_take, length_drop. lia.
Qed.

(** A slice assignment inside the region keeps the shape of the array. *)
Lemma assign_slice_rect r0 r1 c0 c1 v m' :
  r0 ≤ r1 → r1 ≤ H → c0 ≤ c1 → c1 ≤ W →
  assign_slice m r0 r1 c0 c1 v = Some m' → rect H W m'.
Proof.
  clear HE. intros Hr0 Hr1 Hc0 Hc1. unfold assign_slice. case_decide as Hs; [|done].
  intros [= <-].
  destruct (assign_shape r0 r1 c0 c1 v Hr0 Hr1 Hc0 Hc1 Hs) as [Hv Hrows].
  destruct Hm as [Hl Hmrows].
  assert (length (zip_with (splice c0) v (slice r0 r1 m)) = r1 - r0) as HX.
  { rewrite length_zip_with. unfold slice.
    rewrite length_take, length_drop. lia. }
  split.
  - unfold splice at 1. rewrite !length_app, length_take, length_drop, HX. lia.
  - unfold splice at 1. rewrite !Forall_app. split; [by apply Forall_take|].
    split; [|by apply Forall_drop].
    clear HX Hv Hs. induction Hrows as [|ar vr A v' [Ha Hvr] _ IH]; [done|].
    cbn. constructor; [|done].
    unfold splice. rewrite !length_app, length_take, length_drop. lia.
Qed.

(** A slice assignment inside the region leaves what lies outside the
    region as it is. *)
Lemma assign_slice_frame r0 r1 c0 c1 v :
  r0 ≤ r1 → r1 ≤ H → c0 ≤ c1 → c1 ≤ W →
  assign_slice (hcat m E ++ Zr) r0 r1 c0 c1 v
  = m' ← assign_slice m r0 r1 c0 c1 v; Some (hcat m' E ++ Zr).
Proof.
  intros Hr0 Hr1 Hc0 Hc1. unfold assign_slice.
  rewrite slice2_frame by done. case_decide as Hs; [|done].
  cbn [mbind option_bind]. f_equal.
  destruct (assign_shape r0 r1 c0 c1 v Hr0 Hr1 Hc0 Hc1 Hs) as [Hv Hrows].
  destruct Hm as [Hl Hmrows].
  rewrite slice_app_l by (by rewrite hcat_frame_length).
  rewrite slice_hcat, zip_splice_hcat.
  2:{ eapply Forall2_impl; [exact Hrows|]. intros ar vr [Ha Hvr]. lia. }
  2:{ unfold slice. rewrite !length_take, !length_drop. lia. }
  set (X := zip_with (splice c0) v (slice r0 r1 m)).
  assert (length X = r1 - r0) as HX.
  { unfold X. rewrite length_zip_with. unfold slice.
    rewrite length_take, length_drop. lia. }
  assert (length (slice r0 r1 E) = r1 - r0) as HE1.
  { unfold slice. rewrite length_take, length_drop. lia. }
  assert (E = take r0 E ++ slice r0 r1 E ++ drop r1 E) as HEs.
  { unfold slice. rewrite app_assoc, take_take_drop.
    replace (r0 + (r1 - r0)) with r1 by lia. by rewrite take_drop. }
  unfold splice at 1.
  assert (length (hcat X (slice r0 r1 E)) = r1 - r0) as HXE.
  { unfold hcat. rewrite length_zip_with. lia. }
  rewrite HXE. replace (r0 + (r1 - r0)) with r1 by lia.
  rewrite take_app_le, drop_app_le by (rewrite hcat_frame_length; lia).
  unfold splice. rewrite HX. replace (r0 + (r1 - r0)) with r1 by lia.
  transitivity (hcat (take r0 m ++ X ++ drop r1 m)
                  (take r0 E ++ slice r0 r1 E ++ drop r1 E) ++ Zr);
    [|by rewrite <- HEs].
  rewrite !hcat_app.
  - unfold hcat. rewrite zip_with_take, zip_with_drop.
    by rewrite <- !app_assoc.
  - lia.
  - rewrite !length_take. lia.
Qed.

End Frame.

(** ** Arrays larger than the reference shape *)

Local Ltac closed_le := apply Nat.leb_le; vm_compute; reflexivity.

Lemma zeros2_is_rect r c : rect r c (zeros2 r c).
Proof.
  split; [apply length_replicate|]. apply Forall_replicate, length_replicate.
Qed.

Lemma zeros2_frame H W n' e :
  zeros2 (H + n') (W + e) = hcat (zeros2 H W) (zeros2 H e) ++ zeros2 n' (W + e).
Proof.
  unfold zeros2, zeros, hcat.
  rewrite zip_with_replicate, <- !replicate_add. done.
Qed.

Lemma mapM_ext_Forall {A B} (f g : A → option B) l :
  Forall (λ x, f x = g x) l → mapM f l = mapM g l.
Proof. induction 1 as [|x l Hx _ IH]; [done|]. cbn. by rewrite Hx, IH. Qed.

Section Pad.

Context (H W : nat) (P E Zr : matrix).
Context (HP : rect H W P) (HE : length E = H).

Lemma permute_region_frame aux K j r0 r1 c0 c1 :
  r0 ≤ r1 → r1 ≤ H → c0 ≤ c1 → c1 ≤ W →
  permute_region (hcat P E ++ Zr) aux K j r0 r1 c0 c1
  = P' ← permute_region P aux K j r0 r1 c0 c1; Some (hcat P' E ++ Zr).
Proof.
  intros. unfold permute_region.
  destruct (K !! j) as [key_j|]; [|done]. cbn [mbind option_bind].
  destruct (take_rows aux key_j) as [rows|]; [|done]. cbn [mbind option_bind].
  destruct (reshape rows _ _) as [v|]; [|done]. cbn [mbind option_bind].
  by apply (assign_slice_frame H W).
Qed.

Lemma permute_region_keeps_rect aux K j r0 r1 c0 c1 P' :
  r0 ≤ r1 → r1 ≤ H → c0 ≤ c1 → c1 ≤ W →
  permute_region P aux K j r0 r1 c0 c1 = Some P' → rect H W P'.
Proof.
  intros ? ? ? ?. unfold permute_region.
  destruct (K !! j) as [key_j|]; [|done]. cbn [mbind option_bind].
  destruct (take_rows aux key_j) as [rows|]; [|done]. cbn [mbind option_bind].
  destruct (reshape rows _ _) as [v|]; [|done]. cbn [mbind option_bind].
  by apply (assign_slice_rect H W).
Qed.

End Pad.

(** The encoders read the first 20 rows and 512 columns only. *)
Lemma extract_with_frame encode F E Zr :
  rect 20 512 F → length E = 20 →
  extract_with encode (hcat F E ++ Zr) = extract_with encode F.
Proof.
  intros HF HE. rewrite !extract_with_rows. apply mapM_ext_Forall.
  apply Forall_forall. intros [x y] Hp. apply grid_bounds in Hp as [Hx Hy].
  cbn in Hx, Hy. unfold block_row, block_at. cbn [fst snd].
  rewrite (slice2_frame 20 512); [done..| |].
  - change N_BF_Y with 2 in Hy. change N_BITS_BF with 10. lia.
  - change N_BF_X with 16 in Hx. change N_WORDS_BF with 32. lia.
Qed.

(** [add_unlinkability] on an array of at least 20 rows and 512 columns:
    the first 20 rows and 512 columns are permuted as for an array of the
    reference shape, and the rest of the result is zero. *)
Lemma add_unlinkability_frame feat F E Zr K n' e :
  nrows feat = 20 + n' → ncols feat = 512 + e →
  rect 20 512 F → length E = 20 →
  add_unlinkability feat (hcat F E ++ Zr) K
  = m ← add_unlinkability (zeros2 20 512) F K;
    Some (hcat m (zeros2 20 e) ++ zeros2 n' (512 + e)).
Proof.
  intros Hr Hc HF HE. unfold add_unlinkability.
  rewrite Hr, Hc, zeros2_frame.
  change (nrows (zeros2 20 512)) with 20.
  change (ncols (zeros2 20 512)) with 512.
  rewrite !(slice2_frame 20 512) by (done || closed_le).
  destruct (reshape (slice2 0 _ 0 _ F) _ _) as [aux1|]; [|done].
  cbn [mbind option_bind].
  destruct (reshape (slice2 0 _ _ _ F) _ _) as [aux2|]; [|done].
  cbn [mbind option_bind].
  destruct (reshape (slice2 _ _ 0 _ F) _ _) as [aux3|]; [|done].
  cbn [mbind option_bind].
  destruct (reshape (slice2 _ _ _ _ F) _ _) as [aux4|]; [|done].
  cbn [mbind option_bind].
  pose proof (zeros2_is_rect 20 512) as H0.
  pose proof (length_replicate 20 (zeros e)) as HZ.
  change (replicate 20 (zeros e)) with (zeros2 20 e) in HZ.
  rewrite (permute_region_frame 20 512) by (done || closed_le).
  destruct (permute_region (zeros2 20 512) _ K 0 _ _ _ _) as [P1|] eqn:H1;
    [|done]. cbn [mbind option_bind].
  apply (permute_region_keeps_rect 20 512) in H1; [|done|closed_le..].
  rewrite (permute_region_frame 20 512) by (done || closed_le).
  destruct (permute_region P1 _ K 2 _ _ _ _) as [P2|] eqn:H2;
    [|done]. cbn [mbind option_bind].
  apply (permute_region_keeps_rect 20 512) in H2; [|done|closed_le..].
  rewrite (permute_region_frame 20 512) by (done || closed_le).
  destruct (permute_region P2 _ K 2 _ _ _ _) as [P3|] eqn:H3;
    [|done]. cbn [mbind option_bind].
  apply (permute_region_keeps_rect 20 512) in H3; [|done|closed_le..].
  rewrite (permute_region_frame 20 512) by (done || closed_le).
  destruct (permute_region P3 _ K 3 _ _ _ _) as [P4|] eqn:H4; done.
Qed.

(** ** What the encoders and the permutation do to the entries *)

Section Entries.

Context (P : Z → Prop).

Lemma chunks_Forall r c (l : list Z) :
  Forall P l → Forall (Forall P) (chunks r c l).
Proof.
  revert l. induction r as [|r IH]; intros l Hl; cbn; [done|].
  constructor; [by apply Forall_take|]. by apply IH, Forall_drop.
Qed.

Lemma reshape_Forall m r c m' :
  reshape m r c = Some m' → Forall (Forall P) m → Forall (Forall P) m'.
Proof.
  unfold reshape. case_decide; [|done]. intros [= <-] Hm.
  by apply chunks_Forall, Forall_concat.
Qed.

Lemma take_rows_Forall (Q : list Z → Prop) m idx rows :
  take_rows m idx = Some rows → Forall Q m → Forall Q rows.
Proof.
  unfold take_rows. intros H Hm. apply mapM_Some_1 in H.
  induction H as [|i row idx rows Hrow _ IH]; constructor; [|done].
  destruct (index (length m) i) as [n|]; [|done]. cbn in Hrow.
  exact (Forall_lookup_1 _ _ _ _ Hm Hrow).
Qed.

Lemma region_perm_Forall k Q Q' :
  region_perm k Q = Some Q' → Forall (Forall P) Q → Forall (Forall P) Q'.
Proof.
  unfold region_perm. intros H HQ.
  destruct (reshape Q _ _) as [aux|] eqn:Haux; [|done].
  cbn [mbind option_bind] in H.
  destruct (take_rows aux k) as [rows|] eqn:Hrows; [|done].
  cbn [mbind option_bind] in H.
  eapply reshape_Forall; [exact H|].
  eapply take_rows_Forall; [exact Hrows|].
  by eapply reshape_Forall.
Qed.

Lemma hcat_Forall A B :
  length A = length B →
  Forall (Forall P) (hcat A B) ↔ Forall (Forall P) A ∧ Forall (Forall P) B.
Proof.
  revert B. induction A as [|a A IH]; intros [|b B] Hl; try done.
  cbn in Hl. unfold hcat. cbn. fold (hcat A B).
  rewrite !Forall_cons, Forall_app, IH by lia. tauto.
Qed.

Lemma quad_Forall h w A B C D :
  rect h w A → rect h w B → rect h w C → rect h w D →
  Forall (Forall P) (quad A B C D)
  ↔ Forall (Forall P) A ∧ Forall (Forall P) B
    ∧ Forall (Forall P) C ∧ Forall (Forall P) D.
Proof.
  intros [HA _] [HB _] [HC _] [HD _]. unfold quad.
  rewrite Forall_app, !hcat_Forall by lia. tauto.
Qed.

End Entries.

(** The permutation only moves entries: what holds of every entry of a
    matrix of the reference shape holds of every entry of the result, and
    the other way round. *)
Lemma add_unlinkability_entries (P : Z → Prop) feat features K m :
  nrows feat = 20 → ncols feat = 512 → rect 20 512 features → valid_key K →
  add_unlinkability feat features K = Some m →
  Forall (Forall P) features ↔ Forall (Forall P) m.
Proof.
  intros Hr Hc Hf HK Hm.
  assert (∀ X k0 k1 k2 k3 Y,
            rect 20 512 X →
            add_unlinkability feat X [k0; k1; k2; k3] = Some Y →
            Forall (Forall P) X → Forall (Forall P) Y) as Hfwd.
  { clear features K m Hf HK Hm. intros X k0 k1 k2 k3 Y HX.
    destruct (quad_split X HX) as (A & B & C & D & -> & HA & HB & HC & HD).
    rewrite (add_unlinkability_quad feat A B C D _ k0 k2 k3) by done.
    destruct (region_perm k0 A) as [a|] eqn:Ha; [|done].
    destruct (region_perm k2 B) as [b|] eqn:Hb; [|done].
    destruct (region_perm k2 C) as [c|] eqn:Hc'; [|done].
    destruct (region_perm k3 D) as [d|] eqn:Hd; [|done].
    cbn [mbind option_bind]. intros [= <-].
    rewrite (quad_Forall P N_BITS_BF (N_BF_X / 2 * N_WORDS_BF)) by done.
    rewrite (quad_Forall P N_BITS_BF (N_BF_X / 2 * N_WORDS_BF))
      by (by eapply region_perm_rect).
    intros (? & ? & ? & ?).
    split_and!; by eapply region_perm_Forall. }
  destruct (unlinkability_inverse_aux feat features K Hr Hc Hf HK)
    as (m0 & Hm0 & Hrect & Hinv).
  rewrite Hm in Hm0. injection Hm0 as <-.
  destruct (valid_key_rows K HK) as (k0 & k1 & k2 & k3 & -> & _).
  split.
  - exact (Hfwd _ _ _ _ _ _ Hf Hm).
  - exact (Hfwd _ _ _ _ _ _ Hrect Hinv).
Qed.

(** ** Entries the encoders reject *)

Lemma binary_digits_app s t acc :
  binary_digits (s ++ t)%string acc
  = acc' ← binary_digits s acc; binary_digits t acc'.
Proof.
  revert acc. induction s as [|c s IH]; intros acc; cbn; [done|].
  destruct (Ascii.eqb c "0"); [apply IH|].
  destruct (Ascii.eqb c "1"); [apply IH|done].
Qed.

Lemma binary_digits_join_Some hist acc :
  is_Some (binary_digits (join (str <$> hist)) acc) →
  Forall (λ a, ∃ acc', is_Some (binary_digits (str a) acc')) hist.
Proof.
  revert acc. induction hist as [|a hist IH]; intros acc H; [done|].
  rewrite fmap_cons, join_cons, binary_digits_app in H.
  destruct (binary_digits (str a) acc) as [acc'|] eqn:Ha;
    [|by destruct H]. cbn in H.
  constructor; [|by eapply IH]. exists acc. by rewrite Ha.
Qed.

(** Of the decimal digits, [int(_, 2)] accepts 0 and 1 only. *)
Lemma digit_binary a acc :
  digit a → is_Some (binary_digits (str a) acc) → bit a.
Proof.
  intros [Hlo Hhi] H.
  assert (a = 0 ∨ a = 1 ∨ a = 2 ∨ a = 3 ∨ a = 4 ∨ a = 5 ∨ a = 6 ∨ a = 7
          ∨ a = 8 ∨ a = 9)%Z as Ha by lia.
  destruct Ha as [->|[->|Ha]]; [by left|by right|].
  exfalso. destruct H as [z Hz].
  repeat (destruct Ha as [->|Ha]; [by cbn in Hz|]). subst. by cbn in Hz.
Qed.

Lemma location_of_Some hist :
  is_Some (location_of hist) → Forall (λ a, digit a → bit a) hist.
Proof.
  unfold location_of, int_base2.
  change ("0b" ++ ?t)%string with (String "0" (String "b" t)).
  cbv iota beta zeta. intros H.
  assert (is_Some (binary_digits (join (str <$> hist)) 0)) as Hd.
  { destruct (join (str <$> hist)); [by destruct H|done]. }
  apply binary_digits_join_Some in Hd.
  eapply Forall_impl; [exact Hd|]. intros a [acc Ha] Hdig.
  by eapply digit_binary.
Qed.

(** A loop that ends has come through each of its iterations. *)
Lemma for_each_steps {A S} (l : list A) (body : A → S → option S) s s' :
  for_each l body s = Some s' → Forall (λ a, ∃ s0, is_Some (body a s0)) l.
Proof.
  revert s. induction l as [|a l IH]; intros s H; [done|].
  cbn in H. destruct (body a s) as [s1|] eqn:Ha; [|done]. cbn in H.
  constructor; [|by eapply IH]. exists s. by rewrite Ha.
Qed.

Lemma encode_block_reads : reads_columns encode_block.
Proof.
  intros block bf w H Hw. unfold encode_block in H.
  apply for_each_steps in H. rewrite Forall_forall in H.
  destruct (H w) as [s0 Hs]; [apply elem_of_seq; lia|].
  destruct (column block w) as [hist|]; [|by destruct Hs].
  exists hist. split; [done|]. cbn in Hs.
  destruct (location_of hist); [done|by destruct Hs].
Qed.

Lemma encode_block_XOR_reads keys : reads_columns (encode_block_XOR keys).
Proof.
  intros block bf w H Hw. unfold encode_block_XOR in H.
  apply for_each_steps in H. rewrite Forall_forall in H.
  destruct (H w) as [s0 Hs]; [apply elem_of_seq; lia|].
  destruct (column block w) as [hist|]; [|by destruct Hs].
  exists hist. split; [done|]. cbn in Hs.
  destruct (location_of hist); [done|by destruct Hs].
Qed.

Lemma slice_lookup {A} lo hi (l : list A) i :
  i < hi - lo → slice lo hi l !! i = l !! (lo + i).
Proof. intros Hi. unfold slice. by rewrite lookup_take_lt, lookup_drop. Qed.

(** An encoder that returns a template has found 0 or 1 wherever it found
    a decimal digit. *)
Lemma extract_with_Some_bits encode feat t :
  reads_columns encode → rect 20 512 feat →
  Forall (Forall digit) feat →
  extract_with encode feat = Some t → Forall (Forall bit) feat.
Proof.
  intros Henc [Hlen Hrows] Hdig Ht.
  apply Forall_lookup. intros r row Hr. apply Forall_lookup. intros c a Hc.
  pose proof (lookup_lt_Some _ _ _ Hr) as Hr'.
  pose proof (lookup_lt_Some _ _ _ Hc) as Hc'.
  rewrite (Forall_lookup_1 _ _ _ _ Hrows Hr) in Hc'. cbv beta in Hc'.
  destruct (extract_with_lookup encode feat t (c / 32) (r / 10) Ht)
    as (bf & _ & Hbf & _).
  { change N_BF_X with 16. apply Nat.Div0.div_lt_upper_bound. lia. }
  { change N_BF_Y with 2. apply Nat.Div0.div_lt_upper_bound. lia. }
  destruct (Henc _ bf (c mod 32) Hbf) as (hist & Hcol & Hloc).
  { change N_WORDS_BF with 32. apply Nat.mod_upper_bound. lia. }
  apply location_of_Some in Hloc.
  unfold column in Hcol. apply mapM_Some_1 in Hcol.
  assert (block_at feat (c / 32) (r / 10) !! (r mod 10)
          = Some (slice (c / 32 * 32) ((c / 32 + 1) * 32) row)) as Hrow.
  { unfold block_at, slice2. change N_BITS_BF with 10.
    change N_WORDS_BF with 32.
    rewrite list_lookup_fmap, slice_lookup.
    - replace (r / 10 * 10 + r mod 10) with r; [by rewrite Hr|].
      rewrite (Nat.div_mod_eq r 10) at 1. lia.
    - pose proof (Nat.mod_upper_bound r 10). lia. }
  destruct (Forall2_lookup_l _ _ _ _ _ Hcol Hrow) as (a' & Ha' & Hw).
  cbv beta in Hw. rewrite slice_lookup in Hw.
  2:{ pose proof (Nat.mod_upper_bound c 32). lia. }
  replace (c / 32 * 32 + c mod 32) with c in Hw
    by (rewrite (Nat.div_mod_eq c 32) at 1; lia).
  rewrite Hc in Hw. injection Hw as <-.
  apply (Forall_lookup_1 _ _ _ _ Hloc Ha').
  exact (Forall_lookup_1 _ _ _ _ (Forall_lookup_1 _ _ _ _ Hdig Hr) Hc).
Qed.

(** ** Loading a sample *)

Lemma int_char_Some c a :
  int_char c = Some a ↔ digit_char c ∧ a = (Z.of_nat (nat_of_ascii c) - 48)%Z.
Proof.
  unfold int_char, digit_char.
  destruct ((48 <=? nat_of_ascii c) && (nat_of_ascii c <=? 57)) eqn:Hc.
  - apply andb_true_iff in Hc as [?%Nat.leb_le ?%Nat.leb_le].
    split; [by intros [= <-]|by intros [_ ->]].
  - apply andb_false_iff in Hc as [?%Nat.leb_gt | ?%Nat.leb_gt];
      (split; [done|intros [[? ?] _]; lia]).
Qed.

Lemma int_char_is_Some c : is_Some (int_char c) ↔ digit_char c.
Proof.
  split.
  - intros [a Ha]. by apply int_char_Some in Ha as [? _].
  - intros Hc. eexists. by apply int_char_Some.
Qed.

Lemma int_char_digit c a : int_char c = Some a → digit a.
Proof. intros [[? ?] ->]%int_char_Some. unfold digit. lia. Qed.

Lemma int_char_bit c a : int_char c = Some a → (bit a ↔ binary_char c).
Proof.
  intros [[? ?] ->]%int_char_Some. unfold bit, binary_char. split.
  - intros Hb. rewrite <- (ascii_nat_embedding c).
    destruct Hb as [Hb|Hb].
    + left. by replace (nat_of_ascii c) with 48 by lia.
    + right. by replace (nat_of_ascii c) with 49 by lia.
  - intros [-> | ->]; [by left|by right].
Qed.

(** The entries of a parsed line, character by character. *)
Lemma parse_line_Some line row :
  parse_line line = Some row ↔
  Forall2 (λ c a, int_char c = Some a) (chars line) row.
Proof. unfold parse_line. apply mapM_Some. Qed.

Lemma parse_line_is_Some line :
  is_Some (parse_line line) ↔ Forall digit_char (chars line).
Proof.
  unfold parse_line. rewrite mapM_is_Some. fold (chars line).
  apply Forall_iff. intros c. apply int_char_is_Some.
Qed.

Lemma asarray_rect rows n c :
  rect (S n) c rows → asarray rows = Array2 rows.
Proof.
  intros [Hl Hrows]. destruct rows as [|r rs]; [done|]. cbn.
  apply Forall_cons in Hrows as [Hr Hrs].
  assert (forallb (λ r', length r' =? length r) rs = true) as ->; [|done].
  apply Is_true_true, forallb_True.
  eapply Forall_impl; [exact Hrs|]. intros r' Hr'. cbv beta in Hr'.
  apply Is_true_true, Nat.eqb_eq. congruence.
Qed.

Lemma asarray_Array2 rows m :
  asarray rows = Array2 m →
  m = rows ∧ ∃ n c, rect (S n) c rows.
Proof.
  destruct rows as [|r rs]; [done|]. cbn.
  destruct (forallb _ rs) eqn:Hall; [|done]. intros [= <-].
  split; [done|]. exists (length rs), (length r). split; [done|].
  constructor; [done|]. apply Is_true_true, forallb_True in Hall.
  eapply Forall_impl; [exact Hall|]. intros r' Hr'. cbv beta in Hr'.
  by apply Is_true_true, Nat.eqb_eq in Hr'.
Qed.

(** What [load] gives as a two-dimensional array: the digit values of the
    characters of the lines. *)
Lemma load_Array2 lines m :
  load lines = Some (Array2 m) ↔ parsed lines m ∧ ∃ n c, rect (S n) c m.
Proof.
  unfold load, parsed. split.
  - destruct (mapM parse_line lines) as [rows|] eqn:Hrows; [|done].
    cbn. intros [= Ha]. apply asarray_Array2 in Ha as [-> Hrect].
    split; [|done]. apply mapM_Some_1 in Hrows. apply Forall2_fmap_l.
    eapply Forall2_impl; [exact Hrows|]. intros line row.
    apply parse_line_Some.
  - intros [Hm (n & c & Hrect)].
    assert (mapM parse_line lines = Some m) as ->.
    { apply mapM_Some_2. rewrite Forall2_fmap_l in Hm.
      eapply Forall2_impl; [exact Hm|]. intros line row.
      apply parse_line_Some. }
    cbn. f_equal. by eapply asarray_rect.
Qed.

(** ** Arrays of other shapes *)

Lemma slice2_rect n c M r0 r1 c0 c1 :
  rect n c M → rect (min r1 n - r0) (min c1 c - c0) (slice2 r0 r1 c0 c1 M).
Proof.
  intros [Hl Hrows]. unfold slice2, slice. split.
  - rewrite length_fmap, length_take, length_drop. lia.
  - apply Forall_fmap, Forall_take, Forall_drop.
    eapply Forall_impl; [exact Hrows|]. intros row Hrow. cbv beta in Hrow.
    cbn. rewrite length_take, length_drop. lia.
Qed.

(** An array with fewer than 20 rows or fewer than 512 columns: the
    reshape of the bottom right region (line 65) raises, if nothing
    before it did. *)
Lemma add_unlinkability_small feat M K n c :
  rect n c M → n < 20 ∨ c < 512 → add_unlinkability feat M K = None.
Proof.
  intros HM Hsmall. unfold add_unlinkability.
  assert (reshape (slice2 N_BITS_BF (2 * N_BITS_BF)
                     (N_BF_X / 2 * N_WORDS_BF) (N_BF_X * N_WORDS_BF) M)
            (N_BITS_BF * N_BF_X / 2) N_WORDS_BF = None) as H4.
  { unfold reshape.
    rewrite (concat_length_rect _ _ _ (slice2_rect n c M _ _ _ _ HM)).
    apply decide_False.
    change (N_BITS_BF * N_BF_X / 2 * N_WORDS_BF) with 2560.
    change (2 * N_BITS_BF) with 20. change N_BITS_BF with 10.
    change (N_BF_X / 2 * N_WORDS_BF) with 256.
    change (N_BF_X * N_WORDS_BF) with 512. nia. }
  rewrite H4.
  destruct (reshape (slice2 0 _ 0 _ M) _ _) as [aux1|]; [|done].
  cbn [mbind option_bind].
  destruct (reshape (slice2 0 _ _ _ M) _ _) as [aux2|]; [|done].
  cbn [mbind option_bind].
  by destruct (reshape (slice2 _ _ 0 _ M) _ _) as [aux3|].
Qed.

(** The result of [add_unlinkability] has the shape of [feat]. *)
Lemma add_unlinkability_shape feat features K m :
  20 ≤ nrows feat → 512 ≤ ncols feat →
  add_unlinkability feat features K = Some m →
  rect (nrows feat) (ncols feat) m.
Proof.
  intros Hr Hc. unfold add_unlinkability.
  destruct (reshape (slice2 0 _ 0 _ features) _ _) as [aux1|]; [|done].
  cbn [mbind option_bind].
  destruct (reshape (slice2 0 _ _ _ features) _ _) as [aux2|]; [|done].
  cbn [mbind option_bind].
  destruct (reshape (slice2 _ _ 0 _ features) _ _) as [aux3|]; [|done].
  cbn [mbind option_bind].
  destruct (reshape (slice2 _ _ _ _ features) _ _) as [aux4|]; [|done].
  cbn [mbind option_bind].
  pose proof (zeros2_is_rect (nrows feat) (ncols feat)) as H0.
  assert (N_BITS_BF ≤ nrows feat ∧ 2 * N_BITS_BF ≤ nrows feat
          ∧ N_BF_X / 2 * N_WORDS_BF ≤ ncols feat
          ∧ N_BF_X * N_WORDS_BF ≤ ncols feat
          ∧ N_BITS_BF ≤ 2 * N_BITS_BF
          ∧ N_BF_X / 2 * N_WORDS_BF ≤ N_BF_X * N_WORDS_BF)
    as (B1 & B2 & B3 & B4 & B5 & B6).
  { change (2 * N_BITS_BF) with 20. change N_BITS_BF with 10.
    change (N_BF_X / 2 * N_WORDS_BF) with 256.
    change (N_BF_X * N_WORDS_BF) with 512. lia. }
  destruct (permute_region _ aux1 K 0 _ _ _ _) as [P1|] eqn:H1; [|done].
  cbn [mbind option_bind].
  apply (permute_region_keeps_rect _ _ _ H0) in H1; [|lia..].
  destruct (permute_region P1 aux2 K 2 _ _ _ _) as [P2|] eqn:H2; [|done].
  cbn [mbind option_bind].
  apply (permute_region_keeps_rect _ _ _ H1) in H2; [|lia..].
  destruct (permute_region P2 aux3 K 2 _ _ _ _) as [P3|] eqn:H3; [|done].
  cbn [mbind option_bind].
  apply (permute_region_keeps_rect _ _ _ H2) in H3; [|lia..].
  destruct (permute_region P3 aux4 K 3 _ _ _ _) as [P4|] eqn:H4; [|done].
  cbn [mbind option_bind]. intros [= <-].
  apply (permute_region_keeps_rect _ _ _ H3) in H4; [done|lia..].
Qed.

Lemma hcat_take_drop W (l : matrix) : hcat (take W <$> l) (drop W <$> l) = l.
Proof.
  induction l as [|row l IH]; [done|]. unfold hcat in *. cbn.
  by rewrite take_drop, IH.
Qed.

(** An array of at least [H] rows and [W] columns, cut into its first [H]
    rows and [W] columns and the rest. *)
Lemma frame_split H W n' e M :
  rect (H + n') (W + e) M →
  M = hcat (take W <$> take H M) (drop W <$> take H M) ++ drop H M
  ∧ rect H W (take W <$> take H M)
  ∧ length (drop W <$> take H M) = H.
Proof.
  intros [Hl Hrows]. split_and!.
  - by rewrite hcat_take_drop, take_drop.
  - split.
    + rewrite length_fmap, length_take. lia.
    + apply Forall_fmap, Forall_take.
      eapply Forall_impl; [exact Hrows|]. intros row Hrow. cbv beta in Hrow.
      cbn. rewrite length_take. lia.
  - rewrite length_fmap, length_take. lia.
Qed.

(** ** The template of a sample *)

Lemma Forall2_Forall_iff {A B} (R : A → B → Prop) (P : A → Prop)
    (Q : B → Prop) l k :
  Forall2 R l k → (∀ x y, R x y → (P x ↔ Q y)) → (Forall P l ↔ Forall Q k).
Proof.
  intros HR HPQ. induction HR as [|x y l k Hxy _ IH]; [done|].
  rewrite !Forall_cons, IH, (HPQ x y Hxy). done.
Qed.

Lemma encode_block_total : total_on_blocks encode_block.
Proof.
  intros block Hb.
  destruct (encode_block_marked block Hb) as (bf & ? & ? & _). by exists bf.
Qed.

Lemma encode_block_XOR_total keys :
  keys_in_range keys → total_on_blocks (encode_block_XOR keys).
Proof.
  intros Hk block Hb.
  destruct (encode_block_XOR_marked keys block Hb Hk) as (bf & ? & ? & _).
  by exists bf.
Qed.

Section Pipeline.

Context (encode : matrix → option (list Z)).
Context (Hreads : reads_columns encode) (Htotal : total_on_blocks encode).

(** The template of a sample depends on the first 20 lines and the first
    512 columns only. *)
Lemma process_sample_frame key lines M n' e :
  load lines = Some (Array2 M) → rect (20 + n') (512 + e) M →
  process_sample (extract_with encode) key lines
  = m ← add_unlinkability (zeros2 20 512) (take 512 <$> take 20 M) key;
    extract_with encode m.
Proof.
  intros Hload HM. unfold process_sample. rewrite Hload.
  cbn [mbind option_bind].
  destruct (frame_split 20 512 n' e M HM) as (Hsplit & HF & HE).
  assert (nrows M = 20 + n' ∧ ncols M = 512 + e) as [Hr Hc].
  { destruct HM as [Hl Hrows]. split; [done|].
    destruct M as [|row M]; [done|]. by apply Forall_cons in Hrows as [? _]. }
  rewrite Hsplit at 2.
  rewrite (add_unlinkability_frame M _ _ _ key n' e Hr Hc HF HE).
  destruct (add_unlinkability (zeros2 20 512) _ key) as [m|] eqn:Hm; [|done].
  cbn [mbind option_bind].
  apply add_unlinkability_shape in Hm; [|by vm_compute..].
  apply extract_with_frame; [exact Hm|apply length_replicate].
Qed.

Lemma parsed_digits lines M : parsed lines M → Forall (Forall digit) M.
Proof.
  intros H. eapply (Forall2_Forall_r _ _ _ _ H). clear.
  apply Forall_forall. intros l _ row Hrow.
  induction Hrow as [|c a l row Hc _ IH]; constructor; [|done].
  by eapply int_char_digit.
Qed.

Lemma parsed_region lines M :
  parsed lines M →
  Forall (λ line, Forall binary_char (take 512 (chars line))) (take 20 lines)
  ↔ Forall (Forall bit) (take 512 <$> take 20 M).
Proof.
  intros H. unfold parsed in H. rewrite Forall_fmap.
  change (Forall (λ line, Forall binary_char (take 512 (chars line))) ?l)
    with (Forall ((λ cs, Forall binary_char (take 512 cs)) ∘ chars) l).
  rewrite <- Forall_fmap, fmap_take.
  apply (Forall2_Forall_iff _ _ _ _ _ (Forall2_take _ _ _ 20 H)).
  intros cs row Hrow. cbn.
  apply (Forall2_Forall_iff _ _ _ _ _ (Forall2_take _ _ _ 512 Hrow)).
  intros c a. symmetry. by apply int_char_bit.
Qed.

Lemma parsed_lengths lines M c :
  parsed lines M →
  Forall (λ line, length (chars line) = c) lines
  ↔ Forall (λ row, length row = c) M.
Proof.
  intros H. unfold parsed in H.
  change (Forall (λ line, length (chars line) = c) lines)
    with (Forall ((λ cs : list ascii, length cs = c) ∘ chars) lines).
  rewrite <- Forall_fmap.
  apply (Forall2_Forall_iff _ _ _ _ _ H).
  intros cs row Hrow. by rewrite (Forall2_length _ _ _ Hrow).
Qed.

Lemma parsed_digit_chars lines M :
  parsed lines M → Forall (λ line, Forall digit_char (chars line)) lines.
Proof.
  intros H. unfold parsed in H. rewrite Forall2_fmap_l in H.
  eapply (Forall2_Forall_l _ _ _ _ H). clear.
  apply Forall_forall. intros row _ line Hrow. cbn in Hrow.
  induction Hrow as [|c a l row Hc _ IH]; constructor; [|done].
  apply int_char_is_Some. by rewrite Hc.
Qed.

Lemma region_digits M :
  Forall (Forall digit) M → Forall (Forall digit) (take 512 <$> take 20 M).
Proof.
  intros H. apply Forall_fmap, Forall_take.
  eapply Forall_impl; [exact H|]. intros row Hrow. by apply Forall_take.
Qed.

Lemma is_matrix_rect_bits r c m :
  is_matrix r c m ↔ rect r c m ∧ Forall (Forall bit) m.
Proof. unfold is_matrix, rect. rewrite Forall_and. tauto. Qed.

(** The samples that get a template are the accepted ones; on every other
    sample an exception is raised. *)
Lemma process_sample_is_Some key lines :
  valid_key key →
  is_Some (process_sample (extract_with encode) key lines) ↔ accepted lines.
Proof.
  intros HK. split.
  - intros [t Ht]. pose proof Ht as Ht0. unfold process_sample in Ht.
    destruct (load lines) as [[M|n]|] eqn:Hload; [|done..].
    cbn [mbind option_bind] in Ht.
    destruct (add_unlinkability M M key) as [R|] eqn:HR; [|done].
    apply load_Array2 in Hload as Hl. destruct Hl as [Hp (n & c & HM)].
    assert (20 ≤ S n ∧ 512 ≤ c) as [Hn Hc].
    { destruct (decide (S n < 20 ∨ c < 512)) as [Hs|Hs]; [|lia].
      by rewrite (add_unlinkability_small M M key _ _ HM Hs) in HR. }
    replace (S n) with (20 + (S n - 20)) in HM by lia.
    replace c with (512 + (c - 512)) in HM by lia.
    rewrite (process_sample_frame key lines M _ _ Hload HM) in Ht0.
    destruct (frame_split 20 512 _ _ M HM) as (_ & HF & _).
    destruct (add_unlinkability (zeros2 20 512) _ key) as [m|] eqn:Hm;
      [|done]. cbn [mbind option_bind] in Ht0.
    pose proof (parsed_digits _ _ Hp) as Hdig.
    pose proof (add_unlinkability_shape (zeros2 20 512) _ _ _
                  (le_n 20) (le_n 512) Hm)
      as Hrect.
    pose proof (add_unlinkability_entries digit (zeros2 20 512) _ _ _
                  eq_refl eq_refl HF HK Hm) as Hd.
    pose proof (add_unlinkability_entries bit (zeros2 20 512) _ _ _
                  eq_refl eq_refl HF HK Hm) as Hb.
    apply region_digits, Hd in Hdig.
    apply (extract_with_Some_bits encode m t Hreads Hrect) in Hdig;
      [|done].
    apply Hb in Hdig.
    exists (S n - 20), (c - 512). split_and!.
    + unfold parsed in Hp. apply Forall2_length in Hp.
      rewrite length_fmap in Hp. destruct HM as [HMl _]. lia.
    + apply (parsed_lengths lines M _ Hp). apply HM.
    + by eapply parsed_digit_chars.
    + by apply (parsed_region lines M Hp).
  - intros (n' & e & Hlen & Hcols & Hdig & Hbin).
    destruct (mapM_is_Some_2 parse_line lines) as [M HMp].
    { eapply Forall_impl; [exact Hdig|]. intros line Hl.
      by apply parse_line_is_Some. }
    assert (parsed lines M) as Hp.
    { unfold parsed. apply Forall2_fmap_l. apply mapM_Some_1 in HMp.
      eapply Forall2_impl; [exact HMp|]. intros line row.
      apply parse_line_Some. }
    assert (rect (20 + n') (512 + e) M) as HM.
    { split.
      - unfold parsed in Hp. apply Forall2_length in Hp.
        rewrite length_fmap in Hp. lia.
      - by apply (parsed_lengths lines M _ Hp). }
    assert (load lines = Some (Array2 M)) as Hload.
    { apply load_Array2. split; [done|]. by exists (19 + n'), (512 + e). }
    rewrite (process_sample_frame key lines M _ _ Hload HM).
    destruct (frame_split 20 512 _ _ M HM) as (_ & HF & _).
    destruct (unlinkability_inverse_aux (zeros2 20 512) _ key
                eq_refl eq_refl HF HK) as (m & Hm & Hrect & _).
    rewrite Hm. cbn [mbind option_bind].
    pose proof (add_unlinkability_entries bit (zeros2 20 512) _ _ _
                  eq_refl eq_refl HF HK Hm) as Hb.
    apply (parsed_region lines M Hp), Hb in Hbin.
    apply extract_with_total. intros x y Hx Hy. apply Htotal.
    apply block_at_is_block; [|done..]. by apply is_matrix_rect_bits.
Qed.

End Pipeline.

(** ** The main loop *)

Section MainLoop.

Context (extract : matrix → option matrix) (key : matrix) (DB : string).

Lemma extract_all_app good rest w :
  extract_all extract key DB (good ++ rest) w
  = match extract_all extract key DB good w with
    | (w', Finished) => extract_all extract key DB rest w'
    | (w', Raised) => (w', Raised)
    end.
Proof.
  revert w. induction good as [|[fn lines] good IH]; intros w; [done|].
  cbn. destruct (process_sample extract key lines); [apply IH|done].
Qed.

Lemma outputs_cons fn lines files :
  outputs extract key DB ((fn, lines) :: files)
  = match process_sample extract key lines with
    | Some bfs => (out_path DB fn, bfs) :: outputs extract key DB files
    | None => outputs extract key DB files
    end.
Proof.
  unfold outputs. change (omap ?f ((fn, lines) :: files))
    with (match f (fn, lines) with
          | Some o => o :: omap f files
          | None => omap f files
          end).
  cbn [fst snd]. by destruct (process_sample extract key lines).
Qed.

(** While every sample is processed, the loop goes on: each name is
    printed and each template saved, in the order of the files. *)
Lemma extract_all_good files w :
  Forall (λ f, is_Some (process_sample extract key f.2)) files →
  extract_all extract key DB files w
  = (World (stdout w ++ (stem ∘ fst <$> files))
           (saved w ++ outputs extract key DB files), Finished)
  ∧ length (outputs extract key DB files) = length files.
Proof.
  intros Hok. revert w.
  induction Hok as [|[fn lines] files [bfs Hbfs] _ IH]; intros w.
  - cbn. rewrite !app_nil_r. by destruct w.
  - change (process_sample extract key lines = Some bfs) in Hbfs.
    destruct (IH (savetxt (out_path DB fn) bfs
                                 (print (stem fn) w))) as [Hrun Hlen].
    change (extract_all extract key DB ((fn, lines) :: files) w)
      with (match process_sample extract key lines with
            | None => (print (stem fn) w, Raised)
            | Some bfs =>
                extract_all extract key DB files
                  (savetxt (out_path DB fn) bfs (print (stem fn) w))
            end).
    rewrite outputs_cons, Hbfs, Hrun.
    split; [|by cbn; rewrite Hlen]. unfold savetxt, print.
    cbn [stdout saved fmap list_fmap compose fst].
    by rewrite <- !app_assoc.
Qed.

(** The loop ends at the first sample that raises: its name is the last
    line printed, nothing is saved for it, and the files after it are not
    read. *)
Lemma extract_all_raises good fn lines rest w :
  Forall (λ f, is_Some (process_sample extract key f.2)) good →
  process_sample extract key lines = None →
  extract_all extract key DB (good ++ (fn, lines) :: rest) w
  = (World (stdout w ++ (stem ∘ fst <$> good) ++ [stem fn])
           (saved w ++ outputs extract key DB good), Raised).
Proof.
  intros Hgood Hbad. rewrite extract_all_app.
  destruct (extract_all_good good w Hgood) as [-> _].
  cbn. rewrite Hbad. unfold print. cbn. by rewrite <- app_assoc.
Qed.

End MainLoop.

(** What [random.sample] returns: elements of the population, none more
    often than the population holds it. *)
Lemma draw_submseteq pool k rnd : draw pool k rnd ⊆+ pool.
Proof.
  revert pool rnd. induction k as [|k IH]; intros pool rnd; cbn.
  - apply submseteq_nil_l.
  - destruct (pool !! (rnd 0 mod length pool)) as [x|] eqn:Hx;
      [|apply submseteq_nil_l].
    trans (x :: delete (rnd 0 mod length pool) pool).
    + apply submseteq_skip, IH.
    + apply Permutation_submseteq. symmetry. by apply delete_Permutation.
Qed.

Lemma draw_length pool k rnd :
  k ≤ length pool → length (draw pool k rnd) = k.
Proof.
  revert pool rnd. induction k as [|k IH]; intros pool rnd Hk; cbn; [done|].
  assert (rnd 0 mod length pool < length pool) as Hj
    by (apply Nat.mod_upper_bound; lia).
  destruct (lookup_lt_is_Some_2 pool _ Hj) as [x Hx]. rewrite Hx. cbn.
  rewrite IH; [done|]. rewrite length_delete by (by rewrite Hx). lia.
Qed.

Lemma range_NoDup n : NoDup (range n).
Proof.
  unfold range. apply (NoDup_fmap_2 _). apply NoDup_seq.
Qed.

Lemma range_bounds n : Forall (λ k, 0 ≤ k < Z.of_nat n)%Z (range n).
Proof.
  unfold range. apply Forall_fmap, Forall_forall.
  intros i Hi%elem_of_seq. cbn. lia.
Qed.

Lemma sample_range n k rnd :
  (∃ keys, sample (range n) k rnd = Some keys) ↔ (0 ≤ k ≤ Z.of_nat n)%Z.
Proof.
  unfold sample, range. rewrite length_fmap, length_seq.
  case_decide; split; intros Hx; try done; [by eexists|by destruct Hx].
Qed.

Lemma sample_range_Some n k rnd keys :
  sample (range n) k rnd = Some keys →
  length keys = Z.to_nat k ∧ NoDup keys
  ∧ Forall (λ k, 0 ≤ k < Z.of_nat n)%Z keys.
Proof.
  unfold sample. case_decide as Hk; [|done]. intros [= <-].
  destruct (submseteq_Permutation _ _
              (draw_submseteq (range n) (Z.to_nat k) rnd)) as [rest Hp].
  pose proof (range_NoDup n) as Hnd. pose proof (range_bounds n) as Hb.
  rewrite Hp in Hnd. rewrite Hp in Hb.
  apply NoDup_app in Hnd as (Hnd & _ & _). apply Forall_app in Hb as [Hb _].
  split_and!; [|done..]. apply draw_length.
  unfold range in Hk |- *. rewrite length_fmap, length_seq in Hk |- *. lia.
Qed.

Lemma run_keys_None nXORKeys rnd :
  run_keys nXORKeys rnd = None
  ↔ (nXORKeys < 0 ∨ Z.of_nat BF_SIZE < nXORKeys)%Z.
Proof.
  unfold run_keys. case_decide as H0; [split; [done|lia]|].
  pose proof (sample_range BF_SIZE nXORKeys rnd) as Hs.
  destruct (sample (range BF_SIZE) nXORKeys rnd) as [keys|].
  - split; [done|]. intros Hx. assert (0 ≤ nXORKeys ≤ Z.of_nat BF_SIZE)%Z
      by (apply Hs; by eexists). lia.
  - split; [|done]. intros _.
    destruct (decide (0 ≤ nXORKeys ≤ Z.of_nat BF_SIZE)%Z) as [Hin|]; [|lia].
    apply Hs in Hin as [? [=]].
Qed.

Lemma run_keys_in_range nXORKeys rnd xorKeys :
  run_keys nXORKeys rnd = Some xorKeys → keys_in_range xorKeys.
Proof.
  unfold run_keys. case_decide.
  - intros [= <-]. constructor.
  - intros Hs. by apply sample_range_Some in Hs as (_ & _ & ?).
Qed.

Lemma main_extractor nXORKeys rnd key DB files :
  main nXORKeys rnd key DB files
  = match run_keys nXORKeys rnd with
    | Some xorKeys =>
        extract_all (extractor nXORKeys xorKeys) key DB files
          (World [banner] [])
    | None => (World [banner] [], Raised)
    end.
Proof.
  unfold main, run_keys, extractor. case_decide; [done|].
  by destruct (sample (range BF_SIZE) nXORKeys rnd).
Qed.

(** Both encoders of a run read every column of a block as a binary
    number, and return a vector for every binary block. *)
Lemma extractor_encoder nXORKeys xorKeys :
  keys_in_range xorKeys →
  ∃ encode, extractor nXORKeys xorKeys = extract_with encode
            ∧ reads_columns encode ∧ total_on_blocks encode.
Proof.
  intros Hk. unfold extractor. case_decide.
  - exists encode_block. split; [done|].
    split; [apply encode_block_reads|apply encode_block_total].
  - exists (encode_block_XOR xorKeys). split; [done|].
    split; [apply encode_block_XOR_reads|by apply encode_block_XOR_total].
Qed.

Lemma rejected_sample_raises_aux key nXORKeys rnd DB good fn lines rest :
  valid_key key →
  (run_keys nXORKeys rnd = None
   ↔ (nXORKeys < 0 ∨ Z.of_nat BF_SIZE < nXORKeys)%Z)
  ∧ (run_keys nXORKeys rnd = None →
     main nXORKeys rnd key DB (good ++ (fn, lines) :: rest)
     = (World [banner] [], Raised))
  ∧ (∀ xorKeys, run_keys nXORKeys rnd = Some xorKeys →
     (is_Some (process_sample (extractor nXORKeys xorKeys) key lines)
      ↔ accepted lines)
     ∧ (Forall (λ f, accepted f.2) good → ¬ accepted lines →
        main nXORKeys rnd key DB (good ++ (fn, lines) :: rest)
        = (World (banner :: (stem ∘ fst <$> good) ++ [stem fn])
                 (outputs (extractor nXORKeys xorKeys) key DB good), Raised)
        ∧ length (outputs (extractor nXORKeys xorKeys) key DB good)
          = length good)).
Proof.
  intros HK. split; [apply run_keys_None|]. split.
  { intros Hnone. by rewrite main_extractor, Hnone. }
  intros xorKeys Hkeys.
  pose proof (run_keys_in_range _ _ _ Hkeys) as Hrange.
  destruct (extractor_encoder nXORKeys xorKeys Hrange)
    as (encode & He & Hreads & Htotal).
  assert (∀ l, is_Some (process_sample (extractor nXORKeys xorKeys) key l)
               ↔ accepted l) as Hacc.
  { intros l. rewrite He. by apply process_sample_is_Some. }
  split; [apply Hacc|]. intros Hgood Hbad.
  assert (Forall (λ f, is_Some (process_sample
                                  (extractor nXORKeys xorKeys) key f.2)) good)
    as Hgood'.
  { eapply Forall_impl; [exact Hgood|]. intros f Hf. by apply Hacc. }
  split.
  - rewrite main_extractor, Hkeys,
      (extract_all_raises _ _ _ _ _ _ _ _ Hgood').
    + done.
    + rewrite <- Hacc in Hbad. rewrite eq_None_not_Some. done.
  - by destruct (extract_all_good _ key DB good (World [] []) Hgood').
Qed.

(** ** More on the encoders *)

Lemma marked_unique n bf bf' (S S' : nat → Prop) :
  marked n bf S → marked n bf' S' → (∀ i, i < n → S i ↔ S' i) → bf = bf'.
Proof.
  intros (Hl & Hb & HS) (Hl' & Hb' & HS') Heq.
  apply (list_eq_same_length _ _ n); [done..|].
  intros i x y Hi Hx Hy.
  pose proof (Forall_lookup_1 _ _ _ _ Hb Hx) as [-> | ->];
    pose proof (Forall_lookup_1 _ _ _ _ Hb' Hy) as [-> | ->]; try done.
  - apply HS', Heq, HS in Hy; [|done..]. congruence.
  - apply HS, Heq, HS' in Hx; [|done..]. congruence.
Qed.

(** The fusion encoder depends on the set of its keys only. *)
Lemma encode_block_XOR_keyset keys keys' block :
  is_block block → keys_in_range keys → (∀ k, k ∈ keys ↔ k ∈ keys') →
  encode_block_XOR keys block = encode_block_XOR keys' block.
Proof.
  intros Hb Hk Heq.
  assert (keys_in_range keys') as Hk'.
  { unfold keys_in_range in *. rewrite Forall_forall in *.
    intros k Hin. by apply Hk, Heq. }
  destruct (encode_block_XOR_marked keys block Hb Hk) as (bf & -> & Hm).
  destruct (encode_block_XOR_marked keys' block Hb Hk') as (bf' & -> & Hm').
  f_equal. eapply marked_unique; [exact Hm|exact Hm'|].
  intros i _. split; intros (w & hist & k & ? & ? & ? & ?);
    exists w, hist, k; split_and!; try done; by apply Heq.
Qed.

Lemma encode_block_XOR_nil block :
  is_block block → encode_block_XOR [] block = Some (zeros BF_SIZE).
Proof.
  intros Hb.
  destruct (encode_block_XOR_marked [] block Hb) as (bf & -> & Hm);
    [by constructor|].
  f_equal. eapply marked_unique; [exact Hm|apply zeros_marked|].
  intros i _. split; [|done].
  intros (w & hist & k & _ & _ & Hk & _). by apply elem_of_nil in Hk.
Qed.

Lemma mapM_const {A B} (f : A → option B) l z :
  Forall (λ x, f x = Some z) l → mapM f l = Some (replicate (length l) z).
Proof. induction 1 as [|x l Hx _ IH]; [done|]. cbn. by rewrite Hx, IH. Qed.

(** The number of 1-bits the fusion encoder sets. *)
Lemma count_ones_keys keys l bf bf' :
  for_each keys (λ k bf, setitem bf (Z.lxor l k) 1%Z) bf = Some bf' →
  count_ones bf' ≤ count_ones bf + length keys.
Proof.
  revert bf. induction keys as [|k keys IH]; intros bf H.
  - cbn in H. injection H as <-. cbn. lia.
  - cbn in H. destruct (setitem bf _ 1%Z) as [bf1|] eqn:H1; [|done].
    cbn in H. apply IH in H. unfold setitem in H1.
    destruct (index _ _) as [n|]; [|done]. cbn in H1. injection H1 as <-.
    pose proof (count_ones_insert bf n). cbn. lia.
Qed.

Lemma count_ones_loop_XOR keys ws block bf bf' :
  for_each ws
    (λ w bf, hist ← column block w; location ← location_of hist;
             for_each keys (λ k bf, setitem bf (Z.lxor location k) 1%Z) bf)
    bf = Some bf' →
  count_ones bf' ≤ count_ones bf + length ws * length keys.
Proof.
  revert bf. induction ws as [|w ws IH]; intros bf H.
  - cbn in H. injection H as <-. cbn. lia.
  - cbn [for_each] in H.
    destruct (column block w) as [hist|]; [|done]. cbn in H.
    destruct (location_of hist) as [l|]; [|done]. cbn in H.
    destruct (for_each keys _ bf) as [bf1|] eqn:H1; [|done]. cbn in H.
    apply IH in H. apply count_ones_keys in H1. cbn. lia.
Qed.

(** Keys beyond the Bloom vector. *)
Lemma lxor_high a k n :
  (0 ≤ n)%Z → (0 ≤ a < 2 ^ n)%Z → (2 ^ n ≤ k)%Z → (2 ^ n ≤ Z.lxor a k)%Z.
Proof.
  intros Hn Ha Hk.
  assert (0 < 2 ^ n)%Z as Hp by (by apply Z.pow_pos_nonneg).
  destruct (Z_lt_le_dec (Z.lxor a k) (2 ^ n)) as [Hlt|]; [|done]. exfalso.
  assert (Z.shiftr (Z.lxor a k) n = Z.shiftr k n) as Hs.
  { rewrite Z.shiftr_lxor, (Z.shiftr_div_pow2 a) by done.
    by rewrite Z.div_small, Z.lxor_0_l. }
  rewrite !Z.shiftr_div_pow2 in Hs by done.
  assert (Z.lxor a k / 2 ^ n < 1)%Z
    by (apply Z.div_lt_upper_bound; lia).
  assert (1 ≤ k / 2 ^ n)%Z by (apply Z.div_le_lower_bound; lia).
  lia.
Qed.

Lemma index_None n i : (Z.of_nat n ≤ i)%Z → index n i = None.
Proof. intros. unfold index. rewrite !decide_False by lia. done. Qed.

Lemma for_each_keys_None keys l k bf :
  k ∈ keys → (Z.of_nat (length bf) ≤ Z.lxor l k)%Z →
  for_each keys (λ k bf, setitem bf (Z.lxor l k) 1%Z) bf = None.
Proof.
  revert bf. induction keys as [|k0 keys IH]; intros bf Hin Hk.
  - by apply elem_of_nil in Hin.
  - cbn. destruct (setitem bf (Z.lxor l k0) 1%Z) as [bf1|] eqn:H1; [|done].
    cbn. apply elem_of_cons in Hin as [->|Hin].
    + unfold setitem in H1. by rewrite index_None in H1.
    + apply IH; [done|]. by rewrite (setitem_length _ _ _ _ H1).
Qed.

Lemma encode_block_XOR_high keys k block :
  is_block block → k ∈ keys → (Z.of_nat BF_SIZE ≤ k)%Z →
  encode_block_XOR keys block = None.
Proof.
  intros Hb Hin Hk. unfold encode_block_XOR.
  change (seq 0 N_WORDS_BF) with (0 :: seq 1 31). cbn [for_each].
  destruct (location_block block 0 Hb) as (hist & Hc & Hloc & Hl);
    [change N_WORDS_BF with 32; lia|].
  rewrite Hc. cbn [mbind option_bind]. rewrite Hloc.
  cbn [mbind option_bind].
  rewrite (for_each_keys_None keys (loc hist) k); [done..|].
  unfold zeros. rewrite length_replicate.
  rewrite bf_size_pow in *. apply lxor_high; lia.
Qed.

(** Negative keys: a negative index counts from the end of the vector. *)
Lemma lxor_negative a k n :
  (0 ≤ n)%Z → (0 ≤ a < 2 ^ n)%Z → (- 2 ^ n ≤ k < 0)%Z →
  (- 2 ^ n ≤ Z.lxor a k < 0)%Z.
Proof.
  intros Hn Ha Hk.
  replace k with (Z.lnot (Z.lnot k)) by apply Z.lnot_involutive.
  rewrite Z.lxor_comm, <- Z.lnot_lxor_l.
  pose proof (lxor_bound (Z.lnot k) a n Hn) as Hb.
  unfold Z.lnot in *. lia.
Qed.

Lemma for_each_total {A S} (Inv : S → Prop) (l : list A) body s :
  Inv s →
  (∀ a s, a ∈ l → Inv s → ∃ s', body a s = Some s' ∧ Inv s') →
  ∃ s', for_each l body s = Some s' ∧ Inv s'.
Proof.
  revert s. induction l as [|a l IH]; intros s Hs Hbody; [by exists s|].
  destruct (Hbody a s) as (s1 & H1 & Hs1); [by left|done|].
  cbn. rewrite H1. cbn. apply IH; [done|].
  intros b s2 Hb. apply Hbody. by right.
Qed.

Lemma setitem_total bf i :
  (- Z.of_nat (length bf) ≤ i < Z.of_nat (length bf))%Z →
  ∃ bf', setitem bf i 1%Z = Some bf' ∧ length bf' = length bf.
Proof.
  intros Hi. unfold setitem, index. repeat case_decide; try lia;
    (eexists; split; [done|]; by rewrite length_insert).
Qed.

Lemma encode_block_XOR_signed keys block :
  is_block block →
  Forall (λ k, - Z.of_nat BF_SIZE ≤ k < Z.of_nat BF_SIZE)%Z keys →
  ∃ bf, encode_block_XOR keys block = Some bf ∧ length bf = BF_SIZE.
Proof.
  intros Hb Hk. unfold encode_block_XOR.
  apply (for_each_total (λ bf, length bf = BF_SIZE)).
  { apply length_replicate. }
  intros w bf Hw%elem_of_seq Hlen.
  destruct (location_block block w Hb) as (hist & Hc & Hloc & Hl); [lia|].
  rewrite Hc. cbn [mbind option_bind]. rewrite Hloc.
  cbn [mbind option_bind].
  apply (for_each_total (λ bf, length bf = BF_SIZE)); [done|].
  intros k bf1 Hin Hlen1. rewrite Forall_forall in Hk. specialize (Hk k Hin).
  destruct (setitem_total bf1 (Z.lxor (loc hist) k)) as (bf2 & ? & ?).
  - rewrite Hlen1. rewrite bf_size_pow in *.
    destruct (decide (k < 0)%Z).
    + pose proof (lxor_negative (loc hist) k (Z.of_nat N_BITS_BF)). lia.
    + pose proof (lxor_bound (loc hist) k (Z.of_nat N_BITS_BF)). lia.
  - exists bf2. split; [done|congruence].
Qed.

(** ** The keys [add_unlinkability] accepts *)

Lemma index_is_Some n i :
  is_Some (index n i) ↔ (- Z.of_nat n ≤ i < Z.of_nat n)%Z.
Proof.
  unfold index. repeat case_decide; split; intros Hx; try done; try lia;
    by destruct Hx.
Qed.

Lemma take_rows_is_Some R k :
  is_Some (take_rows R k)
  ↔ Forall (λ i, - Z.of_nat (length R) ≤ i < Z.of_nat (length R))%Z k.
Proof.
  unfold take_rows. rewrite mapM_is_Some. apply Forall_iff. intros i. cbn.
  rewrite <- index_is_Some. split.
  - intros H. destruct (index (length R) i); [done|by destruct H].
  - intros [n Hn]. rewrite Hn. cbn. apply lookup_lt_is_Some_2.
    by eapply index_Some.
Qed.

Section Keys.

Local Abbreviation qh := N_BITS_BF (only parsing).
Local Abbreviation qw := (N_BF_X / 2 * N_WORDS_BF) (only parsing).
Local Abbreviation groups := (N_BITS_BF * N_BF_X / 2) (only parsing).

(** A quadrant is permuted exactly when the key row has 80 indices, all
    within bounds; the row need not be a permutation. *)
Lemma region_perm_is_Some k Q :
  rect qh qw Q → is_Some (region_perm k Q) ↔ usable_row groups k.
Proof.
  intros HQ. unfold region_perm.
  rewrite (reshape_rect qh qw) by done. cbn [mbind option_bind].
  assert (length (concat Q) = groups * N_WORDS_BF) as HcQ
    by (by rewrite (concat_length_rect qh qw)).
  pose proof (chunks_rect groups N_WORDS_BF (concat Q) HcQ) as [Hal Har].
  split.
  - intros [Q' H].
    destruct (take_rows _ k) as [rows|] eqn:Hrows; [|done].
    cbn [mbind option_bind] in H.
    assert (is_Some (take_rows (chunks groups N_WORDS_BF (concat Q)) k))
      as Hidx by (by rewrite Hrows).
    apply take_rows_is_Some in Hidx. rewrite Hal in Hidx.
    split; [|done].
    unfold reshape in H. case_decide as Hlen; [|done].
    rewrite (concat_length_rect (length k) N_WORDS_BF) in Hlen.
    + change N_WORDS_BF with 32 in Hlen. change N_BITS_BF with 10 in *.
      change N_BF_X with 16 in *. change (10 * 16 / 2) with 80.
      change (16 / 2 * 32) with 256 in Hlen. lia.
    + split; [by eapply take_rows_length|by eapply take_rows_rows].
  - intros [Hlen Hidx].
    destruct (proj2 (take_rows_is_Some
                       (chunks groups N_WORDS_BF (concat Q)) k))
      as [rows Hrows]; [by rewrite Hal|].
    rewrite Hrows. cbn [mbind option_bind].
    rewrite (reshape_rect groups N_WORDS_BF); [done| |done].
    split; [|by eapply take_rows_rows].
    by rewrite (take_rows_length _ _ _ Hrows).
Qed.

Lemma permute_region_no_key P aux K j r0 r1 c0 c1 :
  K !! j = None → permute_region P aux K j r0 r1 c0 c1 = None.
Proof. intros H. unfold permute_region. by rewrite H. Qed.

(** A key material without row 0, 2 or 3 raises, whatever the array. *)
Lemma add_unlinkability_no_key feat features K :
  K !! 0 = None ∨ K !! 2 = None ∨ K !! 3 = None →
  add_unlinkability feat features K = None.
Proof.
  intros HK. unfold add_unlinkability.
  destruct (reshape (slice2 0 _ 0 _ features) _ _) as [aux1|]; [|done].
  cbn [mbind option_bind].
  destruct (reshape (slice2 0 _ _ _ features) _ _) as [aux2|]; [|done].
  cbn [mbind option_bind].
  destruct (reshape (slice2 _ _ 0 _ features) _ _) as [aux3|]; [|done].
  cbn [mbind option_bind].
  destruct (reshape (slice2 _ _ _ _ features) _ _) as [aux4|]; [|done].
  cbn [mbind option_bind].
  destruct (K !! 0) as [k0|] eqn:H0;
    [|by rewrite permute_region_no_key].
  destruct (permute_region _ aux1 K 0 _ _ _ _) as [P1|]; [|done].
  cbn [mbind option_bind].
  destruct (K !! 2) as [k2|] eqn:H2;
    [|by rewrite permute_region_no_key].
  destruct (permute_region P1 aux2 K 2 _ _ _ _) as [P2|]; [|done].
  cbn [mbind option_bind].
  destruct (permute_region P2 aux3 K 2 _ _ _ _) as [P3|]; [|done].
  cbn [mbind option_bind].
  destruct HK as [?|[?|HK]]; [done..|].
  by rewrite permute_region_no_key.
Qed.

(** On an array of the reference shape, [add_unlinkability] returns
    exactly when rows 0, 2 and 3 of the key material are usable. *)
Lemma add_unlinkability_is_Some feat features K :
  nrows feat = 20 → ncols feat = 512 → rect 20 512 features →
  is_Some (add_unlinkability feat features K)
  ↔ ∃ k0 k2 k3, K !! 0 = Some k0 ∧ K !! 2 = Some k2 ∧ K !! 3 = Some k3
      ∧ usable_row groups k0 ∧ usable_row groups k2 ∧ usable_row groups k3.
Proof.
  intros Hr Hc Hf.
  destruct (quad_split features Hf) as (A & B & C & D & -> & HA & HB & HC & HD).
  split.
  - intros Hsome.
    destruct (K !! 0) as [k0|] eqn:H0;
      [|rewrite add_unlinkability_no_key in Hsome by auto; by destruct Hsome].
    destruct (K !! 2) as [k2|] eqn:H2;
      [|rewrite add_unlinkability_no_key in Hsome by auto; by destruct Hsome].
    destruct (K !! 3) as [k3|] eqn:H3;
      [|rewrite add_unlinkability_no_key in Hsome by auto; by destruct Hsome].
    rewrite (add_unlinkability_quad feat A B C D K k0 k2 k3) in Hsome by done.
    exists k0, k2, k3. split_and!; try done.
    + apply (region_perm_is_Some k0 A HA).
      destruct (region_perm k0 A); [done|by destruct Hsome].
    + apply (region_perm_is_Some k2 B HB).
      destruct (region_perm k0 A); [|by destruct Hsome].
      destruct (region_perm k2 B); [done|by destruct Hsome].
    + apply (region_perm_is_Some k3 D HD).
      destruct (region_perm k0 A); [|by destruct Hsome].
      destruct (region_perm k2 B); [|by destruct Hsome].
      destruct (region_perm k2 C); [|by destruct Hsome].
      destruct (region_perm k3 D); [done|by destruct Hsome].
  - intros (k0 & k2 & k3 & H0 & H2 & H3 & U0 & U2 & U3).
    rewrite (add_unlinkability_quad feat A B C D K k0 k2 k3) by done.
    destruct (proj2 (region_perm_is_Some k0 A HA) U0) as [a ->].
    destruct (proj2 (region_perm_is_Some k2 B HB) U2) as [b ->].
    destruct (proj2 (region_perm_is_Some k2 C HC) U2) as [c ->].
    destruct (proj2 (region_perm_is_Some k3 D HD) U3) as [d ->].
    done.
Qed.

End Keys.

(** ** Lines and file names *)

Lemma rstrip_spaces t : spaces t → rstrip t = EmptyString.
Proof.
  unfold spaces. induction t as [|c t IH]; [done|]. cbn.
  intros [Hc Ht]%Forall_cons. by rewrite (IH Ht), Hc.
Qed.

Lemma rstrip_app_spaces s t : spaces t → rstrip (s ++ t) = rstrip s.
Proof.
  intros Ht. induction s as [|c s IH]; cbn.
  - by apply rstrip_spaces.
  - by rewrite IH.
Qed.

Lemma rstrip_split s : ∃ t, s = (rstrip s ++ t)%string ∧ spaces t.
Proof.
  induction s as [|c s (t & Hs & Ht)].
  { exists EmptyString. split; [done|constructor]. }
  cbn. destruct (rstrip s) as [|d r] eqn:Hr.
  - cbn in Hs. subst t. destruct (is_space c) eqn:Hc.
    + exists (String c s). split; [done|]. by constructor.
    + by exists s.
  - exists t. split; [|done]. cbn. by rewrite Hs at 1.
Qed.

Lemma rstrip_last s c :
  last (list_ascii_of_string (rstrip s)) = Some c → is_space c = false.
Proof.
  induction s as [|c0 s IH]; [done|]. cbn.
  destruct (rstrip s) as [|d r] eqn:Hr.
  - destruct (is_space c0) eqn:Hc; [done|]. cbn. by intros [= <-].
  - cbn in *. exact IH.
Qed.

Lemma digit_char_not_space c : digit_char c → is_space c = false.
Proof.
  unfold digit_char, is_space. intros [? ?].
  apply orb_false_iff. split.
  - apply Nat.eqb_neq. lia.
  - apply andb_false_iff. right. apply Nat.leb_gt. lia.
Qed.

Lemma string_length_app s t :
  String.length (s ++ t) = String.length s + String.length t.
Proof. induction s as [|c s IH]; cbn; [done|by rewrite IH]. Qed.

Lemma substring_prefix s t : substring 0 (String.length s) (s ++ t) = s.
Proof.
  induction s as [|c s IH]; cbn; [by destruct t|]. by rewrite IH.
Qed.

Lemma stem_app s e : String.length e = 4 → stem (s ++ e) = s.
Proof.
  intros He. unfold stem. rewrite string_length_app, He.
  replace (String.length s + 4 - 4) with (String.length s) by lia.
  apply substring_prefix.
Qed.

Lemma stem_short s : String.length s ≤ 4 → stem s = EmptyString.
Proof.
  intros Hs. unfold stem.
  replace (String.length s - 4) with 0 by lia. by destruct s.
Qed.

(** ** Runs *)

Section Run.

Context (extract : matrix → option matrix) (key : matrix) (DB : string).

(** Any run: the templates of the first [n] files are saved, in order;
    the names of these files are printed, and after them the name of the
    file that raised, if one did. *)
Lemma extract_all_log files w w' o :
  extract_all extract key DB files w = (w', o) →
  ∃ n, n ≤ length files
       ∧ Forall (λ f, is_Some (process_sample extract key f.2)) (take n files)
       ∧ saved w' = saved w ++ outputs extract key DB (take n files)
       ∧ length (outputs extract key DB (take n files)) = n
       ∧ match o with
         | Finished =>
             n = length files
             ∧ stdout w' = stdout w ++ (stem ∘ fst <$> files)
         | Raised =>
             ∃ f, files !! n = Some f
                  ∧ process_sample extract key f.2 = None
                  ∧ stdout w'
                    = stdout w ++ (stem ∘ fst <$> take n files) ++ [stem f.1]
         end.
Proof.
  revert w. induction files as [|[fn lines] files IH]; intros w H.
  - cbn in H. injection H as <- <-. exists 0. cbn. rewrite !app_nil_r.
    split_and!; done.
  - change (extract_all extract key DB ((fn, lines) :: files) w)
      with (match process_sample extract key lines with
            | None => (print (stem fn) w, Raised)
            | Some bfs =>
                extract_all extract key DB files
                  (savetxt (out_path DB fn) bfs (print (stem fn) w))
            end) in H.
    destruct (process_sample extract key lines) as [bfs|] eqn:Hbfs.
    + destruct (IH _ H) as (n & Hn & Hok & Hsaved & Hlen & Ho).
      exists (S n). cbn [take length].
      rewrite outputs_cons, Hbfs. split_and!.
      * lia.
      * constructor; [by exists bfs|done].
      * rewrite Hsaved. cbn. by rewrite <- app_assoc.
      * cbn. by rewrite Hlen.
      * destruct o.
        -- destruct Ho as [-> Hout]. split; [done|].
           rewrite Hout. cbn. by rewrite <- app_assoc.
        -- destruct Ho as (f & Hf & Hnone & Hout). exists f.
           split_and!; [done..|]. rewrite Hout. cbn.
           by rewrite <- !app_assoc.
    + injection H as <- <-. exists 0. cbn. rewrite app_nil_r.
      split; [lia|]. split; [constructor|]. split; [done|]. split; [done|].
      by exists (fn, lines).
Qed.

Lemma outputs_Forall (Q : string * matrix → Prop) files :
  (∀ fn lines bfs, process_sample extract key lines = Some bfs →
                   Q (out_path DB fn, bfs)) →
  Forall Q (outputs extract key DB files).
Proof.
  intros HQ. induction files as [|[fn lines] files IH]; [constructor|].
  rewrite outputs_cons.
  destruct (process_sample extract key lines) as [bfs|] eqn:Hbfs; [|done].
  constructor; [by eapply HQ|done].
Qed.

Lemma process_sample_extract lines bfs :
  process_sample extract key lines = Some bfs →
  ∃ featUnlink, extract featUnlink = Some bfs.
Proof.
  unfold process_sample.
  destruct (load lines) as [[feat|?]|]; [|done..]. cbn.
  destruct (add_unlinkability feat feat key) as [R|]; [|done]. cbn. eauto.
Qed.

End Run.

(** What the encoders return is a template: 32 rows of 1024 entries, each
    0 or 1. *)
Lemma extractor_template nXORKeys xorKeys featUnlink t :
  extractor nXORKeys xorKeys featUnlink = Some t → is_matrix 32 1024 t.
Proof.
  unfold extractor. case_decide.
  - intros Ht. split.
    + exact (extract_with_length _ _ _ Ht).
    + apply (extract_with_rows_inv _ _ (Forall bit) _ Ht).
      intros block bf Hbf. by apply encode_block_bits in Hbf as [_ ?].
  - intros Ht. split.
    + exact (extract_with_length _ _ _ Ht).
    + apply (extract_with_rows_inv _ _ (Forall bit) _ Ht).
      intros block bf Hbf. by apply encode_block_XOR_bits in Hbf as [_ ?].
Qed.

(** ** The permutation as a rearrangement *)

Lemma is_perm_Permutation n k : is_perm n k → k ≡ₚ Z.of_nat <$> seq 0 n.
Proof.
  intros (Hlen & Hnd & Hr). apply submseteq_length_Permutation.
  - apply NoDup_submseteq; [done|]. intros x Hx.
    rewrite Forall_forall in Hr. specialize (Hr x Hx).
    apply list_elem_of_fmap. exists (Z.to_nat x).
    split; [lia | apply elem_of_seq; lia].
  - rewrite length_fmap, length_seq. lia.
Qed.

Lemma mapM_Permutation {A B} (f : A → option B) l l' r :
  l ≡ₚ l' → mapM f l = Some r → ∃ r', mapM f l' = Some r' ∧ r ≡ₚ r'.
Proof.
  intros Hp. revert r. induction Hp as [|x l l' _ IH|x y l|l l1 l2 _ IH1 _ IH2];
    intros r Hr.
  - by exists r.
  - cbn in *. destruct (f x) as [b|]; [|done]. cbn in *.
    destruct (mapM f l) as [r0|]; [|done]. cbn in Hr. injection Hr as <-.
    destruct (IH r0 eq_refl) as (r' & -> & Hr'). exists (b :: r').
    split; [done|]. by constructor.
  - cbn in *. destruct (f y) as [c|]; [|done]. cbn in *.
    destruct (f x) as [b|]; [|done]. cbn in *.
    destruct (mapM f l) as [r0|]; [|done]. cbn in Hr. injection Hr as <-.
    exists (b :: c :: r0). split; [done|]. apply perm_swap.
  - destruct (IH1 r Hr) as (r1 & Hr1 & Hp1).
    destruct (IH2 r1 Hr1) as (r2 & Hr2 & Hp2).
    exists r2. split; [done|]. by etrans.
Qed.

Lemma take_rows_id R : take_rows R (Z.of_nat <$> seq 0 (length R)) = Some R.
Proof.
  apply mapM_Some_2, Forall2_same_length_lookup_2.
  { by rewrite length_fmap, length_seq. }
  intros j i row Hi Hrow. rewrite list_lookup_fmap in Hi.
  pose proof (lookup_lt_Some _ _ _ Hrow) as Hj.
  rewrite lookup_seq_lt in Hi by done. cbn in Hi. injection Hi as <-.
  rewrite index_in_range by lia. cbn. by rewrite Nat2Z.id.
Qed.

Lemma take_rows_Permutation n k R rows :
  is_perm n k → length R = n → take_rows R k = Some rows → rows ≡ₚ R.
Proof.
  intros Hk HR Hrows.
  destruct (mapM_Permutation _ _ _ _ (is_perm_Permutation n k Hk) Hrows)
    as (r' & Hr' & Hp).
  rewrite <- HR in Hr'. fold (take_rows R (Z.of_nat <$> seq 0 (length R))) in Hr'.
  rewrite take_rows_id in Hr'. by injection Hr' as <-.
Qed.

Lemma concat_Permutation_rows (R R' : matrix) :
  R ≡ₚ R' → concat R ≡ₚ concat R'.
Proof.
  induction 1 as [|x l l' _ IH|x y l|l l1 l2 _ IH1 _ IH2]; cbn.
  - done.
  - by rewrite IH.
  - rewrite !app_assoc. f_equiv. apply Permutation_app_comm.
  - by etrans.
Qed.

Lemma concat_hcat A B :
  length A = length B → concat (hcat A B) ≡ₚ concat A ++ concat B.
Proof.
  revert B. induction A as [|a A IH]; intros [|b B] Hl; try done.
  cbn in Hl. unfold hcat. cbn. fold (hcat A B). rewrite IH by lia.
  rewrite <- !app_assoc. f_equiv. rewrite !app_assoc. f_equiv.
  apply Permutation_app_comm.
Qed.

Lemma concat_quad h w A B C D :
  rect h w A → rect h w B → rect h w C → rect h w D →
  concat (quad A B C D) ≡ₚ concat A ++ concat B ++ concat C ++ concat D.
Proof.
  intros [HA _] [HB _] [HC _] [HD _]. unfold quad.
  rewrite concat_app, !concat_hcat by lia. by rewrite <- app_assoc.
Qed.

Lemma region_perm_Permutation k Q Q' :
  rect N_BITS_BF (N_BF_X / 2 * N_WORDS_BF) Q →
  is_perm (N_BITS_BF * N_BF_X / 2) k →
  region_perm k Q = Some Q' → concat Q' ≡ₚ concat Q.
Proof.
  intros HQ Hk. unfold region_perm.
  rewrite (reshape_rect N_BITS_BF (N_BF_X / 2 * N_WORDS_BF)) by done.
  cbn [mbind option_bind].
  destruct (take_rows _ k) as [rows|] eqn:Hrows; [|done].
  cbn [mbind option_bind]. intros [_ ->]%reshape_Some.
  assert (length (concat Q) = N_BITS_BF * N_BF_X / 2 * N_WORDS_BF) as HcQ
    by (by rewrite (concat_length_rect _ _ _ HQ)).
  rewrite <- (concat_chunks (N_BITS_BF * N_BF_X / 2) N_WORDS_BF (concat Q))
    by done.
  apply concat_Permutation_rows.
  eapply take_rows_Permutation; [exact Hk| |exact Hrows].
  apply chunks_length.
Qed.

(** With valid key material the result holds the entries of the array,
    each as often as the array does. *)
Lemma add_unlinkability_Permutation feat features K m :
  nrows feat = 20 → ncols feat = 512 → rect 20 512 features → valid_key K →
  add_unlinkability feat features K = Some m →
  concat m ≡ₚ concat features.
Proof.
  intros Hr Hc Hf HK.
  destruct (valid_key_rows K HK) as (k0 & k1 & k2 & k3 & -> & H0 & _ & H2 & H3).
  destruct (quad_split features Hf) as (A & B & C & D & -> & HA & HB & HC & HD).
  rewrite (add_unlinkability_quad feat A B C D _ k0 k2 k3) by done.
  destruct (region_perm k0 A) as [a|] eqn:Ha; [|done].
  destruct (region_perm k2 B) as [b|] eqn:Hb; [|done].
  destruct (region_perm k2 C) as [c|] eqn:Hc'; [|done].
  destruct (region_perm k3 D) as [d|] eqn:Hd; [|done].
  cbn [mbind option_bind]. intros [= <-].
  rewrite (concat_quad N_BITS_BF (N_BF_X / 2 * N_WORDS_BF) A B C D) by done.
  rewrite (concat_quad N_BITS_BF (N_BF_X / 2 * N_WORDS_BF) a b c d)
    by (by eapply region_perm_rect).
  by rewrite (region_perm_Permutation k0 A a), (region_perm_Permutation k2 B b),
    (region_perm_Permutation k2 C c), (region_perm_Permutation k3 D d).
Qed.

(** ** Samples that load *)

Lemma chars_app_spaces line t : spaces t → chars (line ++ t) = chars line.
Proof. intros Ht. unfold chars. by rewrite rstrip_app_spaces. Qed.

Lemma parsed_unique lines M1 M2 : parsed lines M1 → parsed lines M2 → M1 = M2.
Proof.
  unfold parsed. intros H1 H2.
  eapply Forall2_unique; [exact H1|exact H2|].
  intros cs r1 r2 Hr1 Hr2.
  eapply Forall2_unique; [exact Hr1|exact Hr2|]. congruence.
Qed.

Lemma load_None lines :
  Exists (λ line, Exists (λ c, ¬ digit_char c) (chars line)) lines →
  load lines = None.
Proof.
  intros Hbad. unfold load.
  assert (mapM parse_line lines = None) as ->; [|done].
  apply mapM_None_2. eapply Exists_impl; [exact Hbad|].
  intros line Hline. cbv beta in Hline.
  destruct (parse_line line) as [row|] eqn:Hrow; [|done].
  assert (is_Some (parse_line line)) as Hs by (by rewrite Hrow).
  apply parse_line_is_Some in Hs. by apply Exists_not_Forall in Hline.
Qed.

Lemma load_not_Array2 lines M :
  lines = [] ∨ (∃ l1 l2, l1 ∈ lines ∧ l2 ∈ lines
                         ∧ length (chars l1) ≠ length (chars l2)) →
  load lines ≠ Some (Array2 M).
Proof.
  intros Hragged Hload. apply load_Array2 in Hload as [Hp (n & c & HM)].
  destruct Hragged as [->|(l1 & l2 & H1 & H2 & Hne)].
  - unfold parsed in Hp. apply Forall2_length in Hp.
    destruct HM as [HMl _]. cbn in Hp. lia.
  - destruct HM as [_ Hrows]. apply (parsed_lengths lines M c Hp) in Hrows.
    rewrite Forall_forall in Hrows.
    rewrite (Hrows l1 H1), (Hrows l2 H2) in Hne. done.
Qed.

Lemma accepted_load lines :
  accepted lines →
  ∃ M n' e, load lines = Some (Array2 M) ∧ rect (20 + n') (512 + e) M
            ∧ parsed lines M.
Proof.
  intros (n' & e & Hlen & Hcols & Hdig & _).
  destruct (mapM_is_Some_2 parse_line lines) as [M HMp].
  { eapply Forall_impl; [exact Hdig|]. intros line Hl.
    by apply parse_line_is_Some. }
  assert (parsed lines M) as Hp.
  { unfold parsed. apply Forall2_fmap_l. apply mapM_Some_1 in HMp.
    eapply Forall2_impl; [exact HMp|]. intros line row.
    apply parse_line_Some. }
  assert (rect (20 + n') (512 + e) M) as HM.
  { split.
    - unfold parsed in Hp. apply Forall2_length in Hp.
      rewrite length_fmap in Hp. lia.
    - by apply (parsed_lengths lines M _ Hp). }
  exists M, n', e. split; [|done].
  apply load_Array2. split; [done|]. by exists (19 + n'), (512 + e).
Qed.

Lemma parsed_region_eq lines lines' M M' :
  parsed lines M → parsed lines' M' →
  take 512 ∘ chars <$> take 20 lines = take 512 ∘ chars <$> take 20 lines' →
  take 512 <$> take 20 M = take 512 <$> take 20 M'.
Proof.
  intros Hp Hp' Heq.
  assert (∀ ls N, parsed ls N →
            Forall2 (Forall2 (λ c a, int_char c = Some a))
              (take 512 ∘ chars <$> take 20 ls) (take 512 <$> take 20 N))
    as Hreg.
  { intros ls N HN. unfold parsed in HN.
    rewrite list_fmap_compose, (fmap_take chars).
    apply Forall2_fmap, (Forall2_take _ _ _ 20).
    eapply Forall2_impl; [exact HN|]. intros cs row.
    apply Forall2_take. }
  pose proof (Hreg _ _ Hp) as H1. pose proof (Hreg _ _ Hp') as H2.
  rewrite Heq in H1.
  eapply Forall2_unique; [exact H1|exact H2|].
  intros cs r1 r2 Hr1 Hr2.
  eapply Forall2_unique; [exact Hr1|exact Hr2|]. congruence.
Qed.

(** * The encoders: main results *)

(** C1.  For every binary block of shape [N_BITS_BF × N_WORDS_BF], the
    baseline encoder produces a Bloom vector of length [BF_SIZE = 2^B]
    with 0/1 entries whose 1-bits are exactly the locations of the block's
    columns, a column's location being the column read top-to-bottom as a
    binary number, most significant bit first; hence at most [N_WORDS_BF]
    bits are set.  Wherever the block sits in a matrix that
    [extract_BFs_from_iriscode] encodes, that vector is the block's row of
    the template. *)
Theorem baseline_block_bits (block : matrix) :
  is_block block →
  (∃ bf, encode_block block = Some bf
         ∧ length bf = BF_SIZE ∧ Forall bit bf
         ∧ (∀ i, i < BF_SIZE →
              (bf !! i = Some 1%Z ↔
               ∃ w hist, w < N_WORDS_BF ∧ column block w = Some hist
                         ∧ loc hist = Z.of_nat i))
         ∧ count_ones bf ≤ N_WORDS_BF)
  ∧ (∀ feat x y template,
       x < N_BF_X → y < N_BF_Y → block_at feat x y = block →
       extract_BFs_from_iriscode feat = Some template →
       template !! (x * N_BF_Y + y) = encode_block block).
Proof.
  intros Hblock. split.
  - destruct (encode_block_marked block Hblock) as (bf & Hbf & Hlen & Hbits & HS).
    exists bf. split_and!; [done..|].
    unfold encode_block in Hbf. apply count_ones_loop in Hbf.
    rewrite count_ones_zeros, length_seq in Hbf. lia.
  - intros feat x y template Hx Hy <- Ht.
    destruct (extract_with_lookup _ _ _ x y Ht Hx Hy) as (bf & -> & -> & _).
    done.
Qed.

Lemma baseline_block_bits_witness :
  is_block Sample.ones_block
  ∧ ∃ bf, encode_block Sample.ones_block = Some bf
          ∧ count_ones bf ≤ N_WORDS_BF.
Proof.
  assert (is_block Sample.ones_block) as H.
  { apply (bool_decide_unpack _). vm_compute. exact I. }
  split; [exact H|].
  destruct (baseline_block_bits Sample.ones_block H)
    as [(bf & Hbf & _ & _ & _ & Hc) _].
  exists bf. split; [exact Hbf | exact Hc].
Defined.

Lemma lxor_fixed a k : Z.lxor a k = a ↔ k = 0%Z.
Proof.
  split; [|intros ->; apply Z.lxor_0_r].
  intros H. apply (f_equal (Z.lxor a)) in H.
  by rewrite <- Z.lxor_assoc, Z.lxor_nilpotent, Z.lxor_0_l in H.
Qed.

(** C2.  For every set of keys in [0, 2^B) and every binary block, the
    fusion encoder produces a Bloom vector whose 1-bits are exactly the
    values [loc(col) XOR k] for the columns [col] of the block and the
    keys [k]; the index written for a column and a key is the column's
    location itself only for the key 0.  That vector is the block's row of
    the template of [extract_BFs_from_iriscode_XOR]; and with the single
    key 0 the fusion encoder returns, on every matrix, what the baseline
    encoder returns. *)
Theorem fusion_block_bits (keys : list Z) (block : matrix) :
  keys_in_range keys → is_block block →
  (∃ bf, encode_block_XOR keys block = Some bf
         ∧ length bf = BF_SIZE ∧ Forall bit bf
         ∧ (∀ i, i < BF_SIZE →
              (bf !! i = Some 1%Z ↔
               ∃ w hist k, w < N_WORDS_BF ∧ column block w = Some hist
                           ∧ k ∈ keys
                           ∧ Z.lxor (loc hist) k = Z.of_nat i)))
  ∧ (∀ w hist k, column block w = Some hist → k ∈ keys →
       (Z.lxor (loc hist) k = loc hist ↔ k = 0%Z))
  ∧ (∀ feat x y template,
       x < N_BF_X → y < N_BF_Y → block_at feat x y = block →
       extract_BFs_from_iriscode_XOR feat keys = Some template →
       template !! (x * N_BF_Y + y) = encode_block_XOR keys block)
  ∧ (∀ feat,
       extract_BFs_from_iriscode_XOR feat [0%Z] = extract_BFs_from_iriscode feat).
Proof.
  intros Hkeys Hblock. split_and!.
  - destruct (encode_block_XOR_marked keys block Hblock Hkeys)
      as (bf & Hbf & Hlen & Hbits & HS).
    by exists bf.
  - intros w hist k _ _. apply lxor_fixed.
  - intros feat x y template Hx Hy <- Ht.
    destruct (extract_with_lookup _ _ _ x y Ht Hx Hy) as (bf & -> & -> & _).
    done.
  - intros feat. apply extract_with_ext, encode_block_XOR_zero.
Qed.

Lemma fusion_block_bits_witness :
  keys_in_range [5; 0]%Z ∧ is_block Sample.ones_block
  ∧ ∃ bf, encode_block_XOR [5; 0]%Z Sample.ones_block = Some bf
          ∧ length bf = BF_SIZE.
Proof.
  assert (keys_in_range [5; 0]%Z) as Hk.
  { apply (bool_decide_unpack _). vm_compute. exact I. }
  assert (is_block Sample.ones_block) as H.
  { apply (bool_decide_unpack _). vm_compute. exact I. }
  split; [exact Hk|]. split; [exact H|].
  destruct (fusion_block_bits [5; 0]%Z Sample.ones_block Hk H)
    as [(bf & Hbf & Hlen & _) _].
  exists bf. split; [exact Hbf | exact Hlen].
Defined.

Lemma template_shape_aux (feat : matrix) :
  is_matrix 20 512 feat →
  (∃ t, extract_BFs_from_iriscode feat = Some t ∧ is_matrix 32 1024 t)
  ∧ (∀ keys, keys_in_range keys →
       ∃ t, extract_BFs_from_iriscode_XOR feat keys = Some t
            ∧ is_matrix 32 1024 t)
  ∧ (∀ keys t, extract_BFs_from_iriscode_XOR feat keys = Some t →
       is_matrix 32 1024 t).
Proof.
  intros Hfeat.
  assert (∀ keys t, extract_BFs_from_iriscode_XOR feat keys = Some t →
                    is_matrix 32 1024 t) as Hxor.
  { intros keys t Ht. split.
    - exact (extract_with_length _ _ _ Ht).
    - apply (extract_with_rows_inv _ _ (Forall bit) _ Ht).
      intros block bf Hbf. by apply encode_block_XOR_bits in Hbf as [_ ?]. }
  split_and!; [| |done].
  - destruct (extract_with_total encode_block feat) as [t Ht].
    { intros x y Hx Hy.
      destruct (encode_block_marked (block_at feat x y)) as (bf & ? & ? & _).
      - by apply block_at_is_block.
      - by exists bf. }
    exists t. split; [done|]. split.
    + exact (extract_with_length _ _ _ Ht).
    + apply (extract_with_rows_inv _ _ (Forall bit) _ Ht).
      intros block bf Hbf. by apply encode_block_bits in Hbf as [_ ?].
  - intros keys Hkeys.
    destruct (extract_with_total (encode_block_XOR keys) feat) as [t Ht].
    { intros x y Hx Hy.
      destruct (encode_block_XOR_marked keys (block_at feat x y))
        as (bf & ? & ? & _); [|done|].
      - by apply block_at_is_block.
      - by exists bf. }
    exists t. split; [done|]. by eapply Hxor.
Qed.

(** C5.  For every binary input matrix of the reference shape 20×512, the
    template returned by either encoder has exactly 32 rows of length
    1024, with every entry 0 or 1: the baseline encoder returns such a
    template, the fusion encoder returns one for every key list within
    [0, 2^B), and whatever the keys, a template the fusion encoder returns
    has this shape. *)
Theorem template_shape (feat : matrix) :
  is_matrix 20 512 feat →
  (∃ t, extract_BFs_from_iriscode feat = Some t ∧ is_matrix 32 1024 t)
  ∧ (∀ keys, keys_in_range keys →
       ∃ t, extract_BFs_from_iriscode_XOR feat keys = Some t
            ∧ is_matrix 32 1024 t)
  ∧ (∀ keys t, extract_BFs_from_iriscode_XOR feat keys = Some t →
       is_matrix 32 1024 t).
Proof. apply template_shape_aux. Qed.

Lemma template_shape_witness :
  is_matrix 20 512 Sample.striped_code
  ∧ ∃ t, extract_BFs_from_iriscode Sample.striped_code = Some t
         ∧ is_matrix 32 1024 t.
Proof.
  assert (is_matrix 20 512 Sample.striped_code) as H.
  { apply (bool_decide_unpack _). vm_compute. exact I. }
  split; [exact H|].
  exact (proj1 (template_shape Sample.striped_code H)).
Defined.

(** A closed comparison of natural numbers, by evaluation. *)
Local Ltac closed_lt := apply Nat.ltb_lt; vm_compute; reflexivity.

Lemma ones_loc : loc (replicate N_BITS_BF 1%Z) = 1023%Z.
Proof. reflexivity. Qed.

(** C7.  For any block whose column 0, read top-to-bottom, is
    [1111111111], the baseline encoder sets bit 1023 of the block's Bloom
    vector.  The fusion encoder with the key list [[5]] sets bit
    [1023 XOR 5 = 1018] for that column, and bit 1023 is set exactly when
    another column of the block produces it. *)
Theorem all_ones_column (block : matrix) :
  is_block block →
  column block 0 = Some (replicate N_BITS_BF 1%Z) →
  (∃ bf, encode_block block = Some bf ∧ bf !! 1023 = Some 1%Z)
  ∧ (∃ bf, encode_block_XOR [5%Z] block = Some bf
           ∧ Z.lxor 1023 5 = 1018%Z
           ∧ bf !! 1018 = Some 1%Z
           ∧ (bf !! 1023 = Some 1%Z ↔
              ∃ w hist, 0 < w < N_WORDS_BF ∧ column block w = Some hist
                        ∧ Z.lxor (loc hist) 5 = 1023%Z)).
Proof.
  intros Hblock Hcol. split.
  - destruct (encode_block_marked block Hblock) as (bf & Hbf & _ & _ & HS).
    exists bf. split; [done|]. apply HS; [closed_lt|].
    exists 0, (replicate N_BITS_BF 1%Z). split_and!; [closed_lt | done..].
  - destruct (encode_block_XOR_marked [5%Z] block Hblock)
      as (bf & Hbf & _ & _ & HS).
    { apply (bool_decide_unpack _). by vm_compute. }
    exists bf. split_and!; [done | done | |].
    + apply HS; [closed_lt|].
      exists 0, (replicate N_BITS_BF 1%Z), 5%Z.
      split_and!; [closed_lt | done | by apply list_elem_of_singleton | done].
    + rewrite HS by closed_lt. split.
      * intros (w & hist & k & Hw & Hh & Hk & Hx).
        apply list_elem_of_singleton in Hk as ->.
        exists w, hist. split_and!; [|done..].
        destruct w; [|lia]. rewrite Hcol in Hh. simplify_eq.
      * intros (w & hist & Hw & Hh & Hx). exists w, hist, 5%Z.
        split_and!; [lia | done | by apply list_elem_of_singleton | done].
Qed.

Lemma all_ones_column_witness :
  is_block Sample.ones_block
  ∧ column Sample.ones_block 0 = Some (replicate N_BITS_BF 1%Z)
  ∧ ∃ bf, encode_block Sample.ones_block = Some bf ∧ bf !! 1023 = Some 1%Z.
Proof.
  assert (is_block Sample.ones_block) as H.
  { apply (bool_decide_unpack _). vm_compute. exact I. }
  assert (column Sample.ones_block 0 = Some (replicate N_BITS_BF 1%Z)) as Hc.
  { vm_compute. reflexivity. }
  split; [exact H|]. split; [exact Hc|].
  exact (proj1 (all_ones_column Sample.ones_block H Hc)).
Defined.

(** C10.  When every key lies in [0, 2^B) and every entry of the block is 0
    or 1, every index [location XOR k] that the fusion encoder writes lies
    in [0, 2^B): the write into a vector of length [BF_SIZE] succeeds, the
    encoder returns a vector for the block, and
    [extract_BFs_from_iriscode_XOR] returns a template for every binary
    matrix of the reference shape. *)
Theorem fusion_writes_in_bounds (keys : list Z) :
  keys_in_range keys →
  (∀ block, is_block block →
     (∀ w k, w < N_WORDS_BF → k ∈ keys →
        ∃ hist location,
          column block w = Some hist ∧ location_of hist = Some location
          ∧ (0 ≤ Z.lxor location k < 2 ^ Z.of_nat N_BITS_BF)%Z
          ∧ ∀ bf, length bf = BF_SIZE →
                  is_Some (setitem bf (Z.lxor location k) 1%Z))
     ∧ is_Some (encode_block_XOR keys block))
  ∧ (∀ feat, is_matrix 20 512 feat →
       is_Some (extract_BFs_from_iriscode_XOR feat keys)).
Proof.
  intros Hkeys. split.
  - intros block Hblock. split.
    + intros w k Hw Hk.
      destruct (location_block block w Hblock Hw) as (hist & Hh & Hl & Hr).
      exists hist, (loc hist). split; [done|]. split; [done|]. split.
      * unfold keys_in_range in Hkeys. rewrite Forall_forall in Hkeys.
        specialize (Hkeys k Hk). rewrite bf_size_pow in *.
        apply lxor_bound; lia.
      * intros bf Hlen. unfold setitem. rewrite Hlen, index_in_range; [done|].
        unfold keys_in_range in Hkeys. rewrite Forall_forall in Hkeys.
        specialize (Hkeys k Hk). rewrite bf_size_pow in *.
        apply lxor_bound; lia.
    + destruct (encode_block_XOR_marked keys block Hblock Hkeys) as (bf & -> & _).
      done.
  - intros feat Hfeat.
    destruct (proj1 (proj2 (template_shape_aux feat Hfeat)) keys Hkeys)
      as (t & Ht & _).
    by exists t.
Qed.

Lemma fusion_writes_in_bounds_witness :
  keys_in_range [5%Z; 1023%Z]
  ∧ is_Some (extract_BFs_from_iriscode_XOR Sample.striped_code [5%Z; 1023%Z]).
Proof.
  assert (keys_in_range [5%Z; 1023%Z]) as Hk.
  { apply (bool_decide_unpack _). vm_compute. exact I. }
  assert (is_matrix 20 512 Sample.striped_code) as Hm.
  { apply (bool_decide_unpack _). vm_compute. exact I. }
  split; [exact Hk|].
  exact (proj2 (fusion_writes_in_bounds [5%Z; 1023%Z] Hk) Sample.striped_code Hm).
Defined.

(** * The unlinkability permutation: main results *)

(** C3.  For every matrix of the expected shape 20×512 and every key
    material whose four rows are bijections over [0, 80), applying
    [add_unlinkability] with the key material and then with the key
    material of the inverse permutations reproduces the matrix. *)
Theorem unlinkability_inverse feat features K :
  nrows feat = 20 → ncols feat = 512 → rect 20 512 features → valid_key K →
  ∃ m, add_unlinkability feat features K = Some m
       ∧ rect 20 512 m
       ∧ add_unlinkability feat m (inverse_key K) = Some features.
Proof. apply unlinkability_inverse_aux. Qed.

Lemma unlinkability_inverse_witness :
  nrows Sample.striped_code = 20 ∧ ncols Sample.striped_code = 512
  ∧ rect 20 512 Sample.striped_code ∧ valid_key Sample.key
  ∧ ∃ m, add_unlinkability Sample.striped_code Sample.striped_code Sample.key
         = Some m
         ∧ rect 20 512 m
         ∧ add_unlinkability Sample.striped_code m (inverse_key Sample.key)
           = Some Sample.striped_code.
Proof.
  assert (nrows Sample.striped_code = 20) as Hr by (vm_compute; reflexivity).
  assert (ncols Sample.striped_code = 512) as Hc by (vm_compute; reflexivity).
  assert (rect 20 512 Sample.striped_code) as Hf.
  { apply (bool_decide_unpack _). vm_compute. exact I. }
  assert (valid_key Sample.key) as HK.
  { apply (bool_decide_unpack _). vm_compute. exact I. }
  split; [exact Hr|]. split; [exact Hc|]. split; [exact Hf|].
  split; [exact HK|].
  exact (unlinkability_inverse _ _ _ Hr Hc Hf HK).
Defined.

Lemma permute_region_key P aux K K' j r0 r1 c0 c1 :
  K !! j = K' !! j →
  permute_region P aux K j r0 r1 c0 c1 = permute_region P aux K' j r0 r1 c0 c1.
Proof. intros H. unfold permute_region. by rewrite H. Qed.

(** C9.  The result of [add_unlinkability] does not depend on row 1 of the
    key material: two key materials that agree on rows 0, 2 and 3 give the
    same result, exceptions included, on every input.  Rows 0, 2 and 3 are
    the ones used, row 2 for two quadrants: the top right and the bottom
    left one. *)
Theorem key_row_1_unused :
  (∀ feat features K K',
     K !! 0 = K' !! 0 → K !! 2 = K' !! 2 → K !! 3 = K' !! 3 →
     add_unlinkability feat features K = add_unlinkability feat features K')
  ∧ (∀ feat A B C D K k0 k2 k3,
       nrows feat = 20 → ncols feat = 512 →
       rect 10 256 A → rect 10 256 B → rect 10 256 C → rect 10 256 D →
       K !! 0 = Some k0 → K !! 2 = Some k2 → K !! 3 = Some k3 →
       add_unlinkability feat (quad A B C D) K
       = a ← region_perm k0 A; b ← region_perm k2 B;
         c ← region_perm k2 C; d ← region_perm k3 D;
         Some (quad a b c d)).
Proof.
  split.
  - intros feat features K K' H0 H2 H3. unfold add_unlinkability.
    repeat (destruct (reshape _ _ _) as [?|]; [|done]; cbn [mbind option_bind]).
    rewrite (permute_region_key _ _ K K' 0) by done.
    destruct (permute_region _ _ K' 0 _ _ _ _); [|done]. cbn [mbind option_bind].
    rewrite (permute_region_key _ _ K K' 2) by done.
    destruct (permute_region _ _ K' 2 _ _ _ _); [|done]. cbn [mbind option_bind].
    rewrite (permute_region_key _ _ K K' 2) by done.
    destruct (permute_region _ _ K' 2 _ _ _ _); [|done]. cbn [mbind option_bind].
    rewrite (permute_region_key _ _ K K' 3) by done. done.
  - intros. by apply add_unlinkability_quad.
Qed.

Lemma key_row_1_unused_witness :
  add_unlinkability Sample.striped_code Sample.striped_code Sample.key_id
  = add_unlinkability Sample.striped_code Sample.striped_code
      [Sample.id_perm; Sample.rev_perm; Sample.id_perm; Sample.id_perm].
Proof.
  apply (proj1 key_row_1_unused); reflexivity.
Defined.

(** C4 (evaluation at the failing input).  The top right quadrant is
    permuted with key row 2, not with a key row of its own: the key
    materials [Sample.key_id] and [Sample.key_row2] agree on rows 0, 1 and
    3, and on the same matrix the results differ in the top right
    quadrant. *)
Theorem quadrant_2_uses_key_row_2 :
  valid_key Sample.key_id ∧ valid_key Sample.key_row2
  ∧ Sample.key_id !! 0 = Sample.key_row2 !! 0
  ∧ Sample.key_id !! 1 = Sample.key_row2 !! 1
  ∧ Sample.key_id !! 3 = Sample.key_row2 !! 3
  ∧ ∃ m m',
      add_unlinkability Sample.striped_code Sample.striped_code Sample.key_id
      = Some m
      ∧ add_unlinkability Sample.striped_code Sample.striped_code
          Sample.key_row2 = Some m'
      ∧ slice2 0 10 256 512 m ≠ slice2 0 10 256 512 m'.
Proof.
  split_and!; [apply (bool_decide_unpack _); by vm_compute.. | done | done | done |].
  eexists _, _. split; [vm_compute; reflexivity|].
  split; [vm_compute; reflexivity|].
  apply (bool_decide_unpack _). vm_compute. exact I.
Qed.

Lemma one_hot_row i :
  i < 1024 → ((1%Z :: replicate 1023 0%Z) !! i = Some 1%Z ↔ i = 0).
Proof.
  intros Hi. destruct i as [|i]; [done|].
  change ((1%Z :: replicate 1023 0%Z) !! S i) with (replicate 1023 0%Z !! i).
  rewrite lookup_replicate_2 by lia. split; [done|lia].
Qed.

(** C6.  For the all-zero 20×512 matrix and any valid key material, the
    permutation followed by the baseline encoder gives a template of 32
    rows of length 1024, each with exactly one 1-bit, at index 0. *)
Theorem zero_code_template K :
  valid_key K →
  ∃ m t, add_unlinkability Sample.zero_code Sample.zero_code K = Some m
         ∧ extract_BFs_from_iriscode m = Some t
         ∧ is_matrix 32 1024 t
         ∧ Forall (λ row, ∀ i, i < 1024 → (row !! i = Some 1%Z ↔ i = 0)) t.
Proof.
  intros HK.
  destruct (valid_key_rows K HK) as (k0 & k1 & k2 & k3 & -> & H0 & _ & H2 & H3).
  exists Sample.zero_code, (replicate 32 (1%Z :: replicate 1023 0%Z)).
  split_and!.
  - unfold Sample.zero_code. rewrite zeros2_quad at 2.
    pose proof zeros2_rect as Hz.
    rewrite (add_unlinkability_quad (zeros2 20 512) _ _ _ _ [k0; k1; k2; k3]
               k0 k2 k3 eq_refl eq_refl
               Hz Hz Hz Hz eq_refl eq_refl eq_refl).
    destruct H0 as (? & _ & ?), H2 as (? & _ & ?), H3 as (? & _ & ?).
    by rewrite !region_perm_zeros.
  - vm_compute. reflexivity.
  - apply (bool_decide_unpack _). by vm_compute.
  - apply Forall_replicate. apply one_hot_row.
Qed.

Lemma zero_code_template_witness :
  valid_key Sample.key
  ∧ ∃ m t, add_unlinkability Sample.zero_code Sample.zero_code Sample.key
           = Some m
           ∧ extract_BFs_from_iriscode m = Some t
           ∧ is_matrix 32 1024 t
           ∧ Forall (λ row, ∀ i, i < 1024 → (row !! i = Some 1%Z ↔ i = 0)) t.
Proof.
  assert (valid_key Sample.key) as HK.
  { apply (bool_decide_unpack _). vm_compute. exact I. }
  split; [exact HK|]. exact (zero_code_template Sample.key HK).
Defined.

(** * Loading, and the run over the samples: main results *)

(** C8, as the script has it.  When [nXORKeys] is negative or greater
    than 1024, drawing the XOR keys raises: the run ends after its first
    line is printed, before any sample is read, and nothing is saved.
    Otherwise, with valid key material, a sample gets a template exactly
    when it is accepted: at least 20 lines, all of one length of at least
    512 characters once trailing whitespace is removed, decimal digits
    only, and only 0 and 1 within the first 20 lines and 512 columns.  A
    sample that is not accepted raises.  When the samples before it are
    accepted the run ends at it: what is printed is the first line, the
    names of the samples before it and last its own name, each without its
    last four characters; the templates of the samples before it are
    saved, one each, and nothing is saved for it or for the samples after
    it. *)
Theorem rejected_sample_raises key nXORKeys rnd DB good fn lines rest :
  valid_key key →
  (run_keys nXORKeys rnd = None
   ↔ (nXORKeys < 0 ∨ Z.of_nat BF_SIZE < nXORKeys)%Z)
  ∧ (run_keys nXORKeys rnd = None →
     main nXORKeys rnd key DB (good ++ (fn, lines) :: rest)
     = (World [banner] [], Raised))
  ∧ (∀ xorKeys, run_keys nXORKeys rnd = Some xorKeys →
     (is_Some (process_sample (extractor nXORKeys xorKeys) key lines)
      ↔ accepted lines)
     ∧ (Forall (λ f, accepted f.2) good → ¬ accepted lines →
        main nXORKeys rnd key DB (good ++ (fn, lines) :: rest)
        = (World (banner :: (stem ∘ fst <$> good) ++ [stem fn])
                 (outputs (extractor nXORKeys xorKeys) key DB good), Raised)
        ∧ length (outputs (extractor nXORKeys xorKeys) key DB good)
          = length good)).
Proof. apply rejected_sample_raises_aux. Qed.

Lemma rejected_sample_raises_witness :
  valid_key Sample.key
  ∧ run_keys 2 Sample.fives = Some [5%Z; 6%Z]
  ∧ accepted Sample.long_sample
  ∧ ¬ accepted Sample.bad_sample
  ∧ main 2 Sample.fives Sample.key "out/"
      ([("a01.txt"%string, Sample.long_sample)]
       ++ ("bad.txt"%string, Sample.bad_sample)
          :: [("c03.txt"%string, Sample.long_sample)])
    = (World (banner :: ["a01"%string] ++ ["bad"%string])
         (outputs (extractor 2 [5%Z; 6%Z]) Sample.key "out/"
            [("a01.txt"%string, Sample.long_sample)]), Raised)
  ∧ length (outputs (extractor 2 [5%Z; 6%Z]) Sample.key "out/"
              [("a01.txt"%string, Sample.long_sample)]) = 1.
Proof.
  assert (valid_key Sample.key) as HK.
  { apply (bool_decide_unpack _). vm_compute. exact I. }
  assert (run_keys 2 Sample.fives = Some [5%Z; 6%Z]) as Hkeys.
  { vm_compute. reflexivity. }
  assert (accepted Sample.long_sample) as Hgood.
  { exists 0, 1. split; [reflexivity|].
    split; [|split]; apply (bool_decide_unpack _); vm_compute; exact I. }
  assert (¬ accepted Sample.bad_sample) as Hbad.
  { intros (n' & e & Hlen & _). cbn in Hlen. lia. }
  split; [exact HK|]. split; [exact Hkeys|]. split; [exact Hgood|].
  split; [exact Hbad|].
  exact (proj2 (proj2 (proj2 (rejected_sample_raises Sample.key 2
                                Sample.fives "out/"
                                [("a01.txt"%string, Sample.long_sample)]
                                "bad.txt" Sample.bad_sample
                                [("c03.txt"%string, Sample.long_sample)] HK))
                  [5%Z; 6%Z] Hkeys)
           (Forall_cons_2 (λ f : string * list string, accepted f.2)
              ("a01.txt"%string, Sample.long_sample) [] Hgood
              (Forall_nil_2 _)) Hbad).
Defined.

(** C8 does not hold as stated: a sample whose lines have 513 characters
    is not rejected.  The run finishes and saves a template for it. *)
Lemma long_lines_are_accepted :
  Forall (λ line, length (chars line) = 513) Sample.long_sample
  ∧ ∃ t, main 0 Sample.fives Sample.key "out/"
           [("s01.txt"%string, Sample.long_sample)]
         = (World [banner; "s01"%string]
              [("out/s01_BFtemplate.txt"%string, t)], Finished).
Proof.
  split.
  - apply (bool_decide_unpack _). vm_compute. exact I.
  - eexists. vm_compute. reflexivity.
Qed.

(** * Further properties of the permutation *)

Local Ltac by_evaluation := apply (bool_decide_unpack _); vm_compute; exact I.

(** X1.  The result of [add_unlinkability] has the shape of the global
    array [feat] (line 59), whenever that array has at least 20 rows and
    512 columns. *)
Theorem unlinkability_keeps_shape feat features K m :
  20 ≤ nrows feat → 512 ≤ ncols feat →
  add_unlinkability feat features K = Some m →
  rect (nrows feat) (ncols feat) m.
Proof. apply add_unlinkability_shape. Qed.

Lemma unlinkability_keeps_shape_witness :
  20 ≤ nrows Sample.wide_code ∧ 512 ≤ ncols Sample.wide_code
  ∧ add_unlinkability Sample.wide_code Sample.wide_code Sample.key
    = Some (default [] (add_unlinkability Sample.wide_code Sample.wide_code
                          Sample.key))
  ∧ rect 21 513
      (default [] (add_unlinkability Sample.wide_code Sample.wide_code
                     Sample.key)).
Proof.
  assert (20 ≤ nrows Sample.wide_code) as Hr by (vm_compute; lia).
  assert (512 ≤ ncols Sample.wide_code) as Hc by (vm_compute; lia).
  assert (add_unlinkability Sample.wide_code Sample.wide_code Sample.key
          = Some (default [] (add_unlinkability Sample.wide_code
                                Sample.wide_code Sample.key))) as Hm
    by (vm_compute; reflexivity).
  split; [exact Hr|]. split; [exact Hc|]. split; [exact Hm|].
  exact (unlinkability_keeps_shape _ _ _ _ Hr Hc Hm).
Defined.

(** X2.  An array with fewer than 20 rows or fewer than 512 columns makes
    [add_unlinkability] raise, whatever the key material: a region is too
    small for the reshape of lines 62-65. *)
Theorem small_array_raises feat M K n c :
  rect n c M → n < 20 ∨ c < 512 → add_unlinkability feat M K = None.
Proof. apply add_unlinkability_small. Qed.

Lemma small_array_raises_witness :
  rect 19 512 (zeros2 19 512) ∧ (19 < 20 ∨ 512 < 512)
  ∧ add_unlinkability (zeros2 19 512) (zeros2 19 512) Sample.key = None.
Proof.
  assert (rect 19 512 (zeros2 19 512)) as HM by by_evaluation.
  assert (19 < 20 ∨ 512 < 512) as Hs by (left; lia).
  split; [exact HM|]. split; [exact Hs|].
  exact (small_array_raises _ _ Sample.key 19 512 HM Hs).
Defined.

(** X3.  On an array of more than 20 rows or 512 columns,
    [add_unlinkability] permutes the first 20 rows and 512 columns as it
    does for an array of the reference shape, and returns zeros everywhere
    else: what the array holds there is dropped. *)
Theorem unlinkability_outside_region feat F E Zr K n' e :
  nrows feat = 20 + n' → ncols feat = 512 + e →
  rect 20 512 F → length E = 20 →
  add_unlinkability feat (hcat F E ++ Zr) K
  = m ← add_unlinkability (zeros2 20 512) F K;
    Some (hcat m (zeros2 20 e) ++ zeros2 n' (512 + e)).
Proof. apply add_unlinkability_frame. Qed.

Lemma unlinkability_outside_region_witness :
  nrows Sample.wide_code = 20 + 1 ∧ ncols Sample.wide_code = 512 + 1
  ∧ rect 20 512 Sample.striped_code ∧ length (replicate 20 [7%Z]) = 20
  ∧ add_unlinkability Sample.wide_code
      (hcat Sample.striped_code (replicate 20 [7%Z]) ++ [replicate 513 3%Z])
      Sample.key
    = m ← add_unlinkability (zeros2 20 512) Sample.striped_code Sample.key;
      Some (hcat m (zeros2 20 1) ++ zeros2 1 (512 + 1)).
Proof.
  assert (nrows Sample.wide_code = 20 + 1) as Hr by (vm_compute; reflexivity).
  assert (ncols Sample.wide_code = 512 + 1) as Hc
    by (vm_compute; reflexivity).
  assert (rect 20 512 Sample.striped_code) as HF by by_evaluation.
  assert (length (replicate 20 [7%Z]) = 20) as HE by reflexivity.
  split; [exact Hr|]. split; [exact Hc|]. split; [exact HF|].
  split; [exact HE|].
  exact (unlinkability_outside_region Sample.wide_code Sample.striped_code
           (replicate 20 [7%Z]) [replicate 513 3%Z] Sample.key 1 1
           Hr Hc HF HE).
Defined.

(** X4.  With valid key material, the result of [add_unlinkability] on an
    array of the reference shape holds the entries of the array, each as
    often as the array does: entries are moved, none is made, lost or
    changed. *)
Theorem unlinkability_rearranges feat features K m :
  nrows feat = 20 → ncols feat = 512 → rect 20 512 features → valid_key K →
  add_unlinkability feat features K = Some m →
  concat m ≡ₚ concat features.
Proof. apply add_unlinkability_Permutation. Qed.

Lemma unlinkability_rearranges_witness :
  nrows Sample.striped_code = 20 ∧ ncols Sample.striped_code = 512
  ∧ rect 20 512 Sample.striped_code ∧ valid_key Sample.key
  ∧ add_unlinkability Sample.striped_code Sample.striped_code Sample.key
    = Some Sample.unlinked
  ∧ concat Sample.unlinked ≡ₚ concat Sample.striped_code.
Proof.
  assert (nrows Sample.striped_code = 20) as Hr by (vm_compute; reflexivity).
  assert (ncols Sample.striped_code = 512) as Hc by (vm_compute; reflexivity).
  assert (rect 20 512 Sample.striped_code) as Hf by by_evaluation.
  assert (valid_key Sample.key) as HK by by_evaluation.
  assert (add_unlinkability Sample.striped_code Sample.striped_code
            Sample.key = Some Sample.unlinked) as Hm
    by (vm_compute; reflexivity).
  split; [exact Hr|]. split; [exact Hc|]. split; [exact Hf|].
  split; [exact HK|]. split; [exact Hm|].
  exact (unlinkability_rearranges _ _ _ _ Hr Hc Hf HK Hm).
Defined.

(** X5.  On an array of the reference shape [add_unlinkability] returns
    exactly when rows 0, 2 and 3 of the key material exist and each holds
    80 indices within the bounds of numpy indexing, negative ones
    included.  It does not check that a key row is a permutation. *)
Theorem unlinkability_accepted_keys feat features K :
  nrows feat = 20 → ncols feat = 512 → rect 20 512 features →
  is_Some (add_unlinkability feat features K)
  ↔ ∃ k0 k2 k3, K !! 0 = Some k0 ∧ K !! 2 = Some k2 ∧ K !! 3 = Some k3
      ∧ usable_row (N_BITS_BF * N_BF_X / 2) k0
      ∧ usable_row (N_BITS_BF * N_BF_X / 2) k2
      ∧ usable_row (N_BITS_BF * N_BF_X / 2) k3.
Proof. apply add_unlinkability_is_Some. Qed.

Lemma unlinkability_accepted_keys_witness :
  nrows Sample.striped_code = 20 ∧ ncols Sample.striped_code = 512
  ∧ rect 20 512 Sample.striped_code
  ∧ ¬ valid_key [Sample.last_row; []; Sample.last_row; Sample.last_row]
  ∧ is_Some (add_unlinkability Sample.striped_code Sample.striped_code
               [Sample.last_row; []; Sample.last_row; Sample.last_row]).
Proof.
  assert (nrows Sample.striped_code = 20) as Hr by (vm_compute; reflexivity).
  assert (ncols Sample.striped_code = 512) as Hc by (vm_compute; reflexivity).
  assert (rect 20 512 Sample.striped_code) as Hf by by_evaluation.
  assert (usable_row (N_BITS_BF * N_BF_X / 2) Sample.last_row) as Hu
    by by_evaluation.
  split; [exact Hr|]. split; [exact Hc|]. split; [exact Hf|].
  split; [by_evaluation|].
  apply (proj2 (unlinkability_accepted_keys Sample.striped_code
                  Sample.striped_code
                  [Sample.last_row; []; Sample.last_row; Sample.last_row]
                  Hr Hc Hf)).
  exists Sample.last_row, Sample.last_row, Sample.last_row.
  split; [reflexivity|]. split; [reflexivity|]. split; [reflexivity|].
  split; [exact Hu|]. split; [exact Hu|exact Hu].
Defined.

(** X6.  Key material without a row 0, 2 or 3, so any key material of
    fewer than four rows, makes [add_unlinkability] raise, whatever the
    array. *)
Theorem short_key_material_raises feat features K :
  length K < 4 → add_unlinkability feat features K = None.
Proof.
  intros HK. apply add_unlinkability_no_key. right. right.
  apply lookup_ge_None. lia.
Qed.

Lemma short_key_material_raises_witness :
  length [Sample.id_perm; Sample.id_perm; Sample.id_perm] < 4
  ∧ add_unlinkability Sample.striped_code Sample.striped_code
      [Sample.id_perm; Sample.id_perm; Sample.id_perm] = None.
Proof.
  assert (length [Sample.id_perm; Sample.id_perm; Sample.id_perm] < 4)
    as HK by (vm_compute; lia).
  split; [exact HK|].
  exact (short_key_material_raises _ _ _ HK).
Defined.

(** * Further properties of the encoders *)

(** X7.  Both encoders read the first 20 rows and 512 columns of their
    argument only: further columns and rows do not change the template. *)
Theorem encoders_ignore_rest F E Zr :
  rect 20 512 F → length E = 20 →
  extract_BFs_from_iriscode (hcat F E ++ Zr) = extract_BFs_from_iriscode F
  ∧ ∀ keys, extract_BFs_from_iriscode_XOR (hcat F E ++ Zr) keys
            = extract_BFs_from_iriscode_XOR F keys.
Proof.
  intros HF HE. split; [|intros keys]; by apply extract_with_frame.
Qed.

Lemma encoders_ignore_rest_witness :
  rect 20 512 Sample.striped_code ∧ length (replicate 20 [7%Z]) = 20
  ∧ extract_BFs_from_iriscode Sample.wide_code
    = extract_BFs_from_iriscode Sample.striped_code.
Proof.
  assert (rect 20 512 Sample.striped_code) as HF by by_evaluation.
  assert (length (replicate 20 [7%Z]) = 20) as HE by reflexivity.
  split; [exact HF|]. split; [exact HE|].
  exact (proj1 (encoders_ignore_rest Sample.striped_code (replicate 20 [7%Z])
                  [replicate 513 3%Z] HF HE)).
Defined.

(** X8.  On a 20×512 array of decimal digits that holds a digit other
    than 0 and 1, both encoders raise: [int(_, 2)] at lines 93 and 118
    rejects the column that holds it. *)
Theorem encoders_reject_other_digits feat :
  rect 20 512 feat → Forall (Forall digit) feat →
  ¬ Forall (Forall bit) feat →
  extract_BFs_from_iriscode feat = None
  ∧ ∀ keys, extract_BFs_from_iriscode_XOR feat keys = None.
Proof.
  intros Hrect Hdig Hbits.
  assert (∀ encode, reads_columns encode → extract_with encode feat = None)
    as Hnone.
  { intros encode Henc.
    destruct (extract_with encode feat) as [t|] eqn:Ht; [|done].
    destruct Hbits. by eapply extract_with_Some_bits. }
  split.
  - apply Hnone, encode_block_reads.
  - intros keys. apply Hnone, encode_block_XOR_reads.
Qed.

Lemma encoders_reject_other_digits_witness :
  rect 20 512 Sample.digit_code ∧ Forall (Forall digit) Sample.digit_code
  ∧ ¬ Forall (Forall bit) Sample.digit_code
  ∧ extract_BFs_from_iriscode Sample.digit_code = None.
Proof.
  assert (rect 20 512 Sample.digit_code) as Hr by by_evaluation.
  assert (Forall (Forall digit) Sample.digit_code) as Hd by by_evaluation.
  assert (¬ Forall (Forall bit) Sample.digit_code) as Hb by by_evaluation.
  split; [exact Hr|]. split; [exact Hd|]. split; [exact Hb|].
  exact (proj1 (encoders_reject_other_digits _ Hr Hd Hb)).
Defined.

(** X9.  When 0 is among the keys, every bit the baseline encoder sets
    for a block is also set by the fusion encoder. *)
Theorem fusion_with_zero_key_contains_baseline keys block :
  is_block block → keys_in_range keys → 0%Z ∈ keys →
  ∃ bf bfx, encode_block block = Some bf
            ∧ encode_block_XOR keys block = Some bfx
            ∧ ∀ i, bf !! i = Some 1%Z → bfx !! i = Some 1%Z.
Proof.
  intros Hb Hk H0.
  destruct (encode_block_marked block Hb) as (bf & Hbf & Hl & _ & Hm).
  destruct (encode_block_XOR_marked keys block Hb Hk)
    as (bfx & Hbfx & _ & _ & Hmx).
  exists bf, bfx. split; [done|]. split; [done|]. intros i Hi.
  assert (i < BF_SIZE) as Hlt.
  { rewrite <- Hl. by eapply lookup_lt_Some. }
  apply (Hm i Hlt) in Hi as (w & hist & Hw & Hcol & Hloc).
  apply (Hmx i Hlt). exists w, hist, 0%Z.
  split_and!; [done..|]. by rewrite Z.lxor_0_r.
Qed.

Lemma fusion_with_zero_key_contains_baseline_witness :
  is_block Sample.ones_block ∧ keys_in_range [5%Z; 0%Z] ∧ 0%Z ∈ [5%Z; 0%Z]
  ∧ ∃ bf bfx, encode_block Sample.ones_block = Some bf
              ∧ encode_block_XOR [5%Z; 0%Z] Sample.ones_block = Some bfx
              ∧ ∀ i, bf !! i = Some 1%Z → bfx !! i = Some 1%Z.
Proof.
  assert (is_block Sample.ones_block) as Hb by by_evaluation.
  assert (keys_in_range [5%Z; 0%Z]) as Hk by by_evaluation.
  assert (0%Z ∈ [5%Z; 0%Z]) as H0 by by_evaluation.
  split; [exact Hb|]. split; [exact Hk|]. split; [exact H0|].
  exact (fusion_with_zero_key_contains_baseline _ _ Hb Hk H0).
Defined.

(** X10.  The template of the fusion encoder depends on the set of keys
    only, not on their order or on repetitions. *)
Theorem fusion_depends_on_key_set feat keys keys' :
  is_matrix 20 512 feat → keys_in_range keys → (∀ k, k ∈ keys ↔ k ∈ keys') →
  extract_BFs_from_iriscode_XOR feat keys
  = extract_BFs_from_iriscode_XOR feat keys'.
Proof.
  intros Hfeat Hk Heq. unfold extract_BFs_from_iriscode_XOR.
  rewrite !extract_with_rows. apply mapM_ext_Forall, Forall_forall.
  intros [x y] [Hx Hy]%grid_bounds. unfold block_row. cbn [fst snd] in *.
  rewrite (encode_block_XOR_keyset keys keys'); [done| |done..].
  by apply block_at_is_block.
Qed.

Lemma fusion_depends_on_key_set_witness :
  is_matrix 20 512 Sample.striped_code ∧ keys_in_range [5%Z; 9%Z]
  ∧ (∀ k, k ∈ [5%Z; 9%Z] ↔ k ∈ [9%Z; 5%Z; 9%Z])
  ∧ extract_BFs_from_iriscode_XOR Sample.striped_code [5%Z; 9%Z]
    = extract_BFs_from_iriscode_XOR Sample.striped_code [9%Z; 5%Z; 9%Z].
Proof.
  assert (is_matrix 20 512 Sample.striped_code) as Hm by by_evaluation.
  assert (keys_in_range [5%Z; 9%Z]) as Hk by by_evaluation.
  assert (∀ k, k ∈ [5%Z; 9%Z] ↔ k ∈ [9%Z; 5%Z; 9%Z]) as Heq.
  { intros k. rewrite !elem_of_cons, !elem_of_nil. tauto. }
  split; [exact Hm|]. split; [exact Hk|]. split; [exact Heq|].
  exact (fusion_depends_on_key_set _ _ _ Hm Hk Heq).
Defined.

(** X11.  A row of a template of the fusion encoder has at most
    [N_WORDS_BF] 1-bits for each key. *)
Theorem fusion_row_weight feat keys t :
  extract_BFs_from_iriscode_XOR feat keys = Some t →
  Forall (λ row, count_ones row ≤ N_WORDS_BF * length keys) t.
Proof.
  intros Ht.
  pose proof (extract_with_rows_inv _ _
                (λ row, count_ones row ≤ N_WORDS_BF * length keys) _ Ht)
    as Hrows.
  eapply Forall_impl; [apply Hrows|by intros row [_ ?]].
  intros block bf Hbf. unfold encode_block_XOR in Hbf.
  apply count_ones_loop_XOR in Hbf.
  by rewrite count_ones_zeros, length_seq in Hbf.
Qed.

Lemma fusion_row_weight_witness :
  extract_BFs_from_iriscode_XOR Sample.striped_code [5%Z; 9%Z]
  = Some (default [] (extract_BFs_from_iriscode_XOR Sample.striped_code
                        [5%Z; 9%Z]))
  ∧ Forall (λ row, count_ones row ≤ N_WORDS_BF * 2)
      (default [] (extract_BFs_from_iriscode_XOR Sample.striped_code
                     [5%Z; 9%Z])).
Proof.
  assert (extract_BFs_from_iriscode_XOR Sample.striped_code [5%Z; 9%Z]
          = Some (default [] (extract_BFs_from_iriscode_XOR
                                Sample.striped_code [5%Z; 9%Z]))) as Ht
    by (vm_compute; reflexivity).
  split; [exact Ht|].
  exact (fusion_row_weight _ _ _ Ht).
Defined.

(** X12.  A key of 1024 or more makes the fusion encoder raise on every
    binary array of the reference shape: [location ^ k] is then beyond the
    Bloom vector. *)
Theorem large_xor_key_raises feat keys k :
  is_matrix 20 512 feat → k ∈ keys → (Z.of_nat BF_SIZE ≤ k)%Z →
  extract_BFs_from_iriscode_XOR feat keys = None.
Proof.
  intros Hfeat Hin Hk. unfold extract_BFs_from_iriscode_XOR.
  rewrite extract_with_rows. apply mapM_None_2, Exists_exists.
  exists (0, 0). split.
  - by_evaluation.
  - unfold block_row. cbn [fst snd].
    rewrite (encode_block_XOR_high keys k); [done| |done..].
    apply block_at_is_block; [done| |].
    + change N_BF_X with 16. lia.
    + change N_BF_Y with 2. lia.
Qed.

Lemma large_xor_key_raises_witness :
  is_matrix 20 512 Sample.striped_code ∧ 1024%Z ∈ [5%Z; 1024%Z]
  ∧ (Z.of_nat BF_SIZE ≤ 1024)%Z
  ∧ extract_BFs_from_iriscode_XOR Sample.striped_code [5%Z; 1024%Z] = None.
Proof.
  assert (is_matrix 20 512 Sample.striped_code) as Hm by by_evaluation.
  assert (1024%Z ∈ [5%Z; 1024%Z]) as Hin by by_evaluation.
  assert (Z.of_nat BF_SIZE ≤ 1024)%Z as Hk by (vm_compute; discriminate).
  split; [exact Hm|]. split; [exact Hin|]. split; [exact Hk|].
  exact (large_xor_key_raises _ _ _ Hm Hin Hk).
Defined.

(** X13.  Keys from -1024 up to 1023 are all accepted by the fusion
    encoder: with a negative key [location ^ k] is negative and no less
    than -1024, and indexes the Bloom vector from its end. *)
Theorem negative_xor_keys_accepted feat keys :
  is_matrix 20 512 feat →
  Forall (λ k, - Z.of_nat BF_SIZE ≤ k < Z.of_nat BF_SIZE)%Z keys →
  is_Some (extract_BFs_from_iriscode_XOR feat keys).
Proof.
  intros Hfeat Hk. apply extract_with_total. intros x y Hx Hy.
  apply encode_block_XOR_signed; [|done]. by apply block_at_is_block.
Qed.

Lemma negative_xor_keys_accepted_witness :
  is_matrix 20 512 Sample.striped_code
  ∧ Forall (λ k, - Z.of_nat BF_SIZE ≤ k < Z.of_nat BF_SIZE)%Z [(-1)%Z; 5%Z]
  ∧ is_Some (extract_BFs_from_iriscode_XOR Sample.striped_code
               [(-1)%Z; 5%Z]).
Proof.
  assert (is_matrix 20 512 Sample.striped_code) as Hm by by_evaluation.
  assert (Forall (λ k, - Z.of_nat BF_SIZE ≤ k < Z.of_nat BF_SIZE)%Z
            [(-1)%Z; 5%Z]) as Hk by by_evaluation.
  split; [exact Hm|]. split; [exact Hk|].
  exact (negative_xor_keys_accepted _ _ Hm Hk).
Defined.

(** X14.  With no keys the fusion encoder sets no bit: on a binary array
    of the reference shape its template is all zero. *)
Theorem fusion_without_keys feat :
  is_matrix 20 512 feat →
  extract_BFs_from_iriscode_XOR feat [] = Some (zeros2 N_BLOCKS BF_SIZE).
Proof.
  intros Hfeat. unfold extract_BFs_from_iriscode_XOR.
  rewrite extract_with_rows, <- grid_length. apply mapM_const, Forall_forall.
  intros [x y] [Hx Hy]%grid_bounds. unfold block_row. cbn [fst snd] in *.
  rewrite encode_block_XOR_nil by (by apply block_at_is_block).
  cbn [mbind option_bind]. rewrite decide_True; [done|].
  apply length_replicate.
Qed.

Lemma fusion_without_keys_witness :
  is_matrix 20 512 Sample.striped_code
  ∧ extract_BFs_from_iriscode_XOR Sample.striped_code []
    = Some (zeros2 N_BLOCKS BF_SIZE).
Proof.
  assert (is_matrix 20 512 Sample.striped_code) as Hm by by_evaluation.
  split; [exact Hm|].
  exact (fusion_without_keys _ Hm).
Defined.

(** * Further properties of loading and of a run *)

(** X15.  [rstrip] removes trailing whitespace and nothing else: a line is
    what is kept followed by whitespace, what is kept does not end in a
    whitespace character, and whitespace added at the end of a line does
    not change what the loader reads from it. *)
Theorem loader_strips_trailing_whitespace line :
  (∃ t, line = (rstrip line ++ t)%string ∧ spaces t)
  ∧ (∀ c, last (chars line) = Some c → is_space c = false)
  ∧ (∀ t, spaces t → parse_line (line ++ t) = parse_line line).
Proof.
  split; [apply rstrip_split|]. split; [apply rstrip_last|].
  intros t Ht. unfold parse_line. by rewrite rstrip_app_spaces.
Qed.

(** X16.  The array [load] makes of a sample has a row for each line and
    an entry for each character of the line, the value of that decimal
    digit: the entries are between 0 and 9, there is at least one row, and
    the rows have one length. *)
Theorem load_gives_digit_array lines m :
  load lines = Some (Array2 m) →
  parsed lines m ∧ Forall (Forall digit) m ∧ length m = length lines
  ∧ m ≠ [] ∧ ∃ c, Forall (λ row, length row = c) m.
Proof.
  intros [Hp (n & c & [Hl Hrows])]%load_Array2. split_and!.
  - done.
  - by eapply parsed_digits.
  - unfold parsed in Hp. apply Forall2_length in Hp.
    by rewrite length_fmap in Hp.
  - intros ->. done.
  - by exists c.
Qed.

Lemma load_gives_digit_array_witness :
  load Sample.long_sample = Some (Array2 (zeros2 20 513))
  ∧ Forall (Forall digit) (zeros2 20 513)
  ∧ length (zeros2 20 513) = length Sample.long_sample.
Proof.
  assert (load Sample.long_sample = Some (Array2 (zeros2 20 513))) as Hl
    by (vm_compute; reflexivity).
  split; [exact Hl|].
  pose proof (load_gives_digit_array _ _ Hl) as (_ & Hd & Hlen & _).
  split; [exact Hd|exact Hlen].
Defined.

(** X17.  A character other than a decimal digit anywhere in a line once
    trailing whitespace is removed (a letter, a sign, a blank inside the
    line) makes the processing of the sample raise, whatever the encoder
    and the key material: [int] rejects it at line 144. *)
Theorem non_digit_raises extract key lines :
  Exists (λ line, Exists (λ c, ¬ digit_char c) (chars line)) lines →
  process_sample extract key lines = None.
Proof.
  intros Hbad. unfold process_sample. by rewrite (load_None lines Hbad).
Qed.

Lemma non_digit_raises_witness :
  Exists (λ line, Exists (λ c, ¬ digit_char c) (chars line))
    ["0101"%string; "01 1"%string]
  ∧ process_sample extract_BFs_from_iriscode Sample.key
      ["0101"%string; "01 1"%string] = None.
Proof.
  assert (Exists (λ line, Exists (λ c, ¬ digit_char c) (chars line))
            ["0101"%string; "01 1"%string]) as Hbad by by_evaluation.
  split; [exact Hbad|].
  exact (non_digit_raises _ _ _ Hbad).
Defined.

(** X18.  A sample without lines, or with two lines of different lengths
    once trailing whitespace is removed, makes the processing raise,
    whatever the encoder and the key material. *)
Theorem ragged_sample_raises extract key lines :
  lines = [] ∨ (∃ l1 l2, l1 ∈ lines ∧ l2 ∈ lines
                         ∧ length (chars l1) ≠ length (chars l2)) →
  process_sample extract key lines = None.
Proof.
  intros Hragged. unfold process_sample.
  destruct (load lines) as [[M|n]|] eqn:Hload; [|done..].
  by destruct (load_not_Array2 lines M Hragged).
Qed.

Lemma ragged_sample_raises_witness :
  (["0101"%string; "010"%string] = []
   ∨ ∃ l1 l2, l1 ∈ ["0101"%string; "010"%string]
              ∧ l2 ∈ ["0101"%string; "010"%string]
              ∧ length (chars l1) ≠ length (chars l2))
  ∧ process_sample extract_BFs_from_iriscode Sample.key
      ["0101"%string; "010"%string] = None.
Proof.
  assert (["0101"%string; "010"%string] = []
          ∨ ∃ l1 l2, l1 ∈ ["0101"%string; "010"%string]
                     ∧ l2 ∈ ["0101"%string; "010"%string]
                     ∧ length (chars l1) ≠ length (chars l2)) as Hr.
  { right. exists "0101"%string, "010"%string.
    split; [constructor|]. split; [constructor; constructor|].
    vm_compute. lia. }
  split; [exact Hr|].
  exact (ragged_sample_raises _ _ _ Hr).
Defined.

(** X19.  The template of an accepted sample depends on the first 512
    characters of its first 20 lines only: two accepted samples that agree
    there get the same template, whatever the key material. *)
Theorem template_depends_on_region key lines lines' :
  accepted lines → accepted lines' →
  take 512 ∘ chars <$> take 20 lines = take 512 ∘ chars <$> take 20 lines' →
  process_sample extract_BFs_from_iriscode key lines
  = process_sample extract_BFs_from_iriscode key lines'
  ∧ ∀ keys,
      process_sample (λ m, extract_BFs_from_iriscode_XOR m keys) key lines
      = process_sample (λ m, extract_BFs_from_iriscode_XOR m keys) key lines'.
Proof.
  intros Ha Ha' Heq.
  destruct (accepted_load lines Ha) as (M & n & e & Hl & HM & Hp).
  destruct (accepted_load lines' Ha') as (M' & n' & e' & Hl' & HM' & Hp').
  pose proof (parsed_region_eq _ _ _ _ Hp Hp' Heq) as HF.
  assert (∀ encode,
            process_sample (extract_with encode) key lines
            = process_sample (extract_with encode) key lines') as Hsame.
  { intros encode.
    rewrite (process_sample_frame encode key lines M n e Hl HM).
    rewrite (process_sample_frame encode key lines' M' n' e' Hl' HM').
    by rewrite HF. }
  split; [apply Hsame|]. intros keys. apply Hsame.
Qed.

Lemma template_depends_on_region_witness :
  accepted Sample.long_sample ∧ accepted Sample.other_sample
  ∧ take 512 ∘ chars <$> take 20 Sample.long_sample
    = take 512 ∘ chars <$> take 20 Sample.other_sample
  ∧ process_sample extract_BFs_from_iriscode Sample.key Sample.long_sample
    = process_sample extract_BFs_from_iriscode Sample.key Sample.other_sample.
Proof.
  assert (accepted Sample.long_sample) as Ha.
  { exists 0, 1. split; [reflexivity|].
    split; [|split]; by_evaluation. }
  assert (accepted Sample.other_sample) as Ha'.
  { exists 1, 1. split; [reflexivity|].
    split; [|split]; by_evaluation. }
  assert (take 512 ∘ chars <$> take 20 Sample.long_sample
          = take 512 ∘ chars <$> take 20 Sample.other_sample) as Heq
    by (vm_compute; reflexivity).
  split; [exact Ha|]. split; [exact Ha'|]. split; [exact Heq|].
  exact (proj1 (template_depends_on_region Sample.key _ _ Ha Ha' Heq)).
Defined.

(** X20.  A run over accepted samples finishes: after the first line it
    prints the name of each sample without its last four characters, and
    it saves one template for each, in the order of the files. *)
Theorem accepted_run_finishes key nXORKeys rnd xorKeys DB files :
  valid_key key → run_keys nXORKeys rnd = Some xorKeys →
  Forall (λ f, accepted f.2) files →
  main nXORKeys rnd key DB files
  = (World (banner :: (stem ∘ fst <$> files))
       (outputs (extractor nXORKeys xorKeys) key DB files), Finished)
  ∧ length (outputs (extractor nXORKeys xorKeys) key DB files)
    = length files.
Proof.
  intros HK Hkeys Hfiles.
  pose proof (run_keys_in_range _ _ _ Hkeys) as Hrange.
  destruct (extractor_encoder nXORKeys xorKeys Hrange)
    as (encode & He & Hreads & Htotal).
  assert (Forall (λ f, is_Some (process_sample
                                  (extractor nXORKeys xorKeys) key f.2))
            files) as Hok.
  { eapply Forall_impl; [exact Hfiles|]. intros f Hf. rewrite He.
    by apply process_sample_is_Some. }
  rewrite main_extractor, Hkeys.
  by destruct (extract_all_good _ key DB files (World [banner] []) Hok)
    as [-> ->].
Qed.

Lemma accepted_run_finishes_witness :
  valid_key Sample.key ∧ run_keys 0 Sample.fives = Some []
  ∧ Forall (λ f : string * list string, accepted f.2)
      [("a01.txt"%string, Sample.long_sample);
       ("b02.txt"%string, Sample.other_sample)]
  ∧ length (outputs (extractor 0 []) Sample.key "out/"
              [("a01.txt"%string, Sample.long_sample);
               ("b02.txt"%string, Sample.other_sample)]) = 2.
Proof.
  assert (valid_key Sample.key) as HK by by_evaluation.
  assert (run_keys 0 Sample.fives = Some []) as Hkeys by reflexivity.
  assert (accepted Sample.long_sample) as Ha.
  { exists 0, 1. split; [reflexivity|].
    split; [|split]; by_evaluation. }
  assert (accepted Sample.other_sample) as Ha'.
  { exists 1, 1. split; [reflexivity|].
    split; [|split]; by_evaluation. }
  assert (Forall (λ f : string * list string, accepted f.2)
            [("a01.txt"%string, Sample.long_sample);
             ("b02.txt"%string, Sample.other_sample)]) as Hfiles.
  { constructor; [exact Ha|]. constructor; [exact Ha'|]. constructor. }
  split; [exact HK|]. split; [exact Hkeys|]. split; [exact Hfiles|].
  exact (proj2 (accepted_run_finishes Sample.key 0 Sample.fives [] "out/"
                  _ HK Hkeys Hfiles)).
Defined.

(** X21.  Any run, whatever the samples and the key material: every array
    saved is a template of 32 rows of 1024 entries 0 or 1; no more
    templates are saved than there are files; the lines printed are one
    or two more than the templates saved; and a run that finishes has
    saved a template for every file. *)
Theorem run_log nXORKeys rnd key DB files w o :
  main nXORKeys rnd key DB files = (w, o) →
  Forall (λ p, is_matrix 32 1024 p.2) (saved w)
  ∧ length (saved w) ≤ length files
  ∧ length (saved w) < length (stdout w) ≤ length (saved w) + 2
  ∧ (o = Finished →
     length (saved w) = length files
     ∧ stdout w = banner :: (stem ∘ fst <$> files)).
Proof.
  rewrite main_extractor.
  destruct (run_keys nXORKeys rnd) as [xorKeys|].
  2:{ intros [= <- <-]. cbn. split; [constructor|]. split; [lia|].
      split; [lia|]. intros [=]. }
  intros Hrun. apply extract_all_log in Hrun
    as (n & Hn & _ & Hsaved & Hlen & Ho).
  cbn [saved stdout app] in Hsaved, Ho. rewrite Hsaved. split_and!.
  - apply outputs_Forall. intros fn lines bfs Hbfs.
    apply process_sample_extract in Hbfs as [R HR].
    by eapply extractor_template.
  - lia.
  - destruct o.
    + destruct Ho as [-> ->]. cbn. rewrite length_fmap. lia.
    + destruct Ho as (f & _ & _ & ->). cbn.
      rewrite length_app, length_fmap, length_take. cbn. lia.
  - destruct o.
    + destruct Ho as [-> ->]. cbn. rewrite length_fmap. lia.
    + destruct Ho as (f & _ & _ & ->). cbn.
      rewrite length_app, length_fmap, length_take. cbn. lia.
  - intros ->. destruct Ho as [-> ->]. split; [lia|done].
Qed.

Lemma run_log_witness :
  ∃ w, main 2 Sample.fives Sample.key "out/"
         [("a01.txt"%string, Sample.long_sample);
          ("bad.txt"%string, Sample.bad_sample)] = (w, Raised)
       ∧ Forall (λ p, is_matrix 32 1024 p.2) (saved w)
       ∧ length (saved w) ≤ 2.
Proof.
  eexists. split; [vm_compute; reflexivity|].
  match goal with
  | |- Forall _ (saved ?w) ∧ _ =>
      assert (main 2 Sample.fives Sample.key "out/"
                [("a01.txt"%string, Sample.long_sample);
                 ("bad.txt"%string, Sample.bad_sample)] = (w, Raised)) as Hrun
        by (vm_compute; reflexivity);
      pose proof (run_log _ _ _ _ _ _ _ Hrun) as (Ht & Hlen & _)
  end.
  split; [exact Ht|exact Hlen].
Defined.

(** X22.  The path a template is saved under is made of the name of the
    sample without its last four characters, whatever these are: samples
    whose names differ in their last four characters only are saved under
    the same path, and so are all samples with names of at most four
    characters. *)
Theorem output_path_ignores_extension DB s e1 e2 fn :
  String.length e1 = 4 → String.length e2 = 4 → String.length fn ≤ 4 →
  stem (s ++ e1) = s
  ∧ out_path DB (s ++ e1) = out_path DB (s ++ e2)
  ∧ out_path DB fn = (DB ++ "_BFtemplate.txt")%string.
Proof.
  intros H1 H2 Hfn. unfold out_path.
  rewrite !stem_app, stem_short by done. done.
Qed.

Lemma output_path_ignores_extension_witness :
  String.length ".txt" = 4 ∧ String.length ".dat" = 4
  ∧ String.length "a" ≤ 4
  ∧ out_path "out/" "s01.txt" = out_path "out/" "s01.dat"
  ∧ out_path "out/" "a" = "out/_BFtemplate.txt"%string.
Proof.
  assert (String.length ".txt" = 4) as H1 by reflexivity.
  assert (String.length ".dat" = 4) as H2 by reflexivity.
  assert (String.length "a" ≤ 4) as H3 by (vm_compute; lia).
  split; [exact H1|]. split; [exact H2|]. split; [exact H3|].
  exact (proj2 (output_path_ignores_extension "out/" "s01" ".txt" ".dat" "a"
                  H1 H2 H3)).
Defined.

(** X23.  The XOR keys of a run in fusion mode (line 138).  Drawing them
    raises exactly when [nXORKeys] is negative or greater than [BF_SIZE];
    otherwise there are [nXORKeys] keys, all different and all within
    [0, BF_SIZE). *)
Theorem xor_keys_distinct_in_range nXORKeys rnd :
  (sample (range BF_SIZE) nXORKeys rnd = None
   ↔ (nXORKeys < 0 ∨ Z.of_nat BF_SIZE < nXORKeys)%Z)
  ∧ ∀ xorKeys, sample (range BF_SIZE) nXORKeys rnd = Some xorKeys →
      length xorKeys = Z.to_nat nXORKeys ∧ NoDup xorKeys
      ∧ keys_in_range xorKeys.
Proof.
  split; [|intros xorKeys; apply sample_range_Some].
  pose proof (sample_range BF_SIZE nXORKeys rnd) as Hs.
  destruct (sample (range BF_SIZE) nXORKeys rnd) as [keys|].
  - split; [done|]. intros Hx.
    assert (0 ≤ nXORKeys ≤ Z.of_nat BF_SIZE)%Z by (apply Hs; by eexists).
    lia.
  - split; [|done]. intros _.
    destruct (decide (0 ≤ nXORKeys ≤ Z.of_nat BF_SIZE)%Z) as [Hin|]; [|lia].
    apply Hs in Hin as [? [=]].
Qed.
